(** * webtoonsaver: a shallow embedding of [webtoonsaver.py]

    The module [WebtoonSaver] discovers the chapters of a web comic,
    downloads the images of every chapter and assembles them into one PDF
    per chapter.  This development embeds the class and its driver as
    functions over an explicit world (file system, network log, console)
    and proves the properties of the embedding. *)

From Stdlib Require Import ZArith Lia Ascii String List Permutation Sorted.
From stdpp Require Import gmap strings list fin_maps pretty sorting.

Local Open Scope Z_scope.

(** ** Python strings

    A [str] is modelled by [string]; only ASCII text is modelled, so a
    decimal digit is one of the characters [0] to [9]. *)

Module Str.

Definition is_digit (c : ascii) : bool :=
  ((48 <=? nat_of_ascii c) && (nat_of_ascii c <=? 57))%nat.

(** [\s] of the [re] module for a [str] pattern, on ASCII text: space,
    tab, newline, vertical tab, form feed, carriage return, and the four
    separators [\x1c] to [\x1f]. *)
Definition is_space (c : ascii) : bool :=
  let n := nat_of_ascii c in
  ((n =? 32) || ((9 <=? n) && (n <=? 13)) || ((28 <=? n) && (n <=? 31)))%nat.

Definition digit_value (c : ascii) : Z := Z.of_nat (nat_of_ascii c) - 48.

Fixpoint all_digits (s : string) : bool :=
  match s with
  | EmptyString => true
  | String c s' => is_digit c && all_digits s'
  end.

(** [text.isdigit()]: non-empty and made of digits only. *)
Definition isdigit (s : string) : bool :=
  match s with
  | EmptyString => false
  | _ => all_digits s
  end.

Fixpoint int_acc (acc : Z) (s : string) : Z :=
  match s with
  | EmptyString => acc
  | String c s' => int_acc (10 * acc + digit_value c) s'
  end.

(** [int(text)] on a string of decimal digits. *)
Definition int (s : string) : Z := int_acc 0 s.

Fixpoint rev_acc (s acc : string) : string :=
  match s with
  | EmptyString => acc
  | String c s' => rev_acc s' (String c acc)
  end.

Definition rev (s : string) : string := rev_acc s EmptyString.

Fixpoint prefixb (p s : string) : bool :=
  match p, s with
  | EmptyString, _ => true
  | String a p', String b s' => Ascii.eqb a b && prefixb p' s'
  | String _ _, EmptyString => false
  end.

(** [needle in s]: substring test. *)
Fixpoint contains (needle s : string) : bool :=
  prefixb needle s ||
  match s with
  | EmptyString => false
  | String _ s' => contains needle s'
  end.

(** [re.sub("\s+", "", s)]: every run of white space is deleted. *)
Fixpoint strip_spaces (s : string) : string :=
  match s with
  | EmptyString => EmptyString
  | String c s' =>
      if is_space c then strip_spaces s' else String c (strip_spaces s')
  end.

(** [re.split(r"(\d+)", text)] read from the left: [cur] holds the
    run being read (reversed), [in_digits] tells which kind it is.  The
    pieces alternate between text outside the matches and the matches,
    and the list starts and ends with a piece outside a match. *)
Fixpoint split_runs (cur : string) (in_digits : bool) (s : string)
  : list string :=
  match s with
  | EmptyString =>
      if in_digits then [rev cur; EmptyString] else [rev cur]
  | String c s' =>
      if is_digit c then
        if in_digits then split_runs (String c cur) true s'
        else rev cur :: split_runs (String c EmptyString) true s'
      else
        if in_digits then rev cur :: split_runs (String c EmptyString) false s'
        else split_runs (String c cur) false s'
  end.

Definition re_split_digits (text : string) : list string :=
  split_runs EmptyString false text.

(** [re.findall(r"\d+", s)]: the maximal runs of digits, in order. *)
Fixpoint digit_runs (cur : string) (in_digits : bool) (s : string)
  : list string :=
  match s with
  | EmptyString => if in_digits then [rev cur] else []
  | String c s' =>
      if is_digit c then digit_runs (String c cur) true s'
      else if in_digits then rev cur :: digit_runs EmptyString false s'
           else digit_runs EmptyString false s'
  end.

Definition re_findall_digits (s : string) : list string :=
  digit_runs EmptyString false s.

End Str.

(** ** Paths

    What [os.makedirs] reads of a path, with [/] as the separator. *)

Module Path.

Definition is_sep (c : ascii) : bool := Ascii.eqb c "/".

(** The truth value of a [str]: false for the empty string only. *)
Definition nonempty (s : string) : bool :=
  match s with
  | EmptyString => false
  | String _ _ => true
  end.

(** [(p[:i], p[i:])] for [i = p.rfind("/") + 1]: the path up to its
    last slash, that slash included, and what follows it. *)
Fixpoint cut (p : string) : string * string :=
  match p with
  | EmptyString => (EmptyString, EmptyString)
  | String c p' =>
      let '(head, tail) := cut p' in
      if nonempty head then (String c head, tail)
      else if is_sep c then (String c EmptyString, tail)
           else (EmptyString, String c tail)
  end.

(** [s == "/" * len(s)] *)
Fixpoint all_seps (s : string) : bool :=
  match s with
  | EmptyString => true
  | String c s' => is_sep c && all_seps s'
  end.

(** [s.rstrip("/")] *)
Fixpoint rstrip_sep (s : string) : string :=
  match s with
  | EmptyString => EmptyString
  | String c s' =>
      let r := rstrip_sep s' in
      if is_sep c && negb (nonempty r) then EmptyString else String c r
  end.

(** [posixpath.split]: the slashes that end the head are dropped unless
    the head is made of slashes only. *)
Definition split (p : string) : string * string :=
  let '(head, tail) := cut p in
  (if nonempty head && negb (all_seps head) then rstrip_sep head else head,
   tail).

End Path.

(** ** Natural sort keys *)

(** An element of the list [natural_keys] returns: [atoi] gives an [int]
    or hands the [str] back. *)
Inductive key_elem : Type :=
  | KInt (n : Z)
  | KStr (s : string).

Definition atoi (text : string) : key_elem :=
  if Str.isdigit text then KInt (Str.int text) else KStr text.

Definition natural_keys (text : string) : list key_elem :=
  map atoi (Str.re_split_digits text).

(** ** Exceptions and results

    The exceptions the module can raise, by the name of their Python
    class.  [RequestException] is raised by [requests.get], [ClientError]
    by the [aiohttp] session when the connection or the read fails. *)
Inductive exn : Type :=
  | IndexError
  | KeyError
  | TypeError
  | ValueError
  | AttributeError
  | FileExistsError
  | FileNotFoundError
  | OSError
  | RequestException
  | ClientError.

Inductive result (A : Type) : Type :=
  | Ok (a : A)
  | Raise (e : exn).
Arguments Ok {A} a.
Arguments Raise {A} e.

Definition rbind {A B} (r : result A) (k : A -> result B) : result B :=
  match r with
  | Ok a => k a
  | Raise e => Raise e
  end.

(** ** Comparison of sort keys

    Python compares two lists at the first position where their elements
    are not [==]; an [int] and a [str] are never [==] and cannot be
    ordered ([TypeError]).  A [str] is ordered by code point. *)

Definition elem_eqb (a b : key_elem) : bool :=
  match a, b with
  | KInt x, KInt y => x =? y
  | KStr s, KStr t => Stdlib.Strings.String.eqb s t
  | _, _ => false
  end.

Definition elem_lt (a b : key_elem) : result bool :=
  match a, b with
  | KInt x, KInt y => Ok (x <? y)
  | KStr s, KStr t => Ok (Stdlib.Strings.String.ltb s t)
  | _, _ => Raise TypeError
  end.

Fixpoint keys_lt (a b : list key_elem) : result bool :=
  match a, b with
  | [], [] => Ok false
  | [], _ :: _ => Ok true
  | _ :: _, [] => Ok false
  | x :: a', y :: b' =>
      if elem_eqb x y then keys_lt a' b' else elem_lt x y
  end.

(** [list.sort(key=key)]: a stable sort that only asks whether one key
    is less than another.  It is embedded as an insertion from the right:
    an element goes in front of the first one that is not less than it. *)
Section Sort.
Context {A : Type} (key : A -> list key_elem).

Fixpoint sort_insert (x : A) (l : list A) : result (list A) :=
  match l with
  | [] => Ok [x]
  | y :: l' =>
      rbind (keys_lt (key y) (key x)) (fun lt =>
        if lt then rbind (sort_insert x l') (fun r => Ok (y :: r))
        else Ok (x :: y :: l'))
  end.

Fixpoint list_sort (l : list A) : result (list A) :=
  match l with
  | [] => Ok []
  | x :: l' => rbind (list_sort l') (sort_insert x)
  end.
End Sort.

(** ** The world

    The file system keeps regular files by path and directories by path,
    each directory with its entries by name.  The operating system
    resolves [dir + "/" + name] and [dir + name] (with [dir] ending in a
    slash) to the same entry; the embedding names an entry by the pair of
    the directory and the name.  A path is the string the program
    wrote: two spellings of one path ([a/b] and [a/b/], [a/./b] and
    [a/b]) are two keys, and a directory may be there without its
    parent. *)

Definition bytes : Type := list Byte.byte.

(** What the module reads of a [PIL.Image]: its height, its mode, and
    the raster it stands for. *)
Record image : Type := {
  img_height : Z;
  img_mode : string;
  img_raster : bytes
}.

Inductive content : Type :=
  | Raw (b : bytes)
  | Pdf (pages : list image).

Record filesystem : Type := {
  files : gmap string content;
  dirs : gmap string (gmap string bytes)
}.

(** A line the module prints. *)
Inductive message : Type :=
  | MissingChapters (missing : Z) (comic url : string) (ids : gset Z)
  | ImagesDownloaded (downloaded total : nat) (chapter_id : string).

Record world : Type := {
  fs : filesystem;
  net : list string;      (* URLs requested so far, the latest first *)
  out : list message      (* lines printed so far, the latest first *)
}.

(** ** External collaborators

    What the libraries and the network answer.  [page_at] is the text
    of the page at a URL ([None]: the request fails);
    [find_chapter_links] and [find_images] are the [href] and [src]
    attributes BeautifulSoup finds for a class selector; [image_at] is
    what the [aiohttp] session gets for an image URL; [decode] is what
    [Image.open] makes of a file's bytes. *)

Inductive selector : Type :=
  | ClassName (name : string)
  | ClassPattern (regex : string).

Inductive fetch_outcome : Type :=
  | Response (status : Z) (body : bytes)
  | ConnectionFailed
  | ReadFailed (status : Z).

Inductive open_outcome : Type :=
  | Opened (img : image)
  | Unidentified          (* raises UnidentifiedImageError *)
  | OpenFailed.           (* raises another OSError *)

Record env : Type := {
  slugify : string -> string;
  expanduser : string -> string;
  page_at : string -> option string;
  find_chapter_links : string -> string -> list string;
  find_images : selector -> string -> list string;
  image_at : string -> fetch_outcome;
  decode : bytes -> open_outcome;
  cpu_count : Z
}.

(** ** Computations

    A method is a function of the world that returns a value or raises,
    together with the world it leaves: what was written before an
    exception stays written. *)

Definition M (A : Type) : Type := world -> result A * world.

Definition ret {A} (a : A) : M A := fun w => (Ok a, w).

Definition raise {A} (e : exn) : M A := fun w => (Raise e, w).

Definition bind {A B} (m : M A) (k : A -> M B) : M B :=
  fun w =>
    match m w with
    | (Ok a, w') => k a w'
    | (Raise e, w') => (Raise e, w')
    end.

Notation "x <- m ;; k" := (bind m (fun x => k))
  (at level 20, m at level 99, k at level 200, only parsing).
Notation "m ;; k" := (bind m (fun _ => k))
  (at level 100, k at level 200, right associativity, only parsing).

Definition lift {A} (r : result A) : M A := fun w => (r, w).

Definition when (b : bool) (m : M unit) : M unit :=
  if b then m else ret tt.

Fixpoint mapM {A B} (f : A -> M B) (l : list A) : M (list B) :=
  match l with
  | [] => ret []
  | x :: l' => y <- f x ;; ys <- mapM f l' ;; ret (y :: ys)
  end.

Definition update_fs (f : filesystem -> filesystem) : M unit :=
  fun w => (Ok tt, {| fs := f (fs w); net := net w; out := out w |}).

Definition log_request (url : string) : M unit :=
  fun w => (Ok tt, {| fs := fs w; net := url :: net w; out := out w |}).

Definition print (m : message) : M unit :=
  fun w => (Ok tt, {| fs := fs w; net := net w; out := m :: out w |}).

(** *** [os] and [shutil] *)

Definition file_exists (path : string) (f : filesystem) : bool :=
  bool_decide (is_Some (files f !! path)).

Definition dir_exists (path : string) (f : filesystem) : bool :=
  bool_decide (is_Some (dirs f !! path)).

Definition isfile (path : string) : M bool :=
  fun w => (Ok (file_exists path (fs w)), w).

Definition isdir (path : string) : M bool :=
  fun w => (Ok (dir_exists path (fs w)), w).

Definition path_exists (path : string) (f : filesystem) : bool :=
  file_exists path f || dir_exists path f.

Definition add_dir (path : string) (f : filesystem) : filesystem :=
  {| files := files f; dirs := <[path := ∅]> (dirs f) |}.

(** [os.path.exists] *)
Definition os_path_exists (path : string) : M bool :=
  fun w => (Ok (path_exists path (fs w)), w).

(** [os.mkdir] raises when the path exists; the directory above the
    path is not looked at. *)
Definition mkdir (path : string) : M unit :=
  fun w =>
    if path_exists path (fs w) then (Raise FileExistsError, w)
    else update_fs (add_dir path) w.

(** [try: m] with [except FileExistsError: pass] *)
Definition pass_file_exists (m : M unit) : M unit :=
  fun w =>
    match m w with
    | (Raise FileExistsError, w') => (Ok tt, w')
    | r => r
    end.

(** The head and the tail [os.makedirs] takes of [name]: those of
    [posixpath.split], taken once more of the head when the tail is
    empty, that is when [name] ends in a slash. *)
Definition head_tail (name : string) : string * string :=
  let '(head, tail) := Path.split name in
  if Path.nonempty tail then (head, tail) else Path.split head.

(** [os.makedirs(name)], with [exist_ok] left false: the head is made
    first, with the directories it lacks, when it is not there; then
    [name] itself is made, which raises when [name] exists.  The call
    on the head is a call on a shorter path; [fuel] bounds the depth of
    the calls, and the length of [name] is enough of it
    ([makedirs_fuel]). *)
Fixpoint makedirs_from (fuel : nat) (name : string) : M unit :=
  let '(head, tail) := head_tail name in
  match fuel with
  | S fuel' =>
      there <- os_path_exists head ;;
      if Path.nonempty head && Path.nonempty tail && negb there then
        pass_file_exists (makedirs_from fuel' head) ;;
        if Stdlib.Strings.String.eqb tail "." then ret tt else mkdir name
      else mkdir name
  | O => mkdir name
  end.

Definition makedirs (name : string) : M unit :=
  makedirs_from (Stdlib.Strings.String.length name) name.

Definition remove_dir (path : string) (f : filesystem) : filesystem :=
  {| files := files f; dirs := delete path (dirs f) |}.

(** [shutil.rmtree]: the directory goes with all it holds. *)
Definition rmtree (path : string) : M unit :=
  fun w =>
    match dirs (fs w) !! path with
    | Some _ => update_fs (remove_dir path) w
    | None => (Raise FileNotFoundError, w)
    end.

(** [os.listdir]: the names of the entries, in the order the map
    enumerates them. *)
Definition listdir (path : string) : M (list string) :=
  fun w =>
    match dirs (fs w) !! path with
    | Some d => (Ok (map fst (map_to_list d)), w)
    | None => (Raise FileNotFoundError, w)
    end.

Definition add_entry (dir name : string) (b : bytes) (f : filesystem)
  : filesystem :=
  {| files := files f;
     dirs := alter (fun d => <[name := b]> d) dir (dirs f) |}.

(** Opening [dir/name] for writing and writing [b]. *)
Definition write_entry (dir name : string) (b : bytes) : M unit :=
  fun w =>
    match dirs (fs w) !! dir with
    | Some _ => update_fs (add_entry dir name b) w
    | None => (Raise FileNotFoundError, w)
    end.

Definition read_entry (dir name : string) : M bytes :=
  fun w =>
    match dirs (fs w) !! dir with
    | Some d =>
        match d !! name with
        | Some b => (Ok b, w)
        | None => (Raise FileNotFoundError, w)
        end
    | None => (Raise FileNotFoundError, w)
    end.

Definition add_file (path : string) (c : content) (f : filesystem)
  : filesystem :=
  {| files := <[path := c]> (files f); dirs := dirs f |}.

Definition write_file (path : string) (c : content) : M unit :=
  update_fs (add_file path c).

(** *** Lists and dictionaries of Python *)

(** [l[i]] for [i >= 0]. *)
Definition index {A} (l : list A) (i : nat) : result A :=
  match l !! i with
  | Some x => Ok x
  | None => Raise IndexError
  end.

(** [l[-1]]. *)
Definition index_last {A} (l : list A) : result A :=
  match last l with
  | Some x => Ok x
  | None => Raise IndexError
  end.

(** An [OrderedDict] from [str] to [str]: the items in insertion order,
    every key once. *)
Definition ordered_dict : Type := list (string * string).

(** [d[k] = v]: a key already there keeps its place and takes the new
    value, a new key goes to the end. *)
Fixpoint od_set (k v : string) (d : ordered_dict) : ordered_dict :=
  match d with
  | [] => [(k, v)]
  | (k', v') :: d' =>
      if Stdlib.Strings.String.eqb k k' then (k, v) :: d'
      else (k', v') :: od_set k v d'
  end.

Definition od_keys (d : ordered_dict) : list string := map fst d.

(** [chapter_range[k]] where [chapter_range] is a [dict] or [None]. *)
Definition range_get (chapter_range : option (gmap string (option Z)))
  (k : string) : M (option Z) :=
  match chapter_range with
  | None => raise TypeError
  | Some d =>
      match d !! k with
      | Some v => ret v
      | None => raise KeyError
      end
  end.

(** [s.rsplit(sep, maxsplit)]: [rs] is what is left of the reversed
    string, [cur] the piece being read, [acc] the pieces to its right. *)
Fixpoint rsplit_go (sep : ascii) (n : nat) (cur rs : string)
  (acc : list string) : list string :=
  match rs with
  | EmptyString => cur :: acc
  | String c rs' =>
      if Ascii.eqb c sep then
        match n with
        | O => Str.rev_acc rs cur :: acc
        | S n' => rsplit_go sep n' EmptyString rs' (cur :: acc)
        end
      else rsplit_go sep n (String c cur) rs' acc
  end.

Definition rsplit (sep : ascii) (maxsplit : nat) (s : string) : list string :=
  rsplit_go sep maxsplit EmptyString (Str.rev s) [].

(** ** The class [WebtoonSaver] *)

Record site_rule : Type := {
  chapter_class : string;
  image_class : selector
}.

Definition webtoonscan_rule : site_rule :=
  {| chapter_class := "wp-manga-chapter";
     image_class := ClassName "wp-manga-chapter-img" |}.

Definition manhwa18_rule : site_rule :=
  {| chapter_class := "a-h wleft";
     image_class := ClassPattern "loading p\d+" |}.

(** The attributes of an instance.  [database] is set only for a known
    site; [chapter_urls] is set by [getChapterURLs]. *)
Record WebtoonSaver : Type := {
  url : string;
  database : option site_rule;
  comic_name : string;
  save_path : string;
  chapter_start : option Z;
  chapter_end : option Z;
  chapter_urls : ordered_dict
}.

Definition default_chapter_range : option (gmap string (option Z)) :=
  Some (<["start" := None]> (<["end" := None]> ∅)).

Section Methods.
Context (E : env).

(** Lines 65-68: where the comic is saved. *)
Definition comic_save_path (save_path0 : option string) (name : string)
  : string :=
  match save_path0 with
  | Some p => p +:+ name +:+ "/"
  | None => expanduser E ("~/Desktop/Comics/" +:+ name +:+ "/")
  end.

(** [WebtoonSaver.__init__] *)
Definition init (url0 : string) (name save_path0 : option string)
  (num_chapters : option Z)
  (chapter_range : option (gmap string (option Z))) : M WebtoonSaver :=
  let '(url1, db) :=
    if Str.contains "webtoonscan.com" url0 then (url0, Some webtoonscan_rule)
    else if Str.contains "manhwa18.cc" url0
         then (url0 +:+ "/", Some manhwa18_rule)
         else (url0, None) in
  name1 <- match name with
           | Some n => ret n
           | None => lift (index (rsplit "/" 2 url1) 1)
           end ;;
  let name2 := slugify E name1 in
  let path := comic_save_path save_path0 name2 in
  there <- isdir path ;;
  when (negb there) (makedirs path) ;;
  start <- range_get chapter_range "start" ;;
  stop <- range_get chapter_range "end" ;;
  let '(start1, stop1) :=
    match num_chapters with
    | Some n => (Some 1, Some n)
    | None => (start, stop)
    end in
  ret {| url := url1; database := db; comic_name := name2;
         save_path := path; chapter_start := start1;
         chapter_end := stop1; chapter_urls := [] |}.

(** [requests.get(url).text] *)
Definition requests_get (u : string) : M string :=
  log_request u ;;
  match page_at E u with
  | Some text => ret text
  | None => raise RequestException
  end.

(** [self.database[...]]: the attribute is missing for an unknown site. *)
Definition get_database (self : WebtoonSaver) : M site_rule :=
  match database self with
  | Some r => ret r
  | None => raise AttributeError
  end.

(** The body of the loop over the chapter elements (lines 95-100). *)
Definition add_chapter (self : WebtoonSaver) (d : ordered_dict)
  (chapter_url : string) : M ordered_dict :=
  chapter_id <- lift (index (Str.re_findall_digits chapter_url) 0) ;;
  if Str.contains "webtoonscan.com" (url self) then
    ret (od_set chapter_id chapter_url d)
  else if Str.contains "manhwa18.cc" (url self) then
    base <- lift (index (rsplit "/" 3 (url self)) 0) ;;
    ret (od_set chapter_id (base +:+ chapter_url) d)
  else ret d.

Fixpoint add_chapters (self : WebtoonSaver) (d : ordered_dict)
  (links : list string) : M ordered_dict :=
  match links with
  | [] => ret d
  | l :: links' => d' <- add_chapter self d l ;; add_chapters self d' links'
  end.

(** The identifiers the report of line 110 lists. *)
Definition missing_ids (first_chapter last_chapter : Z)
  (keys : list string) : gset Z :=
  list_to_set (seqZ first_chapter (last_chapter + 1 - first_chapter))
    ∖ list_to_set (map Str.int keys).

(** The report on the chapters that were not parsed (lines 103-111). *)
Definition report_missing (self : WebtoonSaver) (d : ordered_dict) : M unit :=
  last_chapter <- lift (rbind (index (od_keys d) 0) (fun k => Ok (Str.int k))) ;;
  first_chapter <- lift (rbind (index_last (od_keys d)) (fun k => Ok (Str.int k))) ;;
  let missing_chap := last_chapter - Z.of_nat (length (od_keys d)) in
  when (0 <? missing_chap)
    (print (MissingChapters missing_chap (comic_name self) (url self)
              (missing_ids first_chapter last_chapter (od_keys d)))).

(** [if self.chapter_start:] keeps the chapters from [chapter_start] on;
    [None] and [0] are both false. *)
Definition filter_start (start : option Z) (d : ordered_dict) : ordered_dict :=
  match start with
  | Some s =>
      if s =? 0 then d
      else List.filter (fun kv => s <=? Str.int (fst kv)) d
  | None => d
  end.

(** [if self.chapter_end:], likewise. *)
Definition filter_end (stop : option Z) (d : ordered_dict) : ordered_dict :=
  match stop with
  | Some e =>
      if e =? 0 then d
      else List.filter (fun kv => Str.int (fst kv) <=? e) d
  | None => d
  end.

(** [WebtoonSaver.getChapterURLs]; the instance with [chapter_urls] set
    is returned. *)
Definition getChapterURLs (self : WebtoonSaver) : M WebtoonSaver :=
  text <- requests_get (url self) ;;
  rule <- get_database self ;;
  d <- add_chapters self [] (find_chapter_links E (chapter_class rule) text) ;;
  report_missing self d ;;
  let d1 := filter_start (chapter_start self) d in
  let d2 := filter_end (chapter_end self) d1 in
  ret {| url := url self; database := database self;
         comic_name := comic_name self; save_path := save_path self;
         chapter_start := chapter_start self;
         chapter_end := chapter_end self; chapter_urls := d2 |}.

(** Tasks awaited together ([asyncio.gather]) or mapped over a pool
    ([Pool.starmap]): every task runs, and when some task raised, the
    exception of the first such task is raised to the caller.  The tasks
    are run one after the other in the order of the list; the order in
    which the event loop or the pool interleaves them is not modelled,
    nor is the cancellation of the tasks still pending when the
    exception leaves [asyncio.run]. *)
Fixpoint run_all {A} (tasks : list (M A)) (w : world)
  : list (result A) * world :=
  match tasks with
  | [] => ([], w)
  | t :: ts =>
      let '(r, w1) := t w in
      let '(rs, w2) := run_all ts w1 in
      (r :: rs, w2)
  end.

Fixpoint collect {A} (rs : list (result A)) : result (list A) :=
  match rs with
  | [] => Ok []
  | Ok a :: rs' => rbind (collect rs') (fun l => Ok (a :: l))
  | Raise e :: _ => Raise e
  end.

Definition gather {A} (tasks : list (M A)) : M (list A) :=
  fun w => let '(rs, w') := run_all tasks w in (collect rs, w').

(** The name a download is saved under: [images<idx+1>.jpg]. *)
Definition image_name (idx : nat) : string :=
  "images" +:+ pretty (idx + 1)%nat +:+ ".jpg".

(** [session.get(url)] followed by [response.read()] *)
Definition session_get_read (u : string) : M bytes :=
  log_request u ;;
  match image_at E u with
  | Response _ body => ret body
  | ConnectionFailed => raise ClientError
  | ReadFailed _ => raise ClientError
  end.

(** [WebtoonSaver.download_image] *)
Definition download_image (u : string) (idx : nat)
  (image_save_path : string) : M nat :=
  body <- session_get_read u ;;
  write_entry image_save_path (image_name idx) body ;;
  ret idx.

(** [WebtoonSaver.download_images] *)
Definition download_images (image_urls : list string)
  (image_save_path : string) : M (list nat) :=
  gather (imap (fun idx u => download_image u idx image_save_path)
            image_urls).

(** [img.convert("RGB")] *)
Definition convert_rgb (img : image) : image :=
  {| img_height := img_height img; img_mode := "RGB";
     img_raster := img_raster img |}.

(** The local function [load_image] of [process_chapter]; [None] is
    returned for an image that is not high enough and for a file that
    is not an image. *)
Definition load_image (image_save_path name : string) : M (option image) :=
  b <- read_entry image_save_path name ;;
  match decode E b with
  | Opened img =>
      if 500 <? img_height img then
        if Stdlib.Strings.String.eqb (img_mode img) "RGBA"
        then ret (Some (convert_rgb img))
        else ret (Some img)
      else ret None
  | Unidentified => ret None
  | OpenFailed => raise OSError
  end.

Definition scratch_path (save_path0 chapter_id : string) : string :=
  save_path0 +:+ "Chapter" +:+ chapter_id +:+ "_Images/".

Definition pdf_path (save_path0 chapter_id : string) : string :=
  save_path0 +:+ "Chapter-" +:+ chapter_id +:+ ".pdf".

(** Lines 206-208: the scratch directory is made anew. *)
Definition prepare_scratch (image_save_path : string) : M unit :=
  there <- isdir image_save_path ;;
  when there (rmtree image_save_path) ;;
  mkdir image_save_path.

(** Lines 210-221: the images of the chapter page are downloaded. *)
Definition fetch_images (self : WebtoonSaver)
  (chapter_id chapter_url image_save_path : string) : M unit :=
  text <- requests_get chapter_url ;;
  rule <- get_database self ;;
  let image_urls := map Str.strip_spaces (find_images E (image_class rule) text) in
  downloaded_indexes <- download_images image_urls image_save_path ;;
  when (negb (length downloaded_indexes =? length image_urls)%nat)
    (print (ImagesDownloaded (length downloaded_indexes)
              (length image_urls) chapter_id)).

(** Lines 223-242: the pages, in the order of the sorted file names. *)
Definition load_pages (image_save_path : string) : M (list image) :=
  alist <- listdir image_save_path ;;
  alist1 <- lift (list_sort natural_keys alist) ;;
  let imagelist := List.filter (Str.contains ".jpg") alist1 in
  im_list <- mapM (load_image image_save_path) imagelist ;;
  ret (omap id im_list).

(** Lines 244-251: the document is written when there is a page. *)
Definition save_pdf (pdf_filename : string) (im_list : list image) : M unit :=
  match im_list with
  | [] => ret tt
  | _ :: _ => write_file pdf_filename (Pdf im_list)
  end.

(** [WebtoonSaver.process_chapter] *)
Definition process_chapter (self : WebtoonSaver)
  (chapter_id chapter_url save_path0 : string) : M unit :=
  let image_save_path := scratch_path save_path0 chapter_id in
  let pdf_filename := pdf_path save_path0 chapter_id in
  done <- isfile pdf_filename ;;
  if done then ret tt
  else
    prepare_scratch image_save_path ;;
    fetch_images self chapter_id chapter_url image_save_path ;;
    im_list <- load_pages image_save_path ;;
    save_pdf pdf_filename im_list ;;
    rmtree image_save_path.

(** [WebtoonSaver.run_process_chapter] *)
Definition run_process_chapter (self : WebtoonSaver)
  (chapter_id chapter_url save_path0 : string) : M unit :=
  process_chapter self chapter_id chapter_url save_path0.

(** [run_webtoonsaver]; [mp.Pool] refuses fewer than one worker. *)
Definition run_webtoonsaver (url0 : string) (num_chapters : option Z)
  (chapter_range : option (gmap string (option Z))) (n_workers : Z)
  : M unit :=
  comic_obj <- init url0 None None num_chapters chapter_range ;;
  comic_obj1 <- getChapterURLs comic_obj ;;
  let tasks :=
    map (fun kv => run_process_chapter comic_obj1 (fst kv) (snd kv)
                     (save_path comic_obj1))
      (chapter_urls comic_obj1) in
  let n_workers1 :=
    if n_workers =? -1 then cpu_count E
    else if cpu_count E <? n_workers then cpu_count E else n_workers in
  if n_workers1 <? 1 then raise ValueError
  else gather tasks ;; ret tt.

End Methods.

(** ** Notions the statements use *)

(** No character of [s] is a digit. *)
Fixpoint no_digit (s : string) : bool :=
  match s with
  | EmptyString => true
  | String c s' => negb (Str.is_digit c) && no_digit s'
  end.

(** The pieces are, in turn, a run without a digit and a non-empty run
    of digits; [text_next] tells which kind comes first. *)
Fixpoint runs_alternate (text_next : bool) (pieces : list string) : bool :=
  match pieces with
  | [] => true
  | p :: ps =>
      (if text_next then no_digit p else Str.isdigit p)
      && runs_alternate (negb text_next) ps
  end.

(** The key of alternating runs: a run of digits counts by its value, a
    run without a digit by its text. *)
Fixpoint keys_of_runs (text_next : bool) (pieces : list string)
  : list key_elem :=
  match pieces with
  | [] => []
  | p :: ps =>
      (if text_next then KStr p else KInt (Str.int p))
      :: keys_of_runs (negb text_next) ps
  end.

Definition join (pieces : list string) : string :=
  fold_right String.append EmptyString pieces.

(** [x] does not sort after [y]: the key of [y] is not less than the
    key of [x]. *)
Definition key_le {A} (key : A -> list key_elem) (x y : A) : Prop :=
  keys_lt (key y) (key x) = Ok false.

Definition natural_le : string -> string -> Prop := key_le natural_keys.

(** What [split_runs] has read so far is a run of the kind it says. *)
Definition run_so_far (in_digits : bool) (cur : string) : Prop :=
  if in_digits then Str.isdigit (Str.rev cur) = true
  else no_digit (Str.rev cur) = true.

(** The elements of a key are, in turn, a [str] and an [int]. *)
Fixpoint alternates (text_next : bool) (k : list key_elem) : bool :=
  match k with
  | [] => true
  | KStr _ :: k' => text_next && alternates false k'
  | KInt _ :: k' => negb text_next && alternates true k'
  end.

(** [m] leaves the directory [d] in place when it is there. *)
Definition keeps_dir (d : string) {A} (m : M A) : Prop :=
  forall w, dir_exists d (fs w) = true ->
            dir_exists d (fs (snd (m w))) = true.

(** The image [load_image] hands on: an image with an alpha channel is
    converted. *)
Definition normalized (img : image) : image :=
  if Stdlib.Strings.String.eqb (img_mode img) "RGBA"
  then convert_rgb img else img.

(** The page the bytes of a file contribute, if any. *)
Definition page_of (E : env) (b : bytes) : option image :=
  match decode E b with
  | Opened img => if 500 <? img_height img then Some (normalized img) else None
  | Unidentified => None
  | OpenFailed => None
  end.

(** The world after [body] was fetched from [u] and written to the
    entry [name] of [d]. *)
Definition world_with_download (u d name : string) (body : bytes)
  (w : world) : world :=
  {| fs := add_entry d name body (fs w); net := u :: net w; out := out w |}.

(** A world whose scratch directory for chapter 1 holds one stale file. *)
Definition sample_world_scratch : world :=
  {| fs := {| files := ∅;
              dirs := {["/c/abc/Chapter1_Images/" :=
                          {["images7.jpg" := [Byte.x03]]}]} |};
     net := []; out := [] |}.

(** The sites the constructor knows, in the order it tests them. *)
Definition site_table : list (string * site_rule) :=
  [("webtoonscan.com", webtoonscan_rule); ("manhwa18.cc", manhwa18_rule)].

(** The rules of the entries whose name occurs in the URL. *)
Definition matching_rules (u : string) : list site_rule :=
  map snd (List.filter (fun e => Str.contains (fst e) u) site_table).

(** The world after one more request. *)
Definition world_with_request (u : string) (w : world) : world :=
  {| fs := fs w; net := u :: net w; out := out w |}.

(** The world after one more printed line. *)
Definition world_with_message (m : message) (w : world) : world :=
  {| fs := fs w; net := net w; out := m :: out w |}.

(** The greatest and the least identifier of an index; identifiers are
    read from digits, so none is negative. *)
Definition max_id (keys : list string) : Z :=
  fold_right Z.max 0 (map Str.int keys).

Definition min_id (keys : list string) : Z :=
  match map Str.int keys with
  | [] => 0
  | x :: l => fold_right Z.min x l
  end.

(** The identifiers of the chapters [run_webtoonsaver] goes on to
    process: those of the index its first two calls build. *)
Definition selected_chapters (E : env) (url0 : string)
  (num_chapters : option Z)
  (chapter_range : option (gmap string (option Z))) (w : world)
  : result (list string) :=
  match (comic_obj <- init E url0 None None num_chapters chapter_range ;;
         getChapterURLs E comic_obj) w with
  | (Ok comic_obj, _) => Ok (od_keys (chapter_urls comic_obj))
  | (Raise e, _) => Raise e
  end.

(** A [chapter_range] dictionary. *)
Definition chapter_range_of (start stop : option Z)
  : option (gmap string (option Z)) :=
  Some (<["start" := start]> (<["end" := stop]> ∅)).

(** ** Sample inputs

    A comic of three chapters on a known site.  Chapter 1 has three
    images, the second of which is served with status 404; chapter 2 has
    five images, two of which cannot be fetched; the page of chapter 3
    cannot be fetched. *)

Definition sample_image (h : Z) (mode : string) (b : Byte.byte) : image :=
  {| img_height := h; img_mode := mode; img_raster := [b] |}.

Definition sample_index : string := "https://webtoonscan.com/manhwa/abc/".

Definition sample_chapter (n : string) : string :=
  sample_index +:+ "chapter-" +:+ n +:+ "/".

Definition sample_env : env :=
  {| slugify := fun s => s;
     expanduser := fun s => s;
     page_at := fun u =>
       if Stdlib.Strings.String.eqb u sample_index then Some "index"
       else if Stdlib.Strings.String.eqb u (sample_chapter "1") then Some "ch1"
       else if Stdlib.Strings.String.eqb u (sample_chapter "2") then Some "ch2"
       else if Stdlib.Strings.String.eqb u "https://example.com/comic/one/"
            then Some "other"
       else if Stdlib.Strings.String.eqb u
                 "https://webtoonscan.com/manhwa/none/"
            then Some "none"
       else None;
     find_chapter_links := fun _ text =>
       if Stdlib.Strings.String.eqb text "index"
       then [sample_chapter "3"; sample_chapter "2"; sample_chapter "1"]
       else [];
     find_images := fun _ text =>
       if Stdlib.Strings.String.eqb text "ch1" then ["u1 "; "u2"; "u3"]
       else if Stdlib.Strings.String.eqb text "ch2"
            then ["u1"; "gone1"; "u2"; "gone2"; "u3"]
       else [];
     image_at := fun u =>
       if Stdlib.Strings.String.eqb u "u1" then Response 200 [Byte.x01]
       else if Stdlib.Strings.String.eqb u "u2" then Response 404 [Byte.x02]
       else if Stdlib.Strings.String.eqb u "u3" then Response 200 [Byte.x03]
       else ConnectionFailed;
     decode := fun b =>
       match b with
       | [Byte.x01] => Opened (sample_image 600 "RGBA" Byte.x01)
       | [Byte.x03] => Opened (sample_image 400 "RGB" Byte.x03)
       | [Byte.x04] => OpenFailed
       | _ => Unidentified
       end;
     cpu_count := 4 |}.

Definition sample_self : WebtoonSaver :=
  {| url := sample_index; database := Some webtoonscan_rule;
     comic_name := "abc"; save_path := "/c/abc/";
     chapter_start := None; chapter_end := None; chapter_urls := [] |}.

(** A world with the comic's directory and nothing else. *)
Definition sample_world : world :=
  {| fs := {| files := ∅; dirs := {["/c/abc/" := ∅]} |};
     net := []; out := [] |}.

(** The same world once chapter 1 has its document. *)
Definition sample_world_done : world :=
  {| fs := {| files := {["/c/abc/Chapter-1.pdf" :=
                           Pdf [sample_image 600 "RGB" Byte.x01]]};
              dirs := {["/c/abc/" := ∅]} |};
     net := []; out := [] |}.

(** ** Notions of the further statements *)

(** The body the session gets for an image URL. *)
Definition body_of (E : env) (u : string) : bytes :=
  match image_at E u with
  | Response _ body => body
  | ConnectionFailed => []
  | ReadFailed _ => []
  end.

(** The request for [u] is answered, whatever the status. *)
Definition answered (E : env) (u : string) : Prop :=
  exists st body, image_at E u = Response st body.

(** The world after the images at [urls], the first of which has
    position [k], were fetched and written to [d], one after the other. *)
Fixpoint after_downloads (E : env) (d : string) (k : nat)
  (urls : list string) (w : world) : world :=
  match urls with
  | [] => w
  | u :: urls' =>
      after_downloads E d (S k) urls'
        (world_with_download u d (image_name k) (body_of E u) w)
  end.

(** The world once the scratch directory [d] has been made anew. *)
Definition world_with_scratch (d : string) (w : world) : world :=
  {| fs := {| files := files (fs w); dirs := <[d := ∅]> (dirs (fs w)) |};
     net := net w; out := out w |}.

(** The world a chapter leaves when every step went through: the
    document, when there is a page, the scratch directory gone, the
    requests for the page and for the images. *)
Definition world_after_chapter (pdf d chapter_url : string)
  (urls : list string) (pages : list image) (w : world) : world :=
  {| fs := {| files := match pages with
                       | [] => files (fs w)
                       | _ :: _ => <[pdf := Pdf pages]> (files (fs w))
                       end;
              dirs := delete d (dirs (fs w)) |};
     net := rev urls ++ chapter_url :: net w;
     out := out w |}.

(** [m] keeps the property [P] of the world. *)
Definition preserves (P : world -> Prop) {A} (m : M A) : Prop :=
  forall w, P w -> P (snd (m w)).

(** What [process_chapter] for the document [pdf] and the scratch
    directory [d] may have changed between [w0] and [w]: the file at
    [pdf], the directory [d], and the log of requests, which has only
    grown. *)
Definition touched_only (pdf d : string) (w0 w : world) : Prop :=
  out w = out w0
  /\ (forall p, p <> pdf -> files (fs w) !! p = files (fs w0) !! p)
  /\ (forall d', d' <> d -> dirs (fs w) !! d' = dirs (fs w0) !! d')
  /\ exists l, net w = l ++ net w0.

(** The character [c] does not occur in [s]. *)
Fixpoint no_char (c : ascii) (s : string) : bool :=
  match s with
  | EmptyString => true
  | String x s' => negb (Ascii.eqb x c) && no_char c s'
  end.

(** The URL the constructor keeps: a slash is added for the second
    site. *)
Definition site_url (url0 : string) : string :=
  if Str.contains "webtoonscan.com" url0 then url0
  else if Str.contains "manhwa18.cc" url0 then url0 +:+ "/"
  else url0.

(** The world with another file system. *)
Definition with_fs (f : filesystem) (w : world) : world :=
  {| fs := f; net := net w; out := out w |}.

(** The file system after [os.mkdir name], whether it raised or not. *)
Definition fs_mkdir (name : string) (f : filesystem) : filesystem :=
  if path_exists name f then f else add_dir name f.

(** The file system after [os.makedirs name], whether it raised or not:
    the directories of the head that were missing have been added, then
    [name]. *)
Fixpoint fs_makedirs (fuel : nat) (name : string) (f : filesystem)
  : filesystem :=
  let '(head, tail) := head_tail name in
  match fuel with
  | S fuel' =>
      if Path.nonempty head && Path.nonempty tail && negb (path_exists head f)
      then
        let f1 := fs_makedirs fuel' head f in
        if Stdlib.Strings.String.eqb tail "." then f1 else fs_mkdir name f1
      else fs_mkdir name f
  | O => fs_mkdir name f
  end.

(** The paths above [name]: its head, the head of its head, and so on. *)
Fixpoint ancestors_from (fuel : nat) (name : string) : list string :=
  match fuel with
  | S fuel' =>
      let '(head, tail) := head_tail name in
      if Path.nonempty head && Path.nonempty tail
      then head :: ancestors_from fuel' head
      else []
  | O => []
  end.

Definition ancestors (name : string) : list string :=
  ancestors_from (Stdlib.Strings.String.length name) name.

(** The world once the constructor has seen to the directory [path]:
    the world as it was when the directory was there, else the world
    with the directories [os.makedirs] has made. *)
Definition world_with_dir (path : string) (w : world) : world :=
  if dir_exists path (fs w) then w
  else with_fs (fs_makedirs (Stdlib.Strings.String.length path) path (fs w)) w.

(** The sample site with other chapter links on its index page. *)
Definition sample_env_with_links (links : list string) : env :=
  {| slugify := slugify sample_env;
     expanduser := expanduser sample_env;
     page_at := page_at sample_env;
     find_chapter_links := fun _ _ => links;
     find_images := find_images sample_env;
     image_at := image_at sample_env;
     decode := decode sample_env;
     cpu_count := cpu_count sample_env |}.

(** The number of workers [run_webtoonsaver] hands to the pool. *)
Definition effective_workers (E : env) (n_workers : Z) : Z :=
  if n_workers =? -1 then cpu_count E
  else if cpu_count E <? n_workers then cpu_count E else n_workers.

(** A world in which the three chapters of the sample comic have their
    documents, in the directory the constructor chooses by itself. *)
Definition sample_world_all_done : world :=
  {| fs := {| files :=
                <["~/Desktop/Comics/abc/Chapter-1.pdf" := Pdf []]>
                  (<["~/Desktop/Comics/abc/Chapter-2.pdf" := Pdf []]>
                     {["~/Desktop/Comics/abc/Chapter-3.pdf" := Pdf []]});
              dirs := {["~/Desktop/Comics/abc/" := ∅]} |};
     net := []; out := [] |}.

(** A world before the first run: the root and the home directory are
    there, the directory of the comics is not. *)
Definition sample_world_first_run : world :=
  {| fs := {| files := ∅;
              dirs := <["/" := ∅]> {["/home" := {["notes.txt" := []]}]} |};
     net := []; out := [] |}.

(** The sample site with another second image on the page of chapter 1:
    its request is answered, and [Image.open] fails on the file with an
    error other than [UnidentifiedImageError]. *)
Definition sample_env_unreadable : env :=
  {| slugify := slugify sample_env;
     expanduser := expanduser sample_env;
     page_at := page_at sample_env;
     find_chapter_links := find_chapter_links sample_env;
     find_images := fun _ text =>
       if Stdlib.Strings.String.eqb text "ch1" then ["u1"; "u4"; "u3"]
       else [];
     image_at := fun u =>
       if Stdlib.Strings.String.eqb u "u4" then Response 200 [Byte.x04]
       else image_at sample_env u;
     decode := decode sample_env;
     cpu_count := cpu_count sample_env |}.

(** * Properties *)

(** ** Strings *)

Lemma append_nil_l (s : string) : "" +:+ s = s.
Proof. reflexivity. Qed.

Lemma append_cons (c : ascii) (s t : string) :
  String c s +:+ t = String c (s +:+ t).
Proof. reflexivity. Qed.

Lemma append_empty_r (s : string) : s +:+ "" = s.
Proof.
  induction s as [|c s IH]; [reflexivity |].
  now rewrite append_cons, IH.
Qed.

Lemma append_assoc (a b c : string) : (a +:+ b) +:+ c = a +:+ (b +:+ c).
Proof.
  induction a as [|x a IH]; [reflexivity |].
  now rewrite !append_cons, IH.
Qed.

Lemma rev_acc_append (s acc : string) :
  Str.rev_acc s acc = Str.rev s +:+ acc.
Proof.
  unfold Str.rev. revert acc.
  induction s as [|c s IH]; intros acc; simpl; [reflexivity |].
  rewrite (IH (String c acc)), (IH (String c "")), append_assoc.
  reflexivity.
Qed.

Lemma rev_cons (c : ascii) (s : string) :
  Str.rev (String c s) = Str.rev s +:+ String c "".
Proof. unfold Str.rev at 1. simpl. apply rev_acc_append. Qed.

Lemma all_digits_append (a b : string) :
  Str.all_digits (a +:+ b) = Str.all_digits a && Str.all_digits b.
Proof.
  induction a as [|c a IH]; [reflexivity |].
  rewrite append_cons. simpl. now rewrite IH, andb_assoc.
Qed.

Lemma no_digit_append (a b : string) :
  no_digit (a +:+ b) = no_digit a && no_digit b.
Proof.
  induction a as [|c a IH]; [reflexivity |].
  rewrite append_cons. simpl. now rewrite IH, andb_assoc.
Qed.

Lemma isdigit_snoc (a : string) (c : ascii) :
  Str.all_digits a = true -> Str.is_digit c = true ->
  Str.isdigit (a +:+ String c "") = true.
Proof.
  intros Ha Hc. destruct a as [|x a].
  - rewrite append_nil_l. simpl. now rewrite Hc.
  - rewrite append_cons. simpl in *.
    apply andb_true_iff in Ha as [Hx Ha].
    rewrite Hx, all_digits_append, Ha. simpl. now rewrite Hc.
Qed.

Lemma isdigit_all_digits (s : string) :
  Str.isdigit s = true -> Str.all_digits s = true.
Proof. destruct s; simpl; [discriminate | trivial]. Qed.

Lemma no_digit_not_isdigit (s : string) :
  no_digit s = true -> Str.isdigit s = false.
Proof.
  destruct s as [|c s]; simpl; [reflexivity |].
  intros H. apply andb_true_iff in H as [H _].
  apply negb_true_iff in H. now rewrite H.
Qed.

(** ** The split of a name into runs *)

Lemma join_cons (p : string) (ps : list string) :
  join (p :: ps) = p +:+ join ps.
Proof. reflexivity. Qed.

Lemma split_runs_spec (s : string) :
  forall (cur : string) (in_digits : bool),
    run_so_far in_digits cur ->
    join (Str.split_runs cur in_digits s) = Str.rev cur +:+ s
    /\ runs_alternate (negb in_digits) (Str.split_runs cur in_digits s) = true.
Proof.
  induction s as [|c s IH]; intros cur b Hcur.
  - destruct b; cbn [Str.split_runs negb runs_alternate];
      unfold run_so_far in Hcur; rewrite Hcur; split; reflexivity.
  - cbn [Str.split_runs]. destruct (Str.is_digit c) eqn:Hc.
    + destruct b; unfold run_so_far in Hcur.
      * destruct (IH (String c cur) true) as [Hj Ha].
        { unfold run_so_far. rewrite rev_cons.
          apply isdigit_snoc; [now apply isdigit_all_digits | exact Hc]. }
        split; [| exact Ha].
        rewrite Hj, rev_cons, append_assoc. reflexivity.
      * destruct (IH (String c "") true) as [Hj Ha].
        { unfold run_so_far, Str.rev. simpl. now rewrite Hc. }
        cbn [negb runs_alternate] in *.
        rewrite join_cons, Hj, Hcur, Ha. split; reflexivity.
    + destruct b; unfold run_so_far in Hcur.
      * destruct (IH (String c "") false) as [Hj Ha].
        { unfold run_so_far, Str.rev. simpl. now rewrite Hc. }
        cbn [negb runs_alternate] in *.
        rewrite join_cons, Hj, Hcur, Ha. split; reflexivity.
      * destruct (IH (String c cur) false) as [Hj Ha].
        { unfold run_so_far. rewrite rev_cons, no_digit_append, Hcur.
          simpl. now rewrite Hc. }
        split; [| exact Ha].
        rewrite Hj, rev_cons, append_assoc. reflexivity.
Qed.

Lemma atoi_runs (text_next : bool) (pieces : list string) :
  runs_alternate text_next pieces = true ->
  map atoi pieces = keys_of_runs text_next pieces.
Proof.
  revert text_next.
  induction pieces as [|p ps IH]; intros b H; simpl in *; [reflexivity |].
  apply andb_true_iff in H as [Hp Hps].
  rewrite (IH _ Hps). f_equal.
  unfold atoi. destruct b.
  - now rewrite (no_digit_not_isdigit _ Hp).
  - now rewrite Hp.
Qed.

Lemma re_split_digits_spec (text : string) :
  join (Str.re_split_digits text) = text
  /\ runs_alternate true (Str.re_split_digits text) = true
  /\ natural_keys text = keys_of_runs true (Str.re_split_digits text).
Proof.
  destruct (split_runs_spec text "" false) as [Hj Ha]; [reflexivity |].
  unfold Str.re_split_digits, natural_keys.
  split; [exact Hj |]. split; [exact Ha |].
  now apply atoi_runs.
Qed.

(** ** The order of the keys *)

Lemma keys_of_runs_alternates (text_next : bool) (pieces : list string) :
  alternates text_next (keys_of_runs text_next pieces) = true.
Proof.
  revert text_next.
  induction pieces as [|p ps IH]; intros []; simpl; auto.
Qed.

Lemma natural_keys_alternates (text : string) :
  alternates true (natural_keys text) = true.
Proof.
  destruct (re_split_digits_spec text) as (_ & _ & ->).
  apply keys_of_runs_alternates.
Qed.

(** Two keys that alternate alike are never compared across types. *)
Lemma keys_lt_comparable (a : list key_elem) :
  forall (ph : bool) (b : list key_elem),
    alternates ph a = true -> alternates ph b = true ->
    exists r, keys_lt a b = Ok r.
Proof.
  induction a as [|x a IH]; intros ph b Ha Hb.
  - destruct b; simpl; eauto.
  - destruct b as [|y b]; simpl; [eauto |].
    destruct x as [m|s], y as [n|t], ph; simpl in *; try discriminate.
    + destruct (m =? n); [eapply IH; eauto | eauto].
    + destruct (Stdlib.Strings.String.eqb s t); [eapply IH; eauto | eauto].
Qed.

Lemma string_ltb_leb (s t : string) :
  Stdlib.Strings.String.ltb t s = false <->
  Stdlib.Strings.String.leb s t = true.
Proof.
  unfold Stdlib.Strings.String.ltb, Stdlib.Strings.String.leb.
  rewrite (Stdlib.Strings.String.compare_antisym s t).
  destruct (Stdlib.Strings.String.compare t s); simpl; split; congruence.
Qed.

Lemma string_ltb_irrefl (s : string) : Stdlib.Strings.String.ltb s s = false.
Proof.
  apply string_ltb_leb.
  destruct (Stdlib.Strings.String.leb_total s s); assumption.
Qed.

Lemma string_ltb_asym (s t : string) :
  Stdlib.Strings.String.ltb s t = true ->
  Stdlib.Strings.String.ltb t s = false.
Proof.
  unfold Stdlib.Strings.String.ltb.
  rewrite (Stdlib.Strings.String.compare_antisym s t).
  destruct (Stdlib.Strings.String.compare t s); simpl; congruence.
Qed.

Lemma string_leb_trans (s t u : string) :
  Stdlib.Strings.String.leb s t = true ->
  Stdlib.Strings.String.leb t u = true ->
  Stdlib.Strings.String.leb s u = true.
Proof.
  intros H1 H2.
  assert (Hst : String.le s t) by (unfold String.le; now rewrite H1).
  assert (Htu : String.le t u) by (unfold String.le; now rewrite H2).
  pose proof (transitivity Hst Htu) as H. unfold String.le in H.
  destruct (Stdlib.Strings.String.leb s u); [reflexivity | contradiction].
Qed.

Lemma elem_eqb_sym (x y : key_elem) : elem_eqb x y = elem_eqb y x.
Proof.
  destruct x, y; simpl; auto using Z.eqb_sym, Stdlib.Strings.String.eqb_sym.
Qed.

(** [<] on keys is asymmetric. *)
Lemma keys_lt_asym (a : list key_elem) :
  forall b, keys_lt a b = Ok true -> keys_lt b a = Ok false.
Proof.
  induction a as [|x a IH]; intros [|y b] H; simpl in *;
    try discriminate; try reflexivity.
  rewrite (elem_eqb_sym y x).
  destruct (elem_eqb x y) eqn:Heq; [now apply IH |].
  destruct x as [m|s], y as [n|t]; simpl in *; try discriminate.
  - injection H as H. f_equal. lia.
  - injection H as H. f_equal. now apply string_ltb_asym.
Qed.

(** "Not greater" on keys that alternate alike is transitive. *)
Lemma keys_le_trans (a : list key_elem) :
  forall (ph : bool) (b c : list key_elem),
    alternates ph a = true -> alternates ph b = true ->
    alternates ph c = true ->
    keys_lt b a = Ok false -> keys_lt c b = Ok false ->
    keys_lt c a = Ok false.
Proof.
  induction a as [|x a IH]; intros ph b c Ha Hb Hc H1 H2.
  - destruct c; reflexivity.
  - destruct b as [|y b]; [discriminate |].
    destruct c as [|z c]; [discriminate |].
    simpl in H1, H2 |- *.
    destruct x as [m|s], y as [n|t], z as [k|u], ph;
      simpl in *; try discriminate.
    + destruct (Z.eqb_spec n m), (Z.eqb_spec k n), (Z.eqb_spec k m);
        subst; try lia; eauto.
      * injection H1 as H1. injection H2 as H2. lia.
      * injection H1 as H1. injection H2 as H2. f_equal. lia.
    + destruct (Stdlib.Strings.String.eqb_spec t s),
        (Stdlib.Strings.String.eqb_spec u t),
        (Stdlib.Strings.String.eqb_spec u s);
        subst; try congruence; eauto.
      * injection H1 as H1. injection H2 as H2.
        apply string_ltb_leb in H1, H2.
        exfalso. apply n.
        now apply Stdlib.Strings.String.leb_antisym.
      * injection H1 as H1. injection H2 as H2. f_equal.
        apply string_ltb_leb in H1, H2. apply string_ltb_leb.
        eapply string_leb_trans; eauto.
Qed.

Lemma natural_keys_comparable (x y : string) :
  exists r, keys_lt (natural_keys x) (natural_keys y) = Ok r.
Proof.
  eapply keys_lt_comparable; apply natural_keys_alternates.
Qed.

Lemma natural_le_trans (x y z : string) :
  natural_le x y -> natural_le y z -> natural_le x z.
Proof.
  unfold natural_le, key_le. intros H1 H2.
  eapply (keys_le_trans _ true (natural_keys y));
    eauto using natural_keys_alternates.
Qed.

(** ** The sort *)

Section SortProperties.
Context {A : Type} (key : A -> list key_elem).
Hypothesis comparable : forall x y, exists r, keys_lt (key x) (key y) = Ok r.
Hypothesis le_trans :
  forall x y z, key_le key x y -> key_le key y z -> key_le key x z.

Lemma sort_insert_sorted (x : A) (l : list A) :
  StronglySorted (key_le key) l ->
  exists l', sort_insert key x l = Ok l'
             /\ Permutation (x :: l) l'
             /\ StronglySorted (key_le key) l'.
Proof.
  induction l as [|y l IH]; intros Hs.
  - exists [x]. repeat split; auto. repeat constructor.
  - apply StronglySorted_inv in Hs as [Hl Hy].
    destruct (comparable y x) as [r Hr]. simpl. rewrite Hr. simpl.
    destruct r.
    + destruct (IH Hl) as (l' & -> & Hp & Hs'). simpl.
      exists (y :: l'). split; [reflexivity |]. split.
      * rewrite <- Hp. apply perm_swap.
      * constructor; [exact Hs' |].
        eapply Permutation_Forall; [exact Hp |].
        constructor; [| exact Hy].
        unfold key_le. now apply keys_lt_asym.
    + exists (x :: y :: l). split; [reflexivity |].
      split; [reflexivity |].
      constructor; [now constructor |].
      constructor; [exact Hr |].
      eapply Forall_impl; [exact Hy |].
      intros z Hz. now apply (le_trans x y z).
Qed.

Lemma list_sort_sorted (l : list A) :
  exists l', list_sort key l = Ok l'
             /\ Permutation l l'
             /\ StronglySorted (key_le key) l'.
Proof.
  induction l as [|x l (l1 & H1 & Hp & Hs)].
  - exists []. repeat split; auto. constructor.
  - destruct (sort_insert_sorted x l1 Hs) as (l2 & H2 & Hp2 & Hs2).
    exists l2. simpl. rewrite H1. simpl. split; [exact H2 |].
    split; [| exact Hs2].
    rewrite <- Hp2. now constructor.
Qed.

End SortProperties.


(** ** The file system *)

Lemma dir_exists_add_dir (d : string) (f : filesystem) :
  dir_exists d (add_dir d f) = true.
Proof.
  unfold dir_exists, add_dir. simpl.
  apply bool_decide_eq_true. rewrite lookup_insert_eq. eauto.
Qed.

Lemma dir_exists_remove_dir (d : string) (f : filesystem) :
  dir_exists d (remove_dir d f) = false.
Proof.
  unfold dir_exists, remove_dir. simpl.
  apply bool_decide_eq_false. rewrite lookup_delete_eq.
  intros [x Hx]. discriminate.
Qed.

Lemma dir_exists_add_entry (d d' name : string) (b : bytes) (f : filesystem) :
  dir_exists d (add_entry d' name b f) = dir_exists d f.
Proof.
  unfold dir_exists, add_entry. simpl.
  apply bool_decide_ext. rewrite lookup_alter.
  case_decide; [subst | reflexivity].
  destruct (dirs f !! d); simpl; split; intros [x Hx]; eauto; discriminate.
Qed.

Lemma dir_exists_lookup (d : string) (f : filesystem) :
  dir_exists d f = true <-> exists m, dirs f !! d = Some m.
Proof. unfold dir_exists. rewrite bool_decide_eq_true. reflexivity. Qed.

(** ** Making directories *)

Lemma cut_length (p : string) :
  (Stdlib.Strings.String.length (fst (Path.cut p))
   + Stdlib.Strings.String.length (snd (Path.cut p))
   = Stdlib.Strings.String.length p)%nat.
Proof.
  induction p as [|c p IH]; [reflexivity |].
  cbn [Path.cut]. destruct (Path.cut p) as [head tail]. cbn [fst snd] in IH.
  destruct head as [|a head]; cbn [Path.nonempty].
  - destruct (Path.is_sep c); cbn in *; lia.
  - cbn in *. lia.
Qed.

Lemma rstrip_sep_length (s : string) :
  (Stdlib.Strings.String.length (Path.rstrip_sep s)
   <= Stdlib.Strings.String.length s)%nat.
Proof.
  induction s as [|c s IH]; [reflexivity |].
  cbn [Path.rstrip_sep].
  destruct (Path.is_sep c && negb (Path.nonempty (Path.rstrip_sep s)));
    cbn; lia.
Qed.

Lemma split_length (p : string) :
  (Stdlib.Strings.String.length (fst (Path.split p))
   + Stdlib.Strings.String.length (snd (Path.split p))
   <= Stdlib.Strings.String.length p)%nat.
Proof.
  unfold Path.split. pose proof (cut_length p) as H.
  destruct (Path.cut p) as [head tail]. cbn [fst snd] in *.
  pose proof (rstrip_sep_length head).
  destruct (Path.nonempty head && negb (Path.all_seps head)); lia.
Qed.

Lemma nonempty_length (s : string) :
  Path.nonempty s = true -> (0 < Stdlib.Strings.String.length s)%nat.
Proof. destruct s; [discriminate | cbn; lia]. Qed.

(** The head [os.makedirs] goes on with is shorter than the path. *)
Lemma head_tail_shorter (name head tail : string) :
  head_tail name = (head, tail) ->
  Path.nonempty tail = true ->
  (Stdlib.Strings.String.length head < Stdlib.Strings.String.length name)%nat.
Proof.
  unfold head_tail. pose proof (split_length name) as H1.
  destruct (Path.split name) as [head0 tail0]. cbn [fst snd] in H1.
  destruct (Path.nonempty tail0) eqn:Ht0.
  - intros [= <- <-] _. apply nonempty_length in Ht0. lia.
  - pose proof (split_length head0) as H2. intros Heq Ht.
    rewrite Heq in H2. cbn [fst snd] in H2.
    apply nonempty_length in Ht. lia.
Qed.

Lemma length_0_empty (s : string) :
  (Stdlib.Strings.String.length s <= 0)%nat -> s = ""%string.
Proof. destruct s; [reflexivity | cbn; lia]. Qed.

(** The length of the path is fuel enough for [os.makedirs]: with more
    fuel the call does the same. *)
Lemma makedirs_fuel (n : nat) :
  forall (m : nat) (name : string) (w : world),
    (Stdlib.Strings.String.length name <= n)%nat ->
    (Stdlib.Strings.String.length name <= m)%nat ->
    makedirs_from n name w = makedirs_from m name w.
Proof.
  induction n as [|n IH]; intros m name w Hn Hm.
  - apply length_0_empty in Hn. subst name. destruct m; reflexivity.
  - destruct m as [|m].
    + apply length_0_empty in Hm. subst name. reflexivity.
    + cbn [makedirs_from].
      destruct (head_tail name) as [head tail] eqn:Hht.
      unfold bind at 1 3, os_path_exists.
      destruct (Path.nonempty head && Path.nonempty tail
                && negb (path_exists head (fs w))) eqn:Hc; [| reflexivity].
      apply andb_prop in Hc as [Hc _]. apply andb_prop in Hc as [_ Ht].
      pose proof (head_tail_shorter name head tail Hht Ht).
      unfold bind, pass_file_exists.
      rewrite (IH m head w) by lia. reflexivity.
Qed.

(** So [makedirs] is [os.makedirs] with all the fuel it can use. *)
Lemma makedirs_enough_fuel (n : nat) (name : string) (w : world) :
  (Stdlib.Strings.String.length name <= n)%nat ->
  makedirs_from n name w = makedirs name w.
Proof. intros H. unfold makedirs. now apply makedirs_fuel. Qed.

(** *** What [os.makedirs] leaves *)

Lemma fs_mkdir_files (name : string) (f : filesystem) :
  files (fs_mkdir name f) = files f.
Proof. unfold fs_mkdir. now destruct (path_exists name f). Qed.

Lemma fs_makedirs_files (n : nat) :
  forall (name : string) (f : filesystem),
    files (fs_makedirs n name f) = files f.
Proof.
  induction n as [|n IH]; intros name f; cbn [fs_makedirs];
    destruct (head_tail name) as [head tail]; [apply fs_mkdir_files |].
  destruct (Path.nonempty head && Path.nonempty tail
            && negb (path_exists head f)); [| apply fs_mkdir_files].
  destruct (Stdlib.Strings.String.eqb tail ".");
    [| rewrite fs_mkdir_files]; apply IH.
Qed.

Lemma path_exists_false (name : string) (f : filesystem) :
  path_exists name f = false -> dirs f !! name = None.
Proof.
  unfold path_exists, dir_exists. intros H.
  apply orb_false_elim in H as [_ H].
  apply bool_decide_eq_false in H.
  destruct (dirs f !! name) eqn:Hd; [| reflexivity].
  destruct H. eauto.
Qed.

(** A directory that was there stays as it was. *)
Lemma fs_mkdir_keeps (name d : string) (m : gmap string bytes)
  (f : filesystem) :
  dirs f !! d = Some m -> dirs (fs_mkdir name f) !! d = Some m.
Proof.
  intros Hd. unfold fs_mkdir.
  destruct (path_exists name f) eqn:He; [exact Hd |].
  apply path_exists_false in He. simpl.
  rewrite lookup_insert_ne; [exact Hd | congruence].
Qed.

Lemma fs_makedirs_keeps (n : nat) :
  forall (name d : string) (m : gmap string bytes) (f : filesystem),
    dirs f !! d = Some m -> dirs (fs_makedirs n name f) !! d = Some m.
Proof.
  induction n as [|n IH]; intros name d m f Hd; cbn [fs_makedirs];
    destruct (head_tail name) as [head tail]; [now apply fs_mkdir_keeps |].
  destruct (Path.nonempty head && Path.nonempty tail
            && negb (path_exists head f)); [| now apply fs_mkdir_keeps].
  destruct (Stdlib.Strings.String.eqb tail ".");
    [| apply fs_mkdir_keeps]; now apply IH.
Qed.

(** A directory that was not there and is there now is empty, and it is
    the path or one of the paths above it, none of them longer than the
    path. *)
Lemma fs_mkdir_new (name d : string) (m : gmap string bytes)
  (f : filesystem) :
  dirs f !! d = None -> dirs (fs_mkdir name f) !! d = Some m ->
  m = ∅ /\ d = name.
Proof.
  intros Hd. unfold fs_mkdir.
  destruct (path_exists name f); [congruence |]. simpl.
  intros H. apply lookup_insert_Some in H as [[-> <-] | [_ H]];
    [auto | congruence].
Qed.

Lemma fs_makedirs_new (n : nat) :
  forall (name d : string) (m : gmap string bytes) (f : filesystem),
    dirs f !! d = None -> dirs (fs_makedirs n name f) !! d = Some m ->
    m = ∅
    /\ (d = name \/ d ∈ ancestors_from n name)
    /\ (Stdlib.Strings.String.length d
        <= Stdlib.Strings.String.length name)%nat.
Proof.
  induction n as [|n IH]; intros name d m f Hd; cbn [fs_makedirs ancestors_from];
    destruct (head_tail name) as [head tail] eqn:Hht.
  - intros H. destruct (fs_mkdir_new name d m f Hd H) as [-> ->]. auto.
  - destruct (Path.nonempty head && Path.nonempty tail) eqn:Hc; cbn [andb].
    2: { intros H. destruct (fs_mkdir_new name d m f Hd H) as [-> ->]. auto. }
    apply andb_prop in Hc as [_ Ht].
    pose proof (head_tail_shorter name head tail Hht Ht) as Hlt.
    destruct (negb (path_exists head f)).
    2: { intros H. destruct (fs_mkdir_new name d m f Hd H) as [-> ->]. auto. }
    assert (Hup : forall m',
               dirs (fs_makedirs n head f) !! d = Some m' ->
               m' = ∅
               /\ (d = name \/ d ∈ head :: ancestors_from n head)
               /\ (Stdlib.Strings.String.length d
                   <= Stdlib.Strings.String.length name)%nat).
    { intros m' H. destruct (IH head d m' f Hd H) as (-> & Hin & Hlen).
      split; [reflexivity |]. split; [| lia].
      right. destruct Hin as [-> | Hin]; [left | now right]. }
    destruct (Stdlib.Strings.String.eqb tail "."); [apply Hup |].
    intros H.
    destruct (dirs (fs_makedirs n head f) !! d) as [m'|] eqn:Hd1.
    + rewrite (fs_mkdir_keeps name d m' _ Hd1) in H. injection H as <-.
      now apply Hup.
    + destruct (fs_mkdir_new name d m _ Hd1 H) as [-> ->]. auto.
Qed.

(** Making the head does not make the path. *)
Lemma path_exists_head (n : nat) (name head tail : string) (f : filesystem) :
  head_tail name = (head, tail) ->
  Path.nonempty tail = true ->
  path_exists name (fs_makedirs n head f) = path_exists name f.
Proof.
  intros Hht Ht. pose proof (head_tail_shorter name head tail Hht Ht) as Hlt.
  unfold path_exists, file_exists, dir_exists.
  rewrite fs_makedirs_files. f_equal.
  destruct (dirs f !! name) as [m|] eqn:Hd.
  - now rewrite (fs_makedirs_keeps n head name m f Hd).
  - destruct (dirs (fs_makedirs n head f) !! name) as [m|] eqn:Hd1;
      [| reflexivity].
    destruct (fs_makedirs_new n head name m f Hd Hd1) as (_ & _ & Hlen). lia.
Qed.

Lemma mkdir_spec (name : string) (w : world) :
  mkdir name w
  = (if path_exists name (fs w) then Raise FileExistsError else Ok tt,
     with_fs (fs_mkdir name (fs w)) w).
Proof.
  unfold mkdir, fs_mkdir, update_fs, with_fs.
  destruct (path_exists name (fs w)); [| reflexivity].
  now destruct w.
Qed.

Lemma pass_file_exists_spec (m : M unit) (w : world) (r : result unit)
  (f : filesystem) :
  m w = (r, with_fs f w) ->
  r = Ok tt \/ r = Raise FileExistsError ->
  pass_file_exists m w = (Ok tt, with_fs f w).
Proof.
  intros Hm Hr. unfold pass_file_exists. rewrite Hm.
  destruct Hr as [-> | ->]; reflexivity.
Qed.

(** [os.makedirs] returns or raises [FileExistsError]; it raises only
    when the path was there; what it leaves is [fs_makedirs], also when
    it raises. *)
Lemma makedirs_from_spec (n : nat) :
  forall (name : string) (w : world),
  exists r,
    makedirs_from n name w = (r, with_fs (fs_makedirs n name (fs w)) w)
    /\ (r = Ok tt \/ r = Raise FileExistsError)
    /\ (path_exists name (fs w) = false -> r = Ok tt).
Proof.
  assert (Hleaf : forall name w,
             exists r,
               mkdir name w = (r, with_fs (fs_mkdir name (fs w)) w)
               /\ (r = Ok tt \/ r = Raise FileExistsError)
               /\ (path_exists name (fs w) = false -> r = Ok tt)).
  { intros name w. rewrite mkdir_spec.
    destruct (path_exists name (fs w)); eexists; (split; [reflexivity |]); auto.
    split; [auto | discriminate]. }
  induction n as [|n IH]; intros name w; cbn [makedirs_from fs_makedirs];
    destruct (head_tail name) as [head tail] eqn:Hht; [apply Hleaf |].
  unfold bind at 1, os_path_exists.
  destruct (Path.nonempty head && Path.nonempty tail) eqn:Hc; cbn [andb];
    [| apply Hleaf].
  destruct (path_exists head (fs w)) eqn:Hhead; cbn [negb]; [apply Hleaf |].
  apply andb_prop in Hc as [_ Ht].
  destruct (IH head w) as (r1 & Hrun & Hr1 & _).
  unfold bind. rewrite (pass_file_exists_spec _ w r1 _ Hrun Hr1).
  destruct (Stdlib.Strings.String.eqb tail ".").
  - exists (Ok tt). split; [reflexivity |]. auto.
  - destruct (Hleaf name (with_fs (fs_makedirs n head (fs w)) w))
      as (r & Hmk & Hr & Hok).
    exists r. split; [exact Hmk |]. split; [exact Hr |].
    intros Hne. apply Hok. cbn [fs with_fs].
    now rewrite (path_exists_head n name head tail (fs w) Hht Ht).
Qed.

(** What was there, file or directory, is still there. *)
Lemma path_exists_fs_mkdir (name d : string) (f : filesystem) :
  path_exists d f = true -> path_exists d (fs_mkdir name f) = true.
Proof.
  unfold path_exists, file_exists, dir_exists. rewrite fs_mkdir_files.
  intros H. apply orb_true_iff in H as [H | H]; [now rewrite H |].
  apply bool_decide_eq_true in H as [m Hm].
  rewrite (fs_mkdir_keeps name d m f Hm).
  apply orb_true_iff. right. apply bool_decide_eq_true. eauto.
Qed.

Lemma path_exists_fs_mkdir_self (name : string) (f : filesystem) :
  path_exists name (fs_mkdir name f) = true.
Proof.
  unfold fs_mkdir. destruct (path_exists name f) eqn:He; [exact He |].
  unfold path_exists. rewrite dir_exists_add_dir. apply orb_true_r.
Qed.

(** A path whose last component is not [.] is there afterwards. *)
Lemma fs_makedirs_self (n : nat) (name : string) (f : filesystem) :
  Stdlib.Strings.String.eqb (snd (head_tail name)) "." = false ->
  path_exists name (fs_makedirs n name f) = true.
Proof.
  intros Hdot. destruct n as [|n]; cbn [fs_makedirs];
    destruct (head_tail name) as [head tail]; cbn [snd] in Hdot;
    [apply path_exists_fs_mkdir_self |].
  destruct (Path.nonempty head && Path.nonempty tail
            && negb (path_exists head f)); [| apply path_exists_fs_mkdir_self].
  rewrite Hdot. apply path_exists_fs_mkdir_self.
Qed.

(** When [os.makedirs] has returned for a path whose last component is
    not [.], the path is a directory. *)
Lemma makedirs_from_made (n : nat) (name : string) (w w' : world) :
  makedirs_from n name w = (Ok tt, w') ->
  Stdlib.Strings.String.eqb (snd (head_tail name)) "." = false ->
  dir_exists name (fs w') = true.
Proof.
  assert (Hleaf : forall w0, mkdir name w0 = (Ok tt, w') ->
                             dir_exists name (fs w') = true).
  { intros w0. unfold mkdir, update_fs.
    destruct (path_exists name (fs w0)); [discriminate |].
    intros [= <-]. apply dir_exists_add_dir. }
  destruct n as [|n]; cbn [makedirs_from];
    destruct (head_tail name) as [head tail]; cbn [snd]; [now eauto |].
  unfold bind at 1, os_path_exists.
  destruct (Path.nonempty head && Path.nonempty tail
            && negb (path_exists head (fs w))); [| now eauto].
  intros Hrun Hdot. rewrite Hdot in Hrun. unfold bind in Hrun.
  destruct (pass_file_exists (makedirs_from n head) w) as [[[]|e] w1];
    [now eauto | discriminate].
Qed.

(** Lines 70-71: the directory of the comic is seen to. *)
Lemma ensure_dir (path : string) (w : world) :
  exists r,
    (there <- isdir path ;; when (negb there) (makedirs path)) w
    = (r, world_with_dir path w)
    /\ (r = Ok tt \/ r = Raise FileExistsError)
    /\ (file_exists path (fs w) = false -> r = Ok tt)
    /\ (r = Ok tt ->
        Stdlib.Strings.String.eqb (snd (head_tail path)) "." = false ->
        dir_exists path (fs (world_with_dir path w)) = true).
Proof.
  unfold bind, isdir, when, world_with_dir, makedirs.
  destruct (dir_exists path (fs w)) eqn:Hd; cbn [negb].
  - exists (Ok tt). unfold ret. auto.
  - destruct (makedirs_from_spec (Stdlib.Strings.String.length path) path w)
      as (r & Hrun & Hr & Hok).
    exists r. split; [exact Hrun |]. split; [exact Hr |]. split.
    + intros Hf. apply Hok. unfold path_exists. now rewrite Hf, Hd.
    + intros -> Hdot. exact (makedirs_from_made _ _ _ _ Hrun Hdot).
Qed.

Lemma world_with_dir_quiet (path : string) (w : world) :
  net (world_with_dir path w) = net w /\ out (world_with_dir path w) = out w.
Proof.
  unfold world_with_dir. destruct (dir_exists path (fs w)); auto.
Qed.

Lemma world_with_dir_files (path : string) (w : world) :
  files (fs (world_with_dir path w)) = files (fs w).
Proof.
  unfold world_with_dir. destruct (dir_exists path (fs w)); [reflexivity |].
  apply fs_makedirs_files.
Qed.

(** ** What keeps a directory in place *)

Section KeepsDir.
Context (E : env) (d : string).

Lemma keeps_dir_ret {A} (a : A) : keeps_dir d (ret a).
Proof. intros w H. exact H. Qed.

Lemma keeps_dir_raise {A} (e : exn) : keeps_dir d (@raise A e).
Proof. intros w H. exact H. Qed.

Lemma keeps_dir_lift {A} (r : result A) : keeps_dir d (lift r).
Proof. intros w H. exact H. Qed.

Lemma keeps_dir_bind {A B} (m : M A) (k : A -> M B) :
  keeps_dir d m -> (forall a, keeps_dir d (k a)) -> keeps_dir d (bind m k).
Proof.
  intros Hm Hk w H. unfold bind.
  specialize (Hm w H). destruct (m w) as [[a|e] w']; simpl in *.
  - now apply Hk.
  - exact Hm.
Qed.

Lemma keeps_dir_when (b : bool) (m : M unit) :
  keeps_dir d m -> keeps_dir d (when b m).
Proof. destruct b; simpl; [trivial | intros _; apply keeps_dir_ret]. Qed.

Lemma keeps_dir_log_request (u : string) : keeps_dir d (log_request u).
Proof. intros w H. exact H. Qed.

Lemma keeps_dir_print (m : message) : keeps_dir d (print m).
Proof. intros w H. exact H. Qed.

Lemma keeps_dir_write_file (path : string) (c : content) :
  keeps_dir d (write_file path c).
Proof. intros w H. exact H. Qed.

Lemma keeps_dir_write_entry (d' name : string) (b : bytes) :
  keeps_dir d (write_entry d' name b).
Proof.
  intros w H. unfold write_entry.
  destruct (dirs (fs w) !! d'); simpl; [| exact H].
  now rewrite dir_exists_add_entry.
Qed.

Lemma keeps_dir_read_entry (d' name : string) :
  keeps_dir d (read_entry d' name).
Proof.
  intros w H. unfold read_entry.
  destruct (dirs (fs w) !! d') as [m|]; [destruct (m !! name) |]; exact H.
Qed.

Lemma keeps_dir_listdir (d' : string) : keeps_dir d (listdir d').
Proof.
  intros w H. unfold listdir. destruct (dirs (fs w) !! d'); exact H.
Qed.

Lemma keeps_dir_mapM {A B} (f : A -> M B) (l : list A) :
  (forall a, keeps_dir d (f a)) -> keeps_dir d (mapM f l).
Proof.
  intros Hf. induction l as [|x l IH]; simpl.
  - apply keeps_dir_ret.
  - apply keeps_dir_bind; [apply Hf | intros y].
    apply keeps_dir_bind; [exact IH | intros ys; apply keeps_dir_ret].
Qed.

Lemma keeps_dir_run_all {A} (tasks : list (M A)) :
  Forall (keeps_dir d) tasks ->
  forall w, dir_exists d (fs w) = true ->
            dir_exists d (fs (snd (run_all tasks w))) = true.
Proof.
  induction 1 as [|t ts Ht _ IH]; intros w H; simpl; [exact H |].
  specialize (Ht w H). destruct (t w) as [r w1]. simpl in Ht.
  specialize (IH w1 Ht). destruct (run_all ts w1) as [rs w2]. exact IH.
Qed.

Lemma keeps_dir_gather {A} (tasks : list (M A)) :
  Forall (keeps_dir d) tasks -> keeps_dir d (gather tasks).
Proof.
  intros Ht w H. unfold gather.
  pose proof (keeps_dir_run_all tasks Ht w H) as H'.
  destruct (run_all tasks w) as [rs w']. exact H'.
Qed.

Lemma keeps_dir_requests_get (u : string) : keeps_dir d (requests_get E u).
Proof.
  unfold requests_get.
  apply keeps_dir_bind; [apply keeps_dir_log_request | intros _].
  destruct (page_at E u); [apply keeps_dir_ret | apply keeps_dir_raise].
Qed.

Lemma keeps_dir_get_database (self : WebtoonSaver) :
  keeps_dir d (get_database self).
Proof.
  unfold get_database.
  destruct (database self); [apply keeps_dir_ret | apply keeps_dir_raise].
Qed.

Lemma keeps_dir_download_image (u : string) (idx : nat) (d' : string) :
  keeps_dir d (download_image E u idx d').
Proof.
  unfold download_image, session_get_read.
  apply keeps_dir_bind.
  - apply keeps_dir_bind; [apply keeps_dir_log_request | intros _].
    destruct (image_at E u);
      [apply keeps_dir_ret | apply keeps_dir_raise | apply keeps_dir_raise].
  - intros body.
    apply keeps_dir_bind; [apply keeps_dir_write_entry | intros _].
    apply keeps_dir_ret.
Qed.

Lemma keeps_dir_download_images (urls : list string) (d' : string) :
  keeps_dir d (download_images E urls d').
Proof.
  unfold download_images. apply keeps_dir_gather.
  apply Forall_forall. intros t Ht.
  apply elem_of_lookup_imap in Ht as (i & u & -> & _).
  apply keeps_dir_download_image.
Qed.

Lemma keeps_dir_fetch_images (self : WebtoonSaver)
  (chapter_id chapter_url d' : string) :
  keeps_dir d (fetch_images E self chapter_id chapter_url d').
Proof.
  unfold fetch_images.
  apply keeps_dir_bind; [apply keeps_dir_requests_get | intros text].
  apply keeps_dir_bind; [apply keeps_dir_get_database | intros rule].
  apply keeps_dir_bind; [apply keeps_dir_download_images | intros l].
  apply keeps_dir_when, keeps_dir_print.
Qed.

Lemma keeps_dir_load_image (d' name : string) :
  keeps_dir d (load_image E d' name).
Proof.
  unfold load_image.
  apply keeps_dir_bind; [apply keeps_dir_read_entry | intros b].
  destruct (decode E b) as [img| |];
    [| apply keeps_dir_ret | apply keeps_dir_raise].
  destruct (500 <? img_height img); [| apply keeps_dir_ret].
  destruct (Stdlib.Strings.String.eqb (img_mode img) "RGBA");
    apply keeps_dir_ret.
Qed.

Lemma keeps_dir_load_pages (d' : string) : keeps_dir d (load_pages E d').
Proof.
  unfold load_pages.
  apply keeps_dir_bind; [apply keeps_dir_listdir | intros alist].
  apply keeps_dir_bind; [apply keeps_dir_lift | intros alist1].
  apply keeps_dir_bind; [| intros l; apply keeps_dir_ret].
  apply keeps_dir_mapM. intros name. apply keeps_dir_load_image.
Qed.

Lemma keeps_dir_save_pdf (path : string) (l : list image) :
  keeps_dir d (save_pdf path l).
Proof.
  destruct l; simpl; [apply keeps_dir_ret | apply keeps_dir_write_file].
Qed.

End KeepsDir.

(** ** The chapter pipeline *)

Lemma prepare_scratch_creates (d : string) (w w1 : world) :
  prepare_scratch d w = (Ok tt, w1) -> dir_exists d (fs w1) = true.
Proof.
  unfold prepare_scratch, bind, isdir, when, rmtree, mkdir, update_fs, ret.
  destruct (dir_exists d (fs w)) eqn:Hd.
  - apply dir_exists_lookup in Hd as [m Hm]. rewrite Hm. simpl.
    destruct (path_exists d _); intros H; inversion H; subst; simpl.
    apply dir_exists_add_dir.
  - destruct (path_exists d (fs w)); intros H; inversion H; subst; simpl.
    apply dir_exists_add_dir.
Qed.

Lemma rmtree_removes (d : string) (w : world) :
  dir_exists d (fs w) = true ->
  exists w', rmtree d w = (Ok tt, w') /\ dir_exists d (fs w') = false.
Proof.
  intros H. apply dir_exists_lookup in H as [m Hm].
  unfold rmtree. rewrite Hm. eexists. split; [reflexivity |].
  simpl. apply dir_exists_remove_dir.
Qed.

(** C3.  When the document of a chapter is already at its path,
    [process_chapter] returns at once and leaves the world as it found
    it: no request is logged, nothing is written, nothing is printed.
    In particular a run that starts in the world a first run left, with
    the document in it, adds no request to the network log. *)
Theorem process_chapter_skips_existing (E : env) (self : WebtoonSaver)
  (chapter_id chapter_url save_path0 : string) (w : world) :
  file_exists (pdf_path save_path0 chapter_id) (fs w) = true ->
  process_chapter E self chapter_id chapter_url save_path0 w = (Ok tt, w)
  /\ (forall w0 r,
        process_chapter E self chapter_id chapter_url save_path0 w0 = (r, w) ->
        net (snd (process_chapter E self chapter_id chapter_url save_path0 w))
        = net w).
Proof.
  intros H.
  assert (Hrun : process_chapter E self chapter_id chapter_url save_path0 w
                 = (Ok tt, w)).
  { unfold process_chapter, bind, isfile. rewrite H. reflexivity. }
  split; [exact Hrun |].
  intros w0 r _. now rewrite Hrun.
Qed.

(** The second run of chapter 1 of the sample comic, in the world its
    first run left. *)
Lemma process_chapter_skips_existing_witness :
  let run := process_chapter sample_env sample_self "1"
               (sample_chapter "1") "/c/abc/" in
  let w1 := snd (run sample_world) in
  file_exists (pdf_path "/c/abc/" "1") (fs w1) = true
  /\ run w1 = (Ok tt, w1).
Proof.
  intros run w1.
  assert (H : file_exists (pdf_path "/c/abc/" "1") (fs w1) = true)
    by (vm_compute; reflexivity).
  split; [exact H |].
  exact (proj1 (process_chapter_skips_existing sample_env sample_self "1"
                  (sample_chapter "1") "/c/abc/" w1 H)).
Defined.

(** C2, as the code has it.  Once the scratch directory of a chapter
    without a document has been made, it is gone after [process_chapter]
    exactly when [process_chapter] returns; when a later step raises,
    the exception leaves [process_chapter] and the directory is still
    there. *)
Theorem scratch_removed_unless_raised (E : env) (self : WebtoonSaver)
  (chapter_id chapter_url save_path0 : string) (w w1 : world) :
  file_exists (pdf_path save_path0 chapter_id) (fs w) = false ->
  prepare_scratch (scratch_path save_path0 chapter_id) w = (Ok tt, w1) ->
  forall r w',
    process_chapter E self chapter_id chapter_url save_path0 w = (r, w') ->
    dir_exists (scratch_path save_path0 chapter_id) (fs w')
    = match r with Ok _ => false | Raise _ => true end.
Proof.
  intros Hpdf Hprep r w'.
  pose proof (prepare_scratch_creates _ _ _ Hprep) as Hd1.
  unfold process_chapter.
  set (d := scratch_path save_path0 chapter_id) in *.
  unfold bind at 1. unfold isfile. rewrite Hpdf.
  unfold bind at 1. rewrite Hprep.
  unfold bind at 1.
  pose proof (keeps_dir_fetch_images E d self chapter_id chapter_url d w1 Hd1)
    as Hd2.
  destruct (fetch_images E self chapter_id chapter_url d w1) as [[[]|e] w2];
    simpl in Hd2; [| intros H; inversion H; subst; exact Hd2].
  unfold bind at 1.
  pose proof (keeps_dir_load_pages E d d w2 Hd2) as Hd3.
  destruct (load_pages E d w2) as [[im_list|e] w3];
    simpl in Hd3; [| intros H; inversion H; subst; exact Hd3].
  unfold bind at 1.
  pose proof (keeps_dir_save_pdf d (pdf_path save_path0 chapter_id) im_list
                w3 Hd3) as Hd4.
  destruct (save_pdf (pdf_path save_path0 chapter_id) im_list w3)
    as [[[]|e] w4];
    simpl in Hd4; [| intros H; inversion H; subst; exact Hd4].
  destruct (rmtree_removes d w4 Hd4) as (w5 & Hrm & Hgone).
  rewrite Hrm. intros H; inversion H; subst. exact Hgone.
Qed.

(** Chapter 1 of the sample comic runs to its end and its scratch
    directory is gone. *)
Lemma scratch_removed_unless_raised_witness :
  dir_exists (scratch_path "/c/abc/" "1")
    (fs (snd (process_chapter sample_env sample_self "1"
                (sample_chapter "1") "/c/abc/" sample_world)))
  = false.
Proof.
  refine (scratch_removed_unless_raised sample_env sample_self "1"
            (sample_chapter "1") "/c/abc/" sample_world
            (snd (prepare_scratch (scratch_path "/c/abc/" "1") sample_world))
            _ _ (Ok tt) _ _).
  - vm_compute; reflexivity.
  - vm_compute; reflexivity.
  - vm_compute; reflexivity.
Defined.

(** C2 as stated fails.  The page of chapter 3 of the sample comic
    cannot be fetched: [process_chapter] raises and the scratch
    directory it made is still there.  The same holds for chapter 2,
    where a download fails. *)
Lemma scratch_survives_failure :
  let run3 := process_chapter sample_env sample_self "3"
                (sample_chapter "3") "/c/abc/" sample_world in
  let run2 := process_chapter sample_env sample_self "2"
                (sample_chapter "2") "/c/abc/" sample_world in
  file_exists (pdf_path "/c/abc/" "3") (fs sample_world) = false
  /\ fst run3 = Raise RequestException
  /\ dir_exists (scratch_path "/c/abc/" "3") (fs (snd run3)) = true
  /\ fst run2 = Raise ClientError
  /\ dir_exists (scratch_path "/c/abc/" "2") (fs (snd run2)) = true.
Proof. vm_compute. repeat split; reflexivity. Qed.

(** ** Downloads awaited together *)

Lemma run_all_length {A} (tasks : list (M A)) (w : world) :
  length (fst (run_all tasks w)) = length tasks.
Proof.
  revert w. induction tasks as [|t ts IH]; intros w; simpl; [reflexivity |].
  destruct (t w) as [r w1]. specialize (IH w1).
  destruct (run_all ts w1) as [rs w2]. simpl in *. now rewrite IH.
Qed.

Lemma collect_length {A} (rs : list (result A)) (l : list A) :
  collect rs = Ok l -> length l = length rs.
Proof.
  revert l. induction rs as [|[a|e] rs IH]; intros l H; simpl in *.
  - now inversion H.
  - destruct (collect rs) as [l'|e]; simpl in H; [| discriminate].
    inversion H; subst. simpl. now rewrite (IH l' eq_refl).
  - discriminate.
Qed.

(** What [gather] returns has one value for every task. *)
Lemma gather_length {A} (tasks : list (M A)) (w w' : world) (l : list A) :
  gather tasks w = (Ok l, w') -> length l = length tasks.
Proof.
  unfold gather. pose proof (run_all_length tasks w) as Hlen.
  destruct (run_all tasks w) as [rs w1]. simpl in Hlen.
  intros H. inversion H as [[Hc Hw]].
  rewrite (collect_length _ _ Hc). exact Hlen.
Qed.

Lemma download_images_length (E : env) (urls : list string) (d : string)
  (w w' : world) (l : list nat) :
  download_images E urls d w = (Ok l, w') -> length l = length urls.
Proof.
  unfold download_images. intros H.
  rewrite (gather_length _ _ _ _ H). apply length_imap.
Qed.

(** The test of line 218 never holds: [fetch_images] prints nothing. *)
Lemma fetch_images_never_reports (E : env) (self : WebtoonSaver)
  (chapter_id chapter_url d : string) (w : world) :
  fetch_images E self chapter_id chapter_url d w
  = (text <- requests_get E chapter_url ;;
     rule <- get_database self ;;
     _ <- download_images E
            (map Str.strip_spaces (find_images E (image_class rule) text)) d ;;
     ret tt) w.
Proof.
  unfold fetch_images, bind.
  destruct (requests_get E chapter_url w) as [[text|e] w1]; [| reflexivity].
  destruct (get_database self w1) as [[rule|e] w2]; [| reflexivity].
  destruct (download_images E _ d w2) as [[l|e] w3] eqn:Hd; [| reflexivity].
  rewrite (download_images_length _ _ _ _ _ _ Hd), Nat.eqb_refl.
  reflexivity.
Qed.

Lemma collect_raises {A} (tasks : list (M A)) :
  Exists (fun t => forall w, exists e, fst (t w) = Raise e) tasks ->
  forall w, exists e, collect (fst (run_all tasks w)) = Raise e.
Proof.
  induction tasks as [|t ts IH]; intros Hex w.
  - inversion Hex.
  - simpl. destruct (t w) as [r w1] eqn:Ht.
    destruct (run_all ts w1) as [rs w2] eqn:Hrs. simpl.
    destruct r as [a|e]; [| eauto].
    apply Exists_cons in Hex as [Hex | Hex].
    + destruct (Hex w) as [e He]. rewrite Ht in He. discriminate.
    + destruct (IH Hex w1) as [e He]. rewrite Hrs in He. simpl in He.
      rewrite He. simpl. eauto.
Qed.

Lemma download_image_raises (E : env) (u : string) (idx : nat) (d : string)
  (w : world) :
  (forall st b, image_at E u <> Response st b) ->
  fst (download_image E u idx d w) = Raise ClientError.
Proof.
  intros H. unfold download_image, session_get_read, bind, log_request.
  destruct (image_at E u) as [st b| |st]; simpl; try reflexivity.
  now destruct (H st b).
Qed.

(** One download that fails makes [download_images] raise. *)
Lemma download_images_raises (E : env) (urls : list string) (d : string)
  (i : nat) (u : string) (w : world) :
  urls !! i = Some u ->
  (forall st b, image_at E u <> Response st b) ->
  exists e, fst (download_images E urls d w) = Raise e.
Proof.
  intros Hi Hu. unfold download_images, gather.
  destruct (collect_raises
              (imap (fun idx u => download_image E u idx d) urls)) with (w := w)
    as [e He].
  - apply Exists_exists. exists (download_image E u i d). split.
    + apply (elem_of_lookup_imap_2 (fun idx u => download_image E u idx d)
               urls u i Hi).
    + intros w0. exists ClientError. now apply download_image_raises.
  - exists e. destruct (run_all _ w) as [rs w1]. exact He.
Qed.

(** C1 fails on the code.  Chapter 2 of the sample comic has five image
    URLs; three are answered and two cannot be fetched.
    [process_chapter] raises the exception of the first failed download:
    no page is assembled, no document is written and no count is
    printed. *)
Theorem partial_failure_aborts_chapter :
  let urls := map Str.strip_spaces
                (find_images sample_env (image_class webtoonscan_rule) "ch2") in
  let run := process_chapter sample_env sample_self "2"
               (sample_chapter "2") "/c/abc/" sample_world in
  map (image_at sample_env) urls
  = [Response 200 [Byte.x01]; ConnectionFailed; Response 404 [Byte.x02];
     ConnectionFailed; Response 200 [Byte.x03]]
  /\ fst run = Raise ClientError
  /\ file_exists (pdf_path "/c/abc/" "2") (fs (snd run)) = false
  /\ out (snd run) = [].
Proof. vm_compute. repeat split; reflexivity. Qed.

(** ** One download *)

Lemma lookup_add_entry (d name : string) (b : bytes) (f : filesystem)
  (m : gmap string bytes) :
  dirs f !! d = Some m ->
  dirs (add_entry d name b f) !! d = Some (<[name := b]> m).
Proof.
  intros H. unfold add_entry. simpl.
  rewrite lookup_alter. case_decide; [| congruence]. now rewrite H.
Qed.

Lemma load_image_entry (E : env) (d name : string) (w : world)
  (m : gmap string bytes) (b : bytes) :
  dirs (fs w) !! d = Some m -> m !! name = Some b ->
  load_image E d name w
  = match decode E b with
    | Opened img =>
        if 500 <? img_height img then (Ok (Some (normalized img)), w)
        else (Ok None, w)
    | Unidentified => (Ok None, w)
    | OpenFailed => (Raise OSError, w)
    end.
Proof.
  intros Hd Hn. unfold load_image, bind, read_entry. rewrite Hd, Hn.
  destruct (decode E b) as [img| |]; try reflexivity.
  destruct (500 <? img_height img); [| reflexivity].
  unfold normalized.
  destruct (Stdlib.Strings.String.eqb (img_mode img) "RGBA"); reflexivity.
Qed.

(** C10.  With the scratch directory in place, a request that is
    answered, whatever the status, makes [download_image] write the body
    to [images<idx+1>.jpg] and return [idx]; a body that is not an image
    stays in the directory and is dropped only by [load_image].
    [download_image] raises only when the connection or the read
    failed. *)
Theorem download_image_ignores_status (E : env) (u : string) (idx : nat)
  (d : string) (w : world) :
  dir_exists d (fs w) = true ->
  (forall st body,
      image_at E u = Response st body ->
      let name := "images" +:+ pretty (idx + 1)%nat +:+ ".jpg" in
      let w' := world_with_download u d name body w in
      download_image E u idx d w = (Ok idx, w')
      /\ (exists m, dirs (fs w') !! d = Some m /\ m !! name = Some body)
      /\ (decode E body = Unidentified ->
          load_image E d name w' = (Ok None, w')))
  /\ (forall e w',
        download_image E u idx d w = (Raise e, w') ->
        e = ClientError
        /\ (image_at E u = ConnectionFailed
            \/ exists st, image_at E u = ReadFailed st)).
Proof.
  intros Hd. apply dir_exists_lookup in Hd as [m Hm]. split.
  - intros st body Hu name w'.
    assert (Hm' : dirs (fs w') !! d = Some (<[name := body]> m))
      by (apply lookup_add_entry; exact Hm).
    split; [| split].
    + unfold download_image, session_get_read, bind, log_request, write_entry.
      rewrite Hu. simpl. rewrite Hm. reflexivity.
    + exists (<[name := body]> m). split; [exact Hm' |].
      apply lookup_insert_eq.
    + intros Hdec.
      rewrite (load_image_entry E d name w' _ body Hm'
                 (lookup_insert_eq _ _ _)).
      now rewrite Hdec.
  - intros e w'.
    unfold download_image, session_get_read, bind, log_request, write_entry.
    destruct (image_at E u) as [st body| |st]; simpl.
    + rewrite Hm. simpl. discriminate.
    + intros H; inversion H; subst. split; [reflexivity | now left].
    + intros H; inversion H; subst. split; [reflexivity | right; eauto].
Qed.

(** The second image of chapter 1 of the sample comic is answered with
    status 404 and a body that is no image. *)
Lemma download_image_ignores_status_witness :
  let d := "/c/abc/Chapter1_Images/" in
  let w' := world_with_download "u2" d "images2.jpg" [Byte.x02]
              sample_world_scratch in
  download_image sample_env "u2" 1 d sample_world_scratch = (Ok 1%nat, w')
  /\ load_image sample_env d "images2.jpg" w' = (Ok None, w').
Proof.
  intros d w'.
  assert (Hd : dir_exists d (fs sample_world_scratch) = true)
    by (vm_compute; reflexivity).
  destruct (proj1 (download_image_ignores_status sample_env "u2" 1 d
                     sample_world_scratch Hd) 404 [Byte.x02] eq_refl)
    as (H1 & _ & H2).
  split; [exact H1 | exact (H2 eq_refl)].
Defined.

(** ** The pages of a chapter *)

Lemma mapM_load_image (E : env) (d : string) (w : world)
  (m : gmap string bytes) (names : list string) :
  dirs (fs w) !! d = Some m ->
  (forall name b, m !! name = Some b -> decode E b <> OpenFailed) ->
  Forall (fun n => is_Some (m !! n)) names ->
  mapM (load_image E d) names w
  = (Ok (map (fun n => m !! n ≫= page_of E) names), w).
Proof.
  intros Hd Hdec. induction 1 as [|n names [b Hb] _ IH]; [reflexivity |].
  simpl. unfold bind at 1.
  rewrite (load_image_entry E d n w m b Hd Hb).
  assert (Hp : m !! n ≫= page_of E = page_of E b) by now rewrite Hb.
  rewrite Hp. unfold page_of. specialize (Hdec n b Hb).
  destruct (decode E b) as [img| |]; [| | contradiction].
  - destruct (500 <? img_height img); unfold bind; rewrite IH; reflexivity.
  - unfold bind. rewrite IH. reflexivity.
Qed.

Lemma omap_id_map {A B} (f : A -> option B) (l : list A) :
  omap id (map f l) = omap f l.
Proof.
  induction l as [|x l IH]; [reflexivity |].
  cbn. destruct (f x); cbn; cbn in IH; now rewrite IH.
Qed.

(** A file of the scratch directory gives a page exactly when it opens
    as an image whose height is greater than 500: a file that is no
    image and an image of height 500 or less give no page and raise
    nothing.  When [Image.open] fails on no file with another error,
    the pages [load_pages] returns are those of the [.jpg] files, in
    the order of the sorted names. *)
Lemma load_image_filter (E : env) (d : string) (w : world)
  (m : gmap string bytes) :
  dirs (fs w) !! d = Some m ->
  (forall name b,
      m !! name = Some b ->
      (forall p,
          load_image E d name w = (Ok (Some p), w)
          <-> exists img, decode E b = Opened img
                          /\ 500 < img_height img
                          /\ p = normalized img)
      /\ (decode E b = Unidentified ->
          load_image E d name w = (Ok None, w))
      /\ (forall img, decode E b = Opened img -> img_height img <= 500 ->
                      load_image E d name w = (Ok None, w)))
  /\ ((forall name b, m !! name = Some b -> decode E b <> OpenFailed) ->
      exists names,
        list_sort natural_keys (map fst (map_to_list m)) = Ok names
        /\ load_pages E d w
           = (Ok (omap (fun n => m !! n ≫= page_of E)
                    (List.filter (Str.contains ".jpg") names)), w)).
Proof.
  intros Hd. split.
  - intros name b Hb. rewrite (load_image_entry E d name w m b Hd Hb).
    split; [| split].
    + intros p. split.
      * destruct (decode E b) as [img| |]; try discriminate.
        destruct (500 <? img_height img) eqn:Hh; [| discriminate].
        intros H. inversion H; subst. exists img.
        apply Z.ltb_lt in Hh. auto.
      * intros (img & -> & Hh & ->).
        apply Z.ltb_lt in Hh. now rewrite Hh.
    + intros ->. reflexivity.
    + intros img -> Hh.
      destruct (500 <? img_height img) eqn:Hlt; [| reflexivity].
      apply Z.ltb_lt in Hlt. lia.
  - intros Hdec.
    destruct (list_sort_sorted natural_keys natural_keys_comparable
                natural_le_trans (map fst (map_to_list m)))
      as (names & Hsort & Hperm & _).
    exists names. split; [exact Hsort |].
    unfold load_pages, bind at 1, listdir. rewrite Hd.
    unfold bind at 1, lift. rewrite Hsort.
    unfold bind at 1.
    rewrite (mapM_load_image E d w m _ Hd Hdec).
    + unfold ret. now rewrite omap_id_map.
    + apply Forall_forall. intros n Hn.
      apply list_elem_of_In, filter_In in Hn as [Hn _].
      apply list_elem_of_In in Hn. rewrite <- Hperm in Hn.
      apply list_elem_of_fmap in Hn as ([n' b] & -> & Hnb).
      apply elem_of_map_to_list in Hnb. simpl. eauto.
Qed.

(** ** The chapter index *)

(** C5 fails on the code.  When the index page has no chapter element,
    [getChapterURLs] has requested the page and raises [IndexError] at
    line 103, where it reads the first key of the empty index. *)
Theorem empty_index_raises (E : env) (self : WebtoonSaver) (w : world)
  (text : string) (rule : site_rule) :
  page_at E (url self) = Some text ->
  database self = Some rule ->
  find_chapter_links E (chapter_class rule) text = [] ->
  getChapterURLs E self w
  = (Raise IndexError, world_with_request (url self) w).
Proof.
  intros Hpage Hdb Hlinks.
  unfold getChapterURLs, bind, requests_get, log_request, get_database.
  rewrite Hpage, Hdb. simpl. rewrite Hlinks. reflexivity.
Qed.

(** A comic of the sample site whose index page lists no chapter:
    [getChapterURLs] raises, and so does [run_webtoonsaver]. *)
Lemma empty_index_raises_witness :
  let u := "https://webtoonscan.com/manhwa/none/" in
  let self := {| url := u; database := Some webtoonscan_rule;
                 comic_name := "none"; save_path := "/c/none/";
                 chapter_start := None; chapter_end := None;
                 chapter_urls := [] |} in
  getChapterURLs sample_env self sample_world
  = (Raise IndexError, world_with_request u sample_world)
  /\ fst (run_webtoonsaver sample_env u None default_chapter_range (-1)
            sample_world) = Raise IndexError.
Proof.
  intros u self. split.
  - apply (empty_index_raises sample_env self sample_world "none"
             webtoonscan_rule); reflexivity.
  - vm_compute. reflexivity.
Defined.

Lemma elem_of_missing_ids (first_chapter last_chapter : Z)
  (keys : list string) (i : Z) :
  i ∈ missing_ids first_chapter last_chapter keys
  <-> first_chapter <= i <= last_chapter /\ i ∉ map Str.int keys.
Proof.
  unfold missing_ids.
  rewrite elem_of_difference, !elem_of_list_to_set, elem_of_seqZ.
  split; intros [H1 H2]; (split; [lia | exact H2]).
Qed.

(** C6, as the code has it.  For a non-empty index the count of missing
    chapters is the first key minus the number of keys; when it is
    positive one line is printed, with the identifiers from the last key
    to the first key that are not in the index.  When the first key is
    the greatest identifier and the last key the least, this is
    [max - count] and the interval from the least to the greatest. *)
Theorem missing_report_newest_first (self : WebtoonSaver)
  (d : ordered_dict) (w : world) (k0 kn : string) :
  head (od_keys d) = Some k0 ->
  last (od_keys d) = Some kn ->
  let missing := Str.int k0 - Z.of_nat (length (od_keys d)) in
  let ids := missing_ids (Str.int kn) (Str.int k0) (od_keys d) in
  report_missing self d w
  = (Ok tt,
     if 0 <? missing
     then world_with_message
            (MissingChapters missing (comic_name self) (url self) ids) w
     else w)
  /\ (forall i, i ∈ ids <->
                Str.int kn <= i <= Str.int k0
                /\ i ∉ map Str.int (od_keys d))
  /\ (Str.int k0 = max_id (od_keys d) ->
      Str.int kn = min_id (od_keys d) ->
      missing = max_id (od_keys d) - Z.of_nat (length (od_keys d))
      /\ forall i, i ∈ ids <->
                   min_id (od_keys d) <= i <= max_id (od_keys d)
                   /\ i ∉ map Str.int (od_keys d)).
Proof.
  intros Hhead Hlast missing ids.
  split; [| split].
  - unfold report_missing, bind, lift, index, index_last.
    rewrite <- head_lookup, Hhead, Hlast. simpl.
    fold missing. fold ids.
    destruct (0 <? missing); reflexivity.
  - intros i. apply elem_of_missing_ids.
  - intros Hmax Hmin. split.
    + unfold missing. now rewrite Hmax.
    + intros i. unfold ids. rewrite elem_of_missing_ids, Hmax, Hmin.
      reflexivity.
Qed.

(** An index that lists chapters 5, 2 and 1, the newest first: two
    chapters are missing, 3 and 4. *)
Lemma missing_report_newest_first_witness :
  let d := [("5", "e"); ("2", "b"); ("1", "a")] in
  let ids := missing_ids 1 5 (od_keys d) in
  report_missing sample_self d sample_world
  = (Ok tt,
     world_with_message (MissingChapters 2 "abc" sample_index ids)
       sample_world)
  /\ 2 = max_id (od_keys d) - Z.of_nat (length (od_keys d))
  /\ (forall i, i ∈ ids <-> 1 <= i <= 5 /\ i ∉ [5; 2; 1]).
Proof.
  intros d ids.
  destruct (missing_report_newest_first sample_self d sample_world "5" "1"
              eq_refl eq_refl) as (Hrun & _ & Hmax).
  destruct (Hmax eq_refl eq_refl) as [Hmissing Hids].
  split; [exact Hrun |]. split; [exact Hmissing | exact Hids].
Defined.

(** C6 as stated fails.  An index that lists chapters 1, 2 and 5, the
    oldest first: the greatest identifier minus the count is 2, yet the
    code computes [1 - 3] and prints nothing. *)
Lemma missing_report_oldest_first :
  let d := [("1", "a"); ("2", "b"); ("5", "e")] in
  max_id (od_keys d) - Z.of_nat (length (od_keys d)) = 2
  /\ min_id (od_keys d) = 1
  /\ max_id (od_keys d) = 5
  /\ report_missing sample_self d sample_world = (Ok tt, sample_world).
Proof. vm_compute. repeat split; reflexivity. Qed.

(** ** The range of chapters *)

(** Bounds other than [0] keep the chapters within them, in the order
    of the index. *)
Lemma range_filter_nonzero (start stop : option Z) (d : ordered_dict)
  (kv : string * string) :
  start <> Some 0 -> stop <> Some 0 ->
  In kv (filter_end stop (filter_start start d))
  <-> In kv d
      /\ (forall s, start = Some s -> s <= Str.int (fst kv))
      /\ (forall e, stop = Some e -> Str.int (fst kv) <= e).
Proof.
  intros Hs He. unfold filter_end, filter_start.
  destruct start as [s|], stop as [e|].
  - destruct (Z.eqb_spec s 0); [congruence |].
    destruct (Z.eqb_spec e 0); [congruence |].
    rewrite !filter_In, Z.leb_le, Z.leb_le. split.
    + intros [[H1 H2] H3]. split; [exact H1 |].
      split; intros ? [= <-]; assumption.
    + intros (H1 & H2 & H3). auto.
  - destruct (Z.eqb_spec s 0); [congruence |].
    rewrite filter_In, Z.leb_le. split.
    + intros [H1 H2]. split; [exact H1 |].
      split; [intros ? [= <-]; assumption | discriminate].
    + intros (H1 & H2 & H3). auto.
  - destruct (Z.eqb_spec e 0); [congruence |].
    rewrite filter_In, Z.leb_le. split.
    + intros [H1 H2]. split; [exact H1 |].
      split; [discriminate | intros ? [= <-]; assumption].
    + intros (H1 & H2 & H3). auto.
  - split; [intros H | intros [H _]; exact H].
    split; [exact H |]. split; discriminate.
Qed.

(** The index of a comic of twenty chapters, the newest first. *)
Example range_5_10 :
  let d := map (fun n : nat => (pretty n, "u")) (rev (seq 1 20)) in
  od_keys (filter_end (Some 10) (filter_start (Some 5) d))
  = ["10"; "9"; "8"; "7"; "6"; "5"].
Proof. vm_compute. reflexivity. Qed.

Example range_1_3 :
  let d := map (fun n : nat => (pretty n, "u")) (rev (seq 1 20)) in
  od_keys (filter_end (Some 3) (filter_start (Some 1) d)) = ["3"; "2"; "1"].
Proof. vm_compute. reflexivity. Qed.

Example num_chapters_2_overrides_range :
  selected_chapters sample_env sample_index (Some 2)
    (chapter_range_of (Some 3) (Some 3)) sample_world
  = Ok ["2"; "1"].
Proof. vm_compute. reflexivity. Qed.

(** C7 fails on the code.  A bound of [0] is taken for no bound:
    [filter_end] with [end = 0] keeps every chapter, where the claim
    keeps those with an identifier of at most 0.  So
    [chapter_range = {"start": None, "end": 0}] and [num_chapters = 0]
    both select the three chapters of the sample comic. *)
Theorem zero_bound_is_no_bound :
  (forall d, filter_end (Some 0) d = d)
  /\ selected_chapters sample_env sample_index None
       (chapter_range_of None (Some 0)) sample_world
     = Ok ["3"; "2"; "1"]
  /\ selected_chapters sample_env sample_index (Some 0)
       default_chapter_range sample_world
     = Ok ["3"; "2"; "1"].
Proof.
  split; [reflexivity |].
  split; vm_compute; reflexivity.
Qed.

(** ** The constructor *)

Lemma matching_rules_head (u : string) :
  head (matching_rules u)
  = if Str.contains "webtoonscan.com" u then Some webtoonscan_rule
    else if Str.contains "manhwa18.cc" u then Some manhwa18_rule
    else None.
Proof.
  unfold matching_rules, site_table. simpl.
  destruct (Str.contains "webtoonscan.com" u);
    destruct (Str.contains "manhwa18.cc" u); reflexivity.
Qed.


Lemma init_unfold (E : env) (url0 : string) (name save_path0 : option string)
  (num_chapters : option Z)
  (chapter_range : option (gmap string (option Z))) :
  init E url0 name save_path0 num_chapters chapter_range
  = (name1 <- match name with
              | Some n => ret n
              | None => lift (index (rsplit "/" 2 (site_url url0)) 1)
              end ;;
     let path := comic_save_path E save_path0 (slugify E name1) in
     there <- isdir path ;;
     when (negb there) (makedirs path) ;;
     start <- range_get chapter_range "start" ;;
     stop <- range_get chapter_range "end" ;;
     ret {| url := site_url url0;
            database := head (matching_rules url0);
            comic_name := slugify E name1;
            save_path := path;
            chapter_start := match num_chapters with
                             | Some _ => Some 1
                             | None => start
                             end;
            chapter_end := match num_chapters with
                           | Some n => Some n
                           | None => stop
                           end;
            chapter_urls := [] |}).
Proof.
  unfold init, site_url. rewrite matching_rules_head.
  destruct (Str.contains "webtoonscan.com" url0);
    [| destruct (Str.contains "manhwa18.cc" url0)];
    destruct num_chapters; reflexivity.
Qed.

(** The constructor, step by step: the name is taken, the directory is
    seen to, the range is read. *)
Lemma init_run (E : env) (url0 : string) (name save_path0 : option string)
  (num_chapters : option Z)
  (chapter_range : option (gmap string (option Z))) (w : world) :
  (exists e,
      name = None
      /\ index (rsplit "/" 2 (site_url url0)) 1 = Raise e
      /\ init E url0 name save_path0 num_chapters chapter_range w
         = (Raise e, w))
  \/ (exists name1 r,
        match name with
        | Some n => n = name1
        | None => index (rsplit "/" 2 (site_url url0)) 1 = Ok name1
        end
        /\ let path := comic_save_path E save_path0 (slugify E name1) in
           (r = Ok tt \/ r = Raise FileExistsError)
           /\ (file_exists path (fs w) = false -> r = Ok tt)
           /\ (r = Ok tt ->
               Stdlib.Strings.String.eqb (snd (head_tail path)) "." = false ->
               dir_exists path (fs (world_with_dir path w)) = true)
           /\ init E url0 name save_path0 num_chapters chapter_range w
              = (match r with
                 | Raise e => Raise e
                 | Ok _ =>
                     match chapter_range with
                     | None => Raise TypeError
                     | Some dict =>
                         match dict !! "start", dict !! "end" with
                         | Some start, Some stop =>
                             Ok {| url := site_url url0;
                                   database := head (matching_rules url0);
                                   comic_name := slugify E name1;
                                   save_path := path;
                                   chapter_start :=
                                     match num_chapters with
                                     | Some _ => Some 1
                                     | None => start
                                     end;
                                   chapter_end :=
                                     match num_chapters with
                                     | Some n => Some n
                                     | None => stop
                                     end;
                                   chapter_urls := [] |}
                         | _, _ => Raise KeyError
                         end
                     end
                 end, world_with_dir path w)).
Proof.
  assert (Hname : (exists e,
                      name = None
                      /\ index (rsplit "/" 2 (site_url url0)) 1 = Raise e)
                  \/ exists name1,
                      match name with
                      | Some n => n = name1
                      | None => index (rsplit "/" 2 (site_url url0)) 1 = Ok name1
                      end).
  { destruct name as [n|]; [right; eauto |].
    destruct (index (rsplit "/" 2 (site_url url0)) 1) as [n|e]; eauto. }
  destruct Hname as [(e & -> & He) | (name1 & Hname)].
  - left. exists e. rewrite init_unfold. unfold bind at 1, lift.
    rewrite He. auto.
  - right. rewrite init_unfold. unfold bind at 1.
    assert (Hrun : (match name with
                    | Some n => ret n
                    | None => lift (index (rsplit "/" 2 (site_url url0)) 1)
                    end) w = (Ok name1, w)).
    { destruct name as [n|]; [now subst |]. unfold lift. now rewrite Hname. }
    rewrite Hrun. cbv zeta.
    set (path := comic_save_path E save_path0 (slugify E name1)).
    destruct (ensure_dir path w) as (r & Hens & Hr & Hok & Hmade).
    exists name1, r. split; [exact Hname |].
    split; [exact Hr |]. split; [exact Hok |]. split; [exact Hmade |].
    change (bind (isdir path)
              (fun there =>
                 bind (when (negb there) (makedirs path))
                   (fun _ => ?k)) w)
      with (bind (bind (isdir path)
                    (fun there => when (negb there) (makedirs path)))
              (fun _ => k) w).
    unfold bind at 1. rewrite Hens.
    destruct Hr as [-> | ->]; [| reflexivity].
    unfold bind, range_get, ret, raise.
    destruct chapter_range as [dict|]; [| reflexivity].
    destruct (dict !! "start") as [start|]; [| reflexivity].
    destruct (dict !! "end") as [stop|]; reflexivity.
Qed.

(** The constructor sends no request and prints nothing. *)
Lemma init_quiet (E : env) (url0 : string) (name save_path0 : option string)
  (num_chapters : option Z)
  (chapter_range : option (gmap string (option Z)))
  (w w' : world) (r : result WebtoonSaver) :
  init E url0 name save_path0 num_chapters chapter_range w = (r, w') ->
  net w' = net w /\ out w' = out w.
Proof.
  destruct (init_run E url0 name save_path0 num_chapters chapter_range w)
    as [(e & _ & _ & ->) | (name1 & r1 & _ & _ & _ & _ & ->)];
    intros [= _ <-]; [auto | apply world_with_dir_quiet].
Qed.







(** * Further properties *)
(** ** Decimal numerals *)

Lemma int_acc_append (a b : string) (acc : Z) :
  Str.int_acc acc (a +:+ b) = Str.int_acc (Str.int_acc acc a) b.
Proof.
  revert acc. induction a as [|c a IH]; intros acc; [reflexivity |].
  rewrite append_cons. simpl. apply IH.
Qed.

Lemma pretty_N_go_append (x : N) (s : string) :
  pretty_N_go x s = pretty_N_go x "" +:+ s.
Proof.
  revert s. induction (N.lt_wf_0 x) as [x _ IH]; intros s.
  destruct (N.eq_dec x 0%N) as [-> | Hx].
  - now rewrite !pretty_N_go_0.
  - assert (Hpos : (0 < x)%N) by lia.
    assert (Hlt : (x `div` 10 < x)%N) by (apply N.div_lt; lia).
    rewrite (pretty_N_go_step x s), (pretty_N_go_step x "") by exact Hpos.
    rewrite (IH _ Hlt (String _ s)), (IH _ Hlt (String _ "")).
    now rewrite append_assoc.
Qed.

Lemma pretty_N_char_digit (x : N) :
  (x < 10)%N ->
  Str.is_digit (pretty_N_char x) = true
  /\ Str.digit_value (pretty_N_char x) = Z.of_N x.
Proof.
  intros H.
  assert (Hc : (x = 0 \/ x = 1 \/ x = 2 \/ x = 3 \/ x = 4 \/ x = 5 \/ x = 6
                \/ x = 7 \/ x = 8 \/ x = 9)%N) by lia.
  repeat (destruct Hc as [-> | Hc]; [split; reflexivity |]).
  subst. split; reflexivity.
Qed.

Lemma pretty_N_go_digits (x : N) :
  Str.all_digits (pretty_N_go x "") = true
  /\ Str.int (pretty_N_go x "") = Z.of_N x
  /\ (x <> 0%N -> pretty_N_go x "" <> "").
Proof.
  induction (N.lt_wf_0 x) as [x _ IH].
  destruct (N.eq_dec x 0%N) as [-> | Hx].
  - rewrite pretty_N_go_0. repeat split; auto.
  - assert (Hpos : (0 < x)%N) by lia.
    rewrite pretty_N_go_step, pretty_N_go_append by exact Hpos.
    destruct (IH (x `div` 10)%N) as (Hd & Hi & _); [apply N.div_lt; lia |].
    destruct (pretty_N_char_digit (x `mod` 10)%N) as [Hc Hv];
      [apply N.mod_lt; lia |].
    split; [| split].
    + rewrite all_digits_append, Hd. simpl. now rewrite Hc.
    + unfold Str.int in *. rewrite int_acc_append, Hi. simpl. rewrite Hv.
      pose proof (N.div_mod x 10). lia.
    + intros _. destruct (pretty_N_go (x `div` 10) ""); discriminate.
Qed.

(** [int(str(n))] is [n]: the numeral of [n] is made of digits and reads
    back as [n]. *)
Lemma int_of_pretty (n : nat) :
  Str.isdigit (pretty n) = true /\ Str.int (pretty n) = Z.of_nat n.
Proof.
  unfold pretty, pretty_nat, pretty, pretty_N.
  destruct (decide (N.of_nat n = 0%N)) as [H0 | Hn].
  - replace n with 0%nat by lia. split; reflexivity.
  - destruct (pretty_N_go_digits (N.of_nat n)) as (Hd & Hi & Hne).
    split.
    + specialize (Hne Hn).
      destruct (pretty_N_go (N.of_nat n) "") eqn:Hp; [congruence | exact Hd].
    + rewrite Hi. lia.
Qed.

(** ** The names of the downloads *)

Lemma rev_append (a b : string) :
  Str.rev (a +:+ b) = Str.rev b +:+ Str.rev a.
Proof.
  induction a as [|c a IH].
  - now rewrite append_nil_l, append_empty_r.
  - now rewrite append_cons, !rev_cons, IH, append_assoc.
Qed.

Lemma rev_involutive (s : string) : Str.rev (Str.rev s) = s.
Proof.
  induction s as [|c s IH]; [reflexivity |].
  rewrite rev_cons, rev_append, IH. reflexivity.
Qed.

Lemma rev_rev_acc (s acc : string) :
  Str.rev (Str.rev_acc s acc) = Str.rev acc +:+ s.
Proof. now rewrite rev_acc_append, rev_append, rev_involutive. Qed.

Lemma split_runs_text (t : string) :
  forall cur rest,
    no_digit t = true ->
    Str.split_runs cur false (t +:+ rest)
    = Str.split_runs (Str.rev_acc t cur) false rest.
Proof.
  induction t as [|c t IH]; intros cur rest H; [reflexivity |].
  simpl in H. apply andb_true_iff in H as [Hc Ht].
  apply negb_true_iff in Hc.
  rewrite append_cons. cbn [Str.split_runs Str.rev_acc]. rewrite Hc.
  now apply IH.
Qed.

Lemma split_runs_digits (ds : string) :
  forall cur rest,
    Str.all_digits ds = true ->
    Str.split_runs cur true (ds +:+ rest)
    = Str.split_runs (Str.rev_acc ds cur) true rest.
Proof.
  induction ds as [|c ds IH]; intros cur rest H; [reflexivity |].
  simpl in H. apply andb_true_iff in H as [Hc Hd].
  rewrite append_cons. cbn [Str.split_runs Str.rev_acc]. rewrite Hc.
  now apply IH.
Qed.

Lemma split_runs_last_text (t cur : string) :
  no_digit t = true ->
  Str.split_runs cur false t = [Str.rev cur +:+ t].
Proof.
  intros H. rewrite <- (append_empty_r t) at 1.
  rewrite (split_runs_text t cur "" H). cbn [Str.split_runs].
  now rewrite rev_rev_acc.
Qed.

Lemma split_runs_after_digits (t cur : string) :
  no_digit t = true ->
  Str.split_runs cur true t = [Str.rev cur; t].
Proof.
  intros H. destruct t as [|c t]; [reflexivity |].
  simpl in H. apply andb_true_iff in H as [Hc Ht].
  apply negb_true_iff in Hc.
  cbn [Str.split_runs]. rewrite Hc.
  rewrite (split_runs_last_text t _ Ht). reflexivity.
Qed.

(** A name with one number in it splits into three runs. *)
Lemma re_split_one_number (t ds t' : string) :
  no_digit t = true -> Str.isdigit ds = true -> no_digit t' = true ->
  Str.re_split_digits (t +:+ ds +:+ t') = [t; ds; t'].
Proof.
  intros Ht Hds Ht'. unfold Str.re_split_digits.
  rewrite (split_runs_text t "" _ Ht).
  destruct ds as [|c ds]; [discriminate |].
  simpl in Hds. apply andb_true_iff in Hds as [Hc Hd].
  rewrite append_cons. cbn [Str.split_runs]. rewrite Hc.
  rewrite (split_runs_digits ds _ t' Hd).
  rewrite (split_runs_after_digits t' _ Ht').
  rewrite !rev_rev_acc. reflexivity.
Qed.

Lemma natural_keys_one_number (t ds t' : string) :
  no_digit t = true -> Str.isdigit ds = true -> no_digit t' = true ->
  natural_keys (t +:+ ds +:+ t') = [KStr t; KInt (Str.int ds); KStr t'].
Proof.
  intros Ht Hds Ht'. unfold natural_keys.
  rewrite (re_split_one_number t ds t' Ht Hds Ht'). simpl.
  unfold atoi.
  now rewrite (no_digit_not_isdigit t Ht), Hds, (no_digit_not_isdigit t' Ht').
Qed.

Lemma image_name_key (idx : nat) :
  natural_keys (image_name idx)
  = [KStr "images"; KInt (Z.of_nat (idx + 1)); KStr ".jpg"].
Proof.
  unfold image_name.
  destruct (int_of_pretty (idx + 1)) as [Hd Hi].
  rewrite (natural_keys_one_number "images" _ ".jpg" eq_refl Hd eq_refl).
  now rewrite Hi.
Qed.

Lemma image_name_inj (i j : nat) : image_name i = image_name j -> i = j.
Proof.
  intros H. apply (f_equal natural_keys) in H.
  rewrite !image_name_key in H. injection H as H. lia.
Qed.

Lemma image_name_lt (i j : nat) :
  keys_lt (natural_keys (image_name i)) (natural_keys (image_name j))
  = Ok (i <? j)%nat.
Proof.
  rewrite !image_name_key. simpl.
  destruct (Z.eqb_spec (Z.of_nat (i + 1)) (Z.of_nat (j + 1))) as [He | Hne].
  - assert (i = j) by lia. subst. now rewrite Nat.ltb_irrefl.
  - f_equal.
    destruct (Z.ltb_spec (Z.of_nat (i + 1)) (Z.of_nat (j + 1)));
      destruct (Nat.ltb_spec i j); auto; lia.
Qed.

Lemma image_name_le (i j : nat) :
  natural_le (image_name i) (image_name j) <-> (i <= j)%nat.
Proof.
  unfold natural_le, key_le. rewrite image_name_lt. split.
  - intros [= H]. now apply Nat.ltb_ge in H.
  - intros H. f_equal. now apply Nat.ltb_ge.
Qed.

(** X1.  The names of the downloads sort in the order of their
    positions: [images<i+1>.jpg] is before [images<j+1>.jpg] in natural
    order exactly when [i < j] (so [images2.jpg] is before
    [images10.jpg]), and two positions never share a name. *)
Theorem image_names_sort_by_position (i j : nat) :
  keys_lt (natural_keys (image_name i)) (natural_keys (image_name j))
  = Ok (i <? j)%nat
  /\ (natural_le (image_name i) (image_name j) <-> (i <= j)%nat)
  /\ (image_name i = image_name j -> i = j).
Proof.
  split; [apply image_name_lt |].
  split; [apply image_name_le | apply image_name_inj].
Qed.

(** [images2.jpg] is before [images10.jpg]. *)
Lemma image_names_sort_by_position_witness :
  natural_le "images2.jpg" "images10.jpg"
  /\ keys_lt (natural_keys "images10.jpg") (natural_keys "images2.jpg")
     = Ok false.
Proof.
  split.
  - apply (proj2 (proj1 (proj2 (image_names_sort_by_position 1 9)))). lia.
  - exact (proj1 (image_names_sort_by_position 9 1)).
Defined.

(** ** All downloads answered *)

Lemma collect_Ok {A} (l : list A) : collect (map Ok l) = Ok l.
Proof.
  induction l as [|x l IH]; [reflexivity |]. simpl. now rewrite IH.
Qed.

Lemma download_image_answered (E : env) (u : string) (idx : nat)
  (d : string) (w : world) :
  dir_exists d (fs w) = true -> answered E u ->
  download_image E u idx d w
  = (Ok idx, world_with_download u d (image_name idx) (body_of E u) w).
Proof.
  intros Hd (st & body & Hu). apply dir_exists_lookup in Hd as [m Hm].
  unfold download_image, session_get_read, bind, log_request, write_entry,
    body_of.
  rewrite Hu. simpl. rewrite Hm. reflexivity.
Qed.

Lemma dir_exists_world_with_download (d d' u name : string) (b : bytes)
  (w : world) :
  dir_exists d (fs (world_with_download u d' name b w)) = dir_exists d (fs w).
Proof. apply dir_exists_add_entry. Qed.

Lemma run_all_downloads (E : env) (d : string) (urls : list string) :
  forall (k : nat) (w : world),
    dir_exists d (fs w) = true ->
    Forall (answered E) urls ->
    run_all (imap (fun idx u => download_image E u (k + idx) d) urls) w
    = (map Ok (seq k (length urls)), after_downloads E d k urls w).
Proof.
  induction urls as [|u urls IH]; intros k w Hd Hall; [reflexivity |].
  apply Forall_cons in Hall as [Hu Hall].
  rewrite imap_cons. cbn [run_all].
  rewrite Nat.add_0_r, (download_image_answered E u k d w Hd Hu).
  rewrite (imap_ext _ (fun idx u0 => download_image E u0 (S k + idx) d)).
  2: { intros i x _. simpl. f_equal. lia. }
  rewrite (IH (S k)); [reflexivity | | exact Hall].
  now rewrite dir_exists_world_with_download.
Qed.

Lemma download_images_answered (E : env) (urls : list string)
  (d : string) (w : world) :
  dir_exists d (fs w) = true ->
  Forall (answered E) urls ->
  download_images E urls d w
  = (Ok (seq 0 (length urls)), after_downloads E d 0 urls w).
Proof.
  intros Hd Hall. unfold download_images, gather.
  change (fun (idx : nat) (u : string) => download_image E u idx d)
    with (fun (idx : nat) (u : string) => download_image E u (0 + idx) d).
  rewrite (run_all_downloads E d urls 0 w Hd Hall).
  now rewrite collect_Ok.
Qed.

Lemma after_downloads_spec (E : env) (d : string) (urls : list string) :
  forall (k : nat) (w : world) (m : gmap string bytes),
    dirs (fs w) !! d = Some m ->
    exists m',
      fs (after_downloads E d k urls w)
      = {| files := files (fs w); dirs := <[d := m']> (dirs (fs w)) |}
      /\ net (after_downloads E d k urls w) = rev urls ++ net w
      /\ out (after_downloads E d k urls w) = out w
      /\ forall name b,
          m' !! name = Some b
          <-> (exists i u, urls !! i = Some u
                           /\ name = image_name (k + i)
                           /\ b = body_of E u)
              \/ ((forall i, (i < length urls)%nat ->
                             name <> image_name (k + i))
                  /\ m !! name = Some b).
Proof.
  induction urls as [|u urls IH]; intros k w m Hm.
  - exists m. simpl. split; [| split; [reflexivity | split; [reflexivity |]]].
    + rewrite (insert_id _ _ _ Hm). now destruct (fs w).
    + intros name b. split.
      * intros H. right. split; [intros i Hi; simpl in Hi; lia | exact H].
      * intros [(i & u & Hi & _) | [_ H]]; [discriminate | exact H].
  - set (w1 := world_with_download u d (image_name k) (body_of E u) w).
    assert (Hm1 : dirs (fs w1) !! d
                  = Some (<[image_name k := body_of E u]> m))
      by (apply lookup_add_entry; exact Hm).
    destruct (IH (S k) w1 _ Hm1) as (m' & Hfs & Hnet & Hout & Hlook).
    exists m'. cbn [after_downloads]. fold w1.
    split; [| split; [| split; [exact Hout |]]].
    + rewrite Hfs. unfold w1, world_with_download, add_entry. simpl.
      f_equal. apply insert_alter_eq.
    + rewrite Hnet. simpl. now rewrite <- app_assoc.
    + intros name b. rewrite Hlook. split.
      * intros [(i & u' & Hi & -> & ->) | [Hne H]].
        -- left. exists (S i), u'. split; [exact Hi |].
           split; [f_equal; lia | reflexivity].
        -- apply lookup_insert_Some in H as [[<- <-] | [Hk H]].
           ++ left. exists 0%nat, u. split; [reflexivity |].
              split; [f_equal; lia | reflexivity].
           ++ right. split; [| exact H].
              intros [|i] Hi.
              ** rewrite Nat.add_0_r. congruence.
              ** replace (k + S i)%nat with (S k + i)%nat by lia.
                 apply Hne. simpl in Hi. lia.
      * intros [(i & u' & Hi & -> & ->) | [Hne H]].
        -- destruct i as [|i].
           ++ injection Hi as ->. right. rewrite Nat.add_0_r. split.
              ** intros i _ Heq. apply image_name_inj in Heq. lia.
              ** apply lookup_insert_eq.
           ++ left. exists i, u'. split; [exact Hi |].
              split; [f_equal; lia | reflexivity].
        -- right. split.
           ++ intros i Hi.
              replace (S k + i)%nat with (k + S i)%nat by lia.
              apply Hne. simpl. lia.
           ++ rewrite lookup_insert_ne; [exact H |].
              specialize (Hne 0%nat). rewrite Nat.add_0_r in Hne.
              intros Heq. apply Hne; [simpl; lia | congruence].
Qed.

(** ** A chapter whose downloads are all answered *)

Lemma prepare_scratch_fresh (d : string) (w : world) :
  file_exists d (fs w) = false ->
  prepare_scratch d w = (Ok tt, world_with_scratch d w).
Proof.
  intros Hf.
  unfold prepare_scratch, bind, isdir, when, rmtree, mkdir, update_fs, ret,
    path_exists, world_with_scratch.
  destruct (dir_exists d (fs w)) eqn:Hd.
  - apply dir_exists_lookup in Hd as [m Hm]. rewrite Hm. simpl.
    rewrite dir_exists_remove_dir.
    unfold file_exists in *. simpl. rewrite Hf. simpl.
    unfold add_dir. simpl. now rewrite insert_delete_eq.
  - rewrite Hf, Hd. reflexivity.
Qed.

Lemma prefixb_append (t r : string) : Str.prefixb t (t +:+ r) = true.
Proof.
  induction t as [|c t IH]; [reflexivity |].
  rewrite append_cons. simpl. now rewrite Ascii.eqb_refl, IH.
Qed.

Lemma contains_prefix (t s : string) :
  Str.prefixb t s = true -> Str.contains t s = true.
Proof. intros H. destruct s; simpl; now rewrite H. Qed.

Lemma contains_append (s t r : string) :
  Str.contains t (s +:+ t +:+ r) = true.
Proof.
  induction s as [|c s IH].
  - rewrite append_nil_l. apply contains_prefix, prefixb_append.
  - rewrite append_cons. simpl. rewrite IH. apply orb_true_r.
Qed.

Lemma image_name_jpg (idx : nat) : Str.contains ".jpg" (image_name idx) = true.
Proof.
  unfold image_name.
  rewrite <- (append_empty_r ".jpg") at 2.
  rewrite <- append_assoc. apply contains_append.
Qed.

Lemma filter_all {A} (f : A -> bool) (l : list A) :
  Forall (fun x => f x = true) l -> List.filter f l = l.
Proof.
  induction 1 as [|x l Hx _ IH]; [reflexivity |].
  simpl. now rewrite Hx, IH.
Qed.

Lemma image_names_sorted (k n : nat) :
  StronglySorted natural_le (map image_name (seq k n)).
Proof.
  revert k. induction n as [|n IH]; intros k; simpl; constructor.
  - apply IH.
  - apply Forall_forall. intros x Hx.
    apply list_elem_of_In, in_map_iff in Hx as (j & <- & Hj).
    apply in_seq in Hj. apply image_name_le. lia.
Qed.

Lemma map_seq_lookup {A B} (f : nat -> B) (g : A -> B) (l : list A) :
  forall k,
    (forall i x, l !! i = Some x -> f (k + i)%nat = g x) ->
    map f (seq k (length l)) = map g l.
Proof.
  induction l as [|x l IH]; intros k H; [reflexivity |].
  simpl. f_equal.
  - rewrite <- (H 0%nat x eq_refl). f_equal. lia.
  - apply IH. intros i y Hi.
    rewrite <- (H (S i) y Hi). f_equal. lia.
Qed.

(** The listing of a fresh scratch directory after the downloads, once
    sorted, is the names in the order of the positions. *)
Lemma sorted_listing (E : env) (urls : list string)
  (m' : gmap string bytes) :
  (forall name b,
      m' !! name = Some b
      <-> (exists i u, urls !! i = Some u
                       /\ name = image_name (0 + i)
                       /\ b = body_of E u)
          \/ ((forall i, (i < length urls)%nat -> name <> image_name (0 + i))
              /\ (∅ : gmap string bytes) !! name = Some b)) ->
  list_sort natural_keys (map fst (map_to_list m'))
  = Ok (map image_name (seq 0 (length urls))).
Proof.
  intros Hlook.
  destruct (list_sort_sorted natural_keys natural_keys_comparable
              natural_le_trans (map fst (map_to_list m')))
    as (names & Hsort & Hperm & Hsorted).
  rewrite Hsort. f_equal.
  assert (Hlist : map fst (map_to_list m')
                  ≡ₚ map image_name (seq 0 (length urls))).
  { apply NoDup_Permutation.
    - apply NoDup_fst_map_to_list.
    - apply NoDup_fmap_2; [intros i j; apply image_name_inj | apply NoDup_seq].
    - intros name. split.
      + intros Hin. apply list_elem_of_fmap in Hin as ([n b] & -> & Hnb).
        apply elem_of_map_to_list, Hlook in Hnb
          as [(i & u & Hi & -> & _) | [_ Hnb]]; [| discriminate].
        apply list_elem_of_fmap. exists i. split; [reflexivity |].
        apply elem_of_seq. apply lookup_lt_Some in Hi. lia.
      + intros Hin. apply list_elem_of_fmap in Hin as (i & -> & Hi).
        apply elem_of_seq in Hi.
        destruct (lookup_lt_is_Some_2 urls i) as [u Hu]; [lia |].
        apply list_elem_of_fmap. exists (image_name i, body_of E u).
        split; [reflexivity |].
        apply elem_of_map_to_list, Hlook. left. eauto. }
  apply (StronglySorted_unique_strong natural_le).
  - intros x1 x2 H1 H2 H12 H21.
    rewrite <- Hperm, Hlist in H1.
    apply list_elem_of_fmap in H1 as (i & -> & _).
    apply list_elem_of_fmap in H2 as (j & -> & _).
    apply image_name_le in H12, H21. f_equal. lia.
  - exact Hsorted.
  - apply image_names_sorted.
  - now rewrite <- Hperm.
Qed.

Lemma load_pages_after_downloads (E : env) (d : string)
  (urls : list string) (w : world) (m' : gmap string bytes) :
  dirs (fs w) !! d = Some m' ->
  (forall name b,
      m' !! name = Some b
      <-> (exists i u, urls !! i = Some u
                       /\ name = image_name (0 + i)
                       /\ b = body_of E u)
          \/ ((forall i, (i < length urls)%nat -> name <> image_name (0 + i))
              /\ (∅ : gmap string bytes) !! name = Some b)) ->
  Forall (fun u => decode E (body_of E u) <> OpenFailed) urls ->
  load_pages E d w
  = (Ok (omap (fun u => page_of E (body_of E u)) urls), w).
Proof.
  intros Hd Hlook Hdec.
  unfold load_pages, bind at 1, listdir. rewrite Hd.
  unfold bind at 1, lift. rewrite (sorted_listing E urls m' Hlook).
  rewrite filter_all
    by (apply Forall_forall; intros x Hx;
        apply list_elem_of_fmap in Hx as (i & -> & _); apply image_name_jpg).
  unfold bind at 1.
  rewrite (mapM_load_image E d w m' _ Hd).
  - unfold ret. rewrite map_map.
    rewrite (map_seq_lookup _ (fun u => page_of E (body_of E u)) urls 0).
    + now rewrite omap_id_map.
    + intros i u Hu.
      assert (Hm : m' !! image_name (0 + i) = Some (body_of E u))
        by (apply Hlook; left; eauto).
      now rewrite Hm.
  - intros name b Hb.
    apply Hlook in Hb as [(i & u & Hi & _ & ->) | [_ Hb]]; [| discriminate].
    rewrite Forall_forall in Hdec. apply Hdec.
    apply list_elem_of_lookup. eauto.
  - apply Forall_forall. intros x Hx.
    apply list_elem_of_fmap in Hx as (i & -> & Hi).
    apply elem_of_seq in Hi.
    destruct (lookup_lt_is_Some_2 urls i) as [u Hu]; [lia |].
    exists (body_of E u). apply Hlook. left. eauto.
Qed.

Lemma process_chapter_answered (E : env) (self : WebtoonSaver)
  (chapter_id chapter_url save_path0 text : string) (rule : site_rule)
  (w : world) :
  let pdf := pdf_path save_path0 chapter_id in
  let d := scratch_path save_path0 chapter_id in
  let urls := map Str.strip_spaces (find_images E (image_class rule) text) in
  file_exists pdf (fs w) = false ->
  file_exists d (fs w) = false ->
  page_at E chapter_url = Some text ->
  database self = Some rule ->
  Forall (answered E) urls ->
  Forall (fun u => decode E (body_of E u) <> OpenFailed) urls ->
  process_chapter E self chapter_id chapter_url save_path0 w
  = (Ok tt,
     world_after_chapter pdf d chapter_url urls
       (omap (fun u => page_of E (body_of E u)) urls) w).
Proof.
  intros pdf d urls Hpdf Hscratch Hpage Hdb Hans Hdec.
  unfold process_chapter. fold pdf. fold d.
  unfold bind at 1, isfile. rewrite Hpdf.
  unfold bind at 1. rewrite (prepare_scratch_fresh d w Hscratch).
  unfold bind at 1.
  rewrite fetch_images_never_reports.
  unfold bind at 1, requests_get, bind at 1, log_request. rewrite Hpage.
  unfold ret at 1. unfold bind at 1, get_database. rewrite Hdb.
  unfold ret at 1. fold urls.
  set (w1 := {| fs := fs (world_with_scratch d w);
                net := chapter_url :: net (world_with_scratch d w);
                out := out (world_with_scratch d w) |}).
  assert (Hd1 : dirs (fs w1) !! d = Some ∅)
    by (simpl; apply lookup_insert_eq).
  assert (Hde : dir_exists d (fs w1) = true)
    by (apply dir_exists_lookup; eauto).
  unfold bind at 1.
  rewrite (download_images_answered E urls d w1 Hde Hans).
  unfold ret at 1.
  destruct (after_downloads_spec E d urls 0 w1 ∅ Hd1)
    as (m' & Hfs & Hnet & Hout & Hlook).
  set (w2 := after_downloads E d 0 urls w1) in *.
  assert (Hd2 : dirs (fs w2) !! d = Some m')
    by (rewrite Hfs; simpl; apply lookup_insert_eq).
  unfold bind at 1.
  rewrite (load_pages_after_downloads E d urls w2 m' Hd2 Hlook Hdec).
  set (pages := omap (fun u => page_of E (body_of E u)) urls).
  unfold bind at 1.
  assert (Hsave : save_pdf pdf pages w2
                  = (Ok tt,
                     {| fs := {| files := match pages with
                                          | [] => files (fs w2)
                                          | _ :: _ =>
                                              <[pdf := Pdf pages]> (files (fs w2))
                                          end;
                                 dirs := dirs (fs w2) |};
                        net := net w2; out := out w2 |})).
  { unfold save_pdf. destruct pages; [| reflexivity].
    unfold ret. f_equal. destruct w2 as [[f2 d2] n2 o2]. reflexivity. }
  rewrite Hsave. unfold rmtree. cbn [fs dirs]. rewrite Hd2.
  unfold update_fs, remove_dir, world_after_chapter. cbn [fs dirs files net out].
  rewrite Hnet, Hout, Hfs. cbn [fs dirs files net out].
  rewrite delete_insert_eq. subst w1. unfold world_with_scratch.
  cbn [fs dirs files net out]. rewrite delete_insert_eq. reflexivity.
Qed.

(** X2.  When the directory is there and every request is answered,
    [download_images] returns the positions [0 .. n-1] in order; the
    body of the image at position [i] is the entry [images<i+1>.jpg] of
    the directory, the other entries, the other directories and the
    files are as before, and the requests are logged in the order of the
    URLs. *)
Theorem download_images_all_answered (E : env) (urls : list string)
  (d : string) (w : world) (m : gmap string bytes) :
  dirs (fs w) !! d = Some m ->
  Forall (answered E) urls ->
  exists m' w',
    download_images E urls d w = (Ok (seq 0 (length urls)), w')
    /\ fs w' = {| files := files (fs w); dirs := <[d := m']> (dirs (fs w)) |}
    /\ net w' = rev urls ++ net w
    /\ out w' = out w
    /\ (forall i u, urls !! i = Some u ->
                    m' !! image_name i = Some (body_of E u))
    /\ (forall name,
          (forall i, (i < length urls)%nat -> name <> image_name i) ->
          m' !! name = m !! name).
Proof.
  intros Hm Hall.
  assert (Hd : dir_exists d (fs w) = true)
    by (apply dir_exists_lookup; eauto).
  destruct (after_downloads_spec E d urls 0 w m Hm)
    as (m' & Hfs & Hnet & Hout & Hlook).
  exists m', (after_downloads E d 0 urls w).
  split; [now apply download_images_answered |].
  split; [exact Hfs |]. split; [exact Hnet |]. split; [exact Hout |].
  split.
  - intros i u Hu. apply Hlook. left. exists i, u. auto.
  - intros name Hne. apply option_eq. intros b. rewrite Hlook. split.
    + intros [(i & u & Hi & -> & _) | [_ H]]; [| exact H].
      apply lookup_lt_Some in Hi. now destruct (Hne i Hi).
    + intros H. right. split; [| exact H].
      intros i Hi. simpl. now apply Hne.
Qed.

(** The three images of chapter 1 of the sample comic, fetched into a
    directory that holds a stale file. *)
Lemma download_images_all_answered_witness :
  exists m' w',
    download_images sample_env ["u1"; "u2"; "u3"] "/c/abc/Chapter1_Images/"
      sample_world_scratch = (Ok [0; 1; 2]%nat, w')
    /\ dirs (fs w') !! "/c/abc/Chapter1_Images/" = Some m'
    /\ m' !! "images2.jpg" = Some [Byte.x02]
    /\ m' !! "images7.jpg" = Some [Byte.x03]
    /\ net w' = ["u3"; "u2"; "u1"].
Proof.
  destruct (download_images_all_answered sample_env ["u1"; "u2"; "u3"]
              "/c/abc/Chapter1_Images/" sample_world_scratch
              {["images7.jpg" := [Byte.x03]]} eq_refl)
    as (m' & w' & Hrun & Hfs & Hnet & _ & Hnew & Hold).
  { repeat constructor; eexists; eexists; reflexivity. }
  exists m', w'. split; [exact Hrun |].
  split; [rewrite Hfs; simpl; apply lookup_insert_eq |].
  split; [exact (Hnew 1%nat "u2" eq_refl) |].
  split; [| exact Hnet].
  refine (eq_trans (Hold "images7.jpg" _) eq_refl).
  intros i Hi Heq. simpl in Hi.
  assert (Hc : (i = 0 \/ i = 1 \/ i = 2)%nat) by lia.
  destruct Hc as [-> | [-> | ->]]; discriminate.
Defined.

(** X3.  A chapter that has no document yet, whose page is fetched and
    whose images are all answered and none of which fails to open with
    an error other than [UnidentifiedImageError]: [process_chapter]
    returns; the document, written when there is a page, holds the pages
    of the images in the order of the URLs on the chapter page, whatever
    the order of the directory listing and whatever the scratch
    directory held before; the scratch directory is gone; the page and
    then the images have been requested; nothing is printed. *)
Theorem process_chapter_all_answered (E : env) (self : WebtoonSaver)
  (chapter_id chapter_url save_path0 text : string) (rule : site_rule)
  (w : world) :
  let pdf := pdf_path save_path0 chapter_id in
  let d := scratch_path save_path0 chapter_id in
  let urls := map Str.strip_spaces (find_images E (image_class rule) text) in
  file_exists pdf (fs w) = false ->
  file_exists d (fs w) = false ->
  page_at E chapter_url = Some text ->
  database self = Some rule ->
  Forall (answered E) urls ->
  Forall (fun u => decode E (body_of E u) <> OpenFailed) urls ->
  process_chapter E self chapter_id chapter_url save_path0 w
  = (Ok tt,
     world_after_chapter pdf d chapter_url urls
       (omap (fun u => page_of E (body_of E u)) urls) w).
Proof. apply process_chapter_answered. Qed.

(** Chapter 1 of the sample comic, with a stale file in its scratch
    directory: the document has the one page of height 600. *)
Lemma process_chapter_all_answered_witness :
  let w := {| fs := {| files := ∅;
                       dirs := {["/c/abc/Chapter1_Images/" :=
                                   {["images7.jpg" := [Byte.x01]]}]} |};
              net := []; out := [] |} in
  process_chapter sample_env sample_self "1" (sample_chapter "1") "/c/abc/" w
  = (Ok tt,
     {| fs := {| files := {["/c/abc/Chapter-1.pdf" :=
                              Pdf [sample_image 600 "RGB" Byte.x01]]};
                 dirs := ∅ |};
        net := ["u3"; "u2"; "u1"; sample_chapter "1"]; out := [] |}).
Proof.
  intros w.
  rewrite (process_chapter_all_answered sample_env sample_self "1"
             (sample_chapter "1") "/c/abc/" "ch1" webtoonscan_rule w).
  - vm_compute. reflexivity.
  - vm_compute. reflexivity.
  - vm_compute. reflexivity.
  - reflexivity.
  - reflexivity.
  - repeat constructor; eexists; eexists; reflexivity.
  - repeat constructor; discriminate.
Defined.

(** X4.  A chapter none of whose images gives a page (in particular a
    chapter page without an image) gets no document, so nothing marks it
    as done: a second run fetches its page and its images again. *)
Theorem chapter_without_page_is_redone (E : env) (self : WebtoonSaver)
  (chapter_id chapter_url save_path0 text : string) (rule : site_rule)
  (w : world) :
  let pdf := pdf_path save_path0 chapter_id in
  let d := scratch_path save_path0 chapter_id in
  let urls := map Str.strip_spaces (find_images E (image_class rule) text) in
  let run := process_chapter E self chapter_id chapter_url save_path0 in
  file_exists pdf (fs w) = false ->
  file_exists d (fs w) = false ->
  page_at E chapter_url = Some text ->
  database self = Some rule ->
  Forall (answered E) urls ->
  omap (fun u => page_of E (body_of E u)) urls = [] ->
  Forall (fun u => decode E (body_of E u) <> OpenFailed) urls ->
  fst (run w) = Ok tt
  /\ files (fs (snd (run w))) = files (fs w)
  /\ dir_exists d (fs (snd (run w))) = false
  /\ fst (run (snd (run w))) = Ok tt
  /\ net (snd (run (snd (run w))))
     = (rev urls ++ [chapter_url]) ++ (rev urls ++ [chapter_url]) ++ net w.
Proof.
  intros pdf d urls run Hpdf Hscratch Hpage Hdb Hans Hnone Hdec.
  assert (H1 : run w = (Ok tt, world_after_chapter pdf d chapter_url urls [] w)).
  { unfold run. rewrite <- Hnone. now apply process_chapter_answered. }
  set (w' := world_after_chapter pdf d chapter_url urls [] w) in *.
  assert (H2 : run w' = (Ok tt, world_after_chapter pdf d chapter_url urls [] w')).
  { unfold run. rewrite <- Hnone. now apply process_chapter_answered. }
  rewrite H1. cbn [fst snd]. rewrite H2. cbn [fst snd].
  split; [reflexivity |]. split; [reflexivity |]. split.
  - unfold dir_exists. simpl. apply bool_decide_eq_false.
    rewrite lookup_delete_eq. intros [x Hx]. discriminate.
  - split; [reflexivity |]. simpl. now rewrite <- !app_assoc.
Qed.

(** A chapter of the sample site whose page has no image. *)
Lemma chapter_without_page_is_redone_witness :
  let run := process_chapter sample_env sample_self "9"
               "https://example.com/comic/one/" "/c/abc/" in
  fst (run sample_world) = Ok tt
  /\ files (fs (snd (run sample_world))) = ∅
  /\ net (snd (run (snd (run sample_world))))
     = ["https://example.com/comic/one/"; "https://example.com/comic/one/"].
Proof.
  intros run.
  destruct (chapter_without_page_is_redone sample_env sample_self "9"
              "https://example.com/comic/one/" "/c/abc/" "other"
              webtoonscan_rule sample_world)
    as (H1 & H2 & _ & _ & H3).
  - reflexivity.
  - reflexivity.
  - reflexivity.
  - reflexivity.
  - constructor.
  - reflexivity.
  - constructor.
  - split; [exact H1 |]. split; [exact H2 | exact H3].
Defined.

(** ** The pages of the document *)

(** One file on which [Image.open] fails with an error other than
    [UnidentifiedImageError] makes the loading of the pages raise. *)
Lemma mapM_load_image_raises (E : env) (d : string) (w : world)
  (m : gmap string bytes) (names : list string) :
  dirs (fs w) !! d = Some m ->
  Forall (fun n => is_Some (m !! n)) names ->
  Exists (fun n => exists b, m !! n = Some b /\ decode E b = OpenFailed)
    names ->
  mapM (load_image E d) names w = (Raise OSError, w).
Proof.
  intros Hd. induction 1 as [|n names [b Hb] _ IH]; intros Hex.
  - inversion Hex.
  - simpl. unfold bind at 1.
    rewrite (load_image_entry E d n w m b Hd Hb).
    destruct (decode E b) as [img| |] eqn:Hdec; [| | reflexivity].
    + assert (Hrest : mapM (load_image E d) names w = (Raise OSError, w)).
      { apply IH. inversion Hex as [? ? (b' & Hb' & Hf) | ? ? Ht]; subst;
          [congruence | exact Ht]. }
      destruct (500 <? img_height img); unfold bind; now rewrite Hrest.
    + assert (Hrest : mapM (load_image E d) names w = (Raise OSError, w)).
      { apply IH. inversion Hex as [? ? (b' & Hb' & Hf) | ? ? Ht]; subst;
          [congruence | exact Ht]. }
      unfold bind. now rewrite Hrest.
Qed.

Lemma load_pages_open_failed (E : env) (d : string)
  (urls : list string) (w : world) (m' : gmap string bytes) :
  dirs (fs w) !! d = Some m' ->
  (forall name b,
      m' !! name = Some b
      <-> (exists i u, urls !! i = Some u
                       /\ name = image_name (0 + i)
                       /\ b = body_of E u)
          \/ ((forall i, (i < length urls)%nat -> name <> image_name (0 + i))
              /\ (∅ : gmap string bytes) !! name = Some b)) ->
  Exists (fun u => decode E (body_of E u) = OpenFailed) urls ->
  load_pages E d w = (Raise OSError, w).
Proof.
  intros Hd Hlook Hex.
  unfold load_pages, bind at 1, listdir. rewrite Hd.
  unfold bind at 1, lift. rewrite (sorted_listing E urls m' Hlook).
  rewrite filter_all
    by (apply Forall_forall; intros x Hx;
        apply list_elem_of_fmap in Hx as (i & -> & _); apply image_name_jpg).
  unfold bind at 1.
  rewrite (mapM_load_image_raises E d w m' _ Hd); [reflexivity | |].
  - apply Forall_forall. intros x Hx.
    apply list_elem_of_fmap in Hx as (i & -> & Hi).
    apply elem_of_seq in Hi.
    destruct (lookup_lt_is_Some_2 urls i) as [u Hu]; [lia |].
    exists (body_of E u). apply Hlook. left. eauto.
  - apply Exists_exists in Hex as (u & Hin & Hdec).
    apply list_elem_of_lookup in Hin as [i Hi].
    apply Exists_exists. exists (image_name i). split.
    + apply list_elem_of_fmap. exists i.
      split; [reflexivity |]. apply elem_of_seq.
      apply lookup_lt_Some in Hi. lia.
    + exists (body_of E u). split; [| exact Hdec].
      apply Hlook. left. exists i, u. auto.
Qed.

(** A chapter whose downloads are all answered and one of whose files
    cannot be opened. *)
Lemma process_chapter_open_failed (E : env) (self : WebtoonSaver)
  (chapter_id chapter_url save_path0 text : string) (rule : site_rule)
  (w : world) :
  let pdf := pdf_path save_path0 chapter_id in
  let d := scratch_path save_path0 chapter_id in
  let urls := map Str.strip_spaces (find_images E (image_class rule) text) in
  file_exists pdf (fs w) = false ->
  file_exists d (fs w) = false ->
  page_at E chapter_url = Some text ->
  database self = Some rule ->
  Forall (answered E) urls ->
  Exists (fun u => decode E (body_of E u) = OpenFailed) urls ->
  exists w',
    process_chapter E self chapter_id chapter_url save_path0 w
    = (Raise OSError, w')
    /\ files (fs w') = files (fs w)
    /\ dir_exists d (fs w') = true.
Proof.
  intros pdf d urls Hpdf Hscratch Hpage Hdb Hans Hex.
  unfold process_chapter. fold pdf. fold d.
  unfold bind at 1, isfile. rewrite Hpdf.
  unfold bind at 1. rewrite (prepare_scratch_fresh d w Hscratch).
  unfold bind at 1.
  rewrite fetch_images_never_reports.
  unfold bind at 1, requests_get, bind at 1, log_request. rewrite Hpage.
  unfold ret at 1. unfold bind at 1, get_database. rewrite Hdb.
  unfold ret at 1. fold urls.
  set (w1 := {| fs := fs (world_with_scratch d w);
                net := chapter_url :: net (world_with_scratch d w);
                out := out (world_with_scratch d w) |}).
  assert (Hd1 : dirs (fs w1) !! d = Some ∅)
    by (simpl; apply lookup_insert_eq).
  assert (Hde : dir_exists d (fs w1) = true)
    by (apply dir_exists_lookup; eauto).
  unfold bind at 1.
  rewrite (download_images_answered E urls d w1 Hde Hans).
  unfold ret at 1.
  destruct (after_downloads_spec E d urls 0 w1 ∅ Hd1)
    as (m' & Hfs & Hnet & Hout & Hlook).
  set (w2 := after_downloads E d 0 urls w1) in *.
  assert (Hd2 : dirs (fs w2) !! d = Some m')
    by (rewrite Hfs; simpl; apply lookup_insert_eq).
  unfold bind at 1.
  rewrite (load_pages_open_failed E d urls w2 m' Hd2 Hlook Hex).
  exists w2. split; [reflexivity |]. split.
  - rewrite Hfs. reflexivity.
  - apply dir_exists_lookup. eauto.
Qed.

(** C9, as the code has it.  A chapter that has no document yet, whose
    page is fetched and whose image requests are all answered.  A
    downloaded file gives a page exactly when [Image.open] opens it as
    an image whose height is greater than 500; the page is the image,
    converted to RGB when its mode is RGBA.  When [Image.open] fails on
    no file with an error other than [UnidentifiedImageError],
    [process_chapter] returns and the document holds the pages of the
    files, in the order of the image URLs; there is no document when
    there is no page.  So an image of height 500 or less and a file
    that is no image are left out and nothing is raised for them.  When
    [Image.open] fails on some file with another error, nothing catches
    it: [process_chapter] raises, no document is written, and the
    scratch directory is left behind. *)
Theorem artifact_pages (E : env) (self : WebtoonSaver)
  (chapter_id chapter_url save_path0 text : string) (rule : site_rule)
  (w : world) :
  let pdf := pdf_path save_path0 chapter_id in
  let d := scratch_path save_path0 chapter_id in
  let urls := map Str.strip_spaces (find_images E (image_class rule) text) in
  let run := process_chapter E self chapter_id chapter_url save_path0 w in
  let pages := omap (fun u => page_of E (body_of E u)) urls in
  file_exists pdf (fs w) = false ->
  file_exists d (fs w) = false ->
  page_at E chapter_url = Some text ->
  database self = Some rule ->
  Forall (answered E) urls ->
  (forall b p,
      page_of E b = Some p
      <-> exists img, decode E b = Opened img
                      /\ 500 < img_height img
                      /\ p = normalized img)
  /\ (Forall (fun u => decode E (body_of E u) <> OpenFailed) urls ->
      fst run = Ok tt
      /\ files (fs (snd run)) !! pdf
         = match pages with
           | [] => None
           | _ :: _ => Some (Pdf pages)
           end)
  /\ (Exists (fun u => decode E (body_of E u) = OpenFailed) urls ->
      fst run = Raise OSError
      /\ files (fs (snd run)) = files (fs w)
      /\ dir_exists d (fs (snd run)) = true).
Proof.
  intros pdf d urls run pages Hpdf Hscratch Hpage Hdb Hans.
  split; [| split].
  - intros b p. unfold page_of. split.
    + destruct (decode E b) as [img| |]; try discriminate.
      destruct (500 <? img_height img) eqn:Hh; [| discriminate].
      intros [= <-]. exists img. apply Z.ltb_lt in Hh. auto.
    + intros (img & -> & Hh & ->). apply Z.ltb_lt in Hh. now rewrite Hh.
  - intros Hdec. unfold run.
    rewrite (process_chapter_answered E self chapter_id chapter_url
               save_path0 text rule w Hpdf Hscratch Hpage Hdb Hans Hdec).
    split; [reflexivity |]. cbn [snd fst world_after_chapter fs files].
    fold urls. fold pages. fold pdf.
    destruct pages as [|p pages']; [| apply lookup_insert_eq].
    unfold file_exists in Hpdf. apply bool_decide_eq_false in Hpdf.
    destruct (files (fs w) !! pdf) eqn:Hl; [| reflexivity].
    destruct Hpdf. eauto.
  - intros Hex. unfold run.
    destruct (process_chapter_open_failed E self chapter_id chapter_url
                save_path0 text rule w Hpdf Hscratch Hpage Hdb Hans Hex)
      as (w' & -> & Hfiles & Hdir).
    auto.
Qed.

(** Chapter 1 of the sample comic: the first image, of height 600, is
    the one page of the document; the second file, the body of a 404
    answer, is no image, and the third image has height 400. *)
Lemma artifact_pages_witness :
  let run := process_chapter sample_env sample_self "1" (sample_chapter "1")
               "/c/abc/" sample_world in
  fst run = Ok tt
  /\ files (fs (snd run)) !! "/c/abc/Chapter-1.pdf"
     = Some (Pdf [sample_image 600 "RGB" Byte.x01])
  /\ decode sample_env (body_of sample_env "u2") = Unidentified
  /\ decode sample_env (body_of sample_env "u3")
     = Opened (sample_image 400 "RGB" Byte.x03).
Proof.
  intros run.
  destruct (artifact_pages sample_env sample_self "1" (sample_chapter "1")
              "/c/abc/" "ch1" webtoonscan_rule sample_world)
    as (_ & Hpages & _).
  - vm_compute. reflexivity.
  - vm_compute. reflexivity.
  - reflexivity.
  - reflexivity.
  - repeat constructor; eexists; eexists; reflexivity.
  - destruct Hpages as [Hok Hdoc].
    + repeat constructor; discriminate.
    + split; [exact Hok |]. split; [exact Hdoc |].
      split; reflexivity.
Defined.

(** C9 as stated fails.  The second file of the chapter is one
    [Image.open] fails on with an error other than
    [UnidentifiedImageError]: it is not left out silently, the chapter
    is aborted; no document is written, although the first file is an
    image of height 600. *)
Lemma unreadable_file_aborts_chapter :
  let run := process_chapter sample_env_unreadable sample_self "1"
               (sample_chapter "1") "/c/abc/" sample_world in
  body_of sample_env_unreadable "u4" = [Byte.x04]
  /\ decode sample_env_unreadable [Byte.x04] = OpenFailed
  /\ page_of sample_env_unreadable (body_of sample_env_unreadable "u1")
     = Some (sample_image 600 "RGB" Byte.x01)
  /\ fst run = Raise OSError
  /\ files (fs (snd run)) = ∅
  /\ dirs (fs (snd run)) !! "/c/abc/Chapter1_Images/"
     = Some (<["images1.jpg" := [Byte.x01]]>
               (<["images2.jpg" := [Byte.x04]]>
                  {["images3.jpg" := [Byte.x03]]})).
Proof.
  intros run. split; [reflexivity |]. split; [reflexivity |].
  split; [reflexivity |]. split; [vm_compute; reflexivity |].
  split; vm_compute; reflexivity.
Qed.

(** ** What a chapter leaves alone *)

Section Frame.
Context (E : env) (d pdf : string) (P : world -> Prop).
Hypothesis P_request :
  forall u w, P w -> P {| fs := fs w; net := u :: net w; out := out w |}.
Hypothesis P_entry :
  forall name b w,
    P w -> P {| fs := add_entry d name b (fs w); net := net w; out := out w |}.
Hypothesis P_add_dir :
  forall w, P w -> P {| fs := add_dir d (fs w); net := net w; out := out w |}.
Hypothesis P_remove_dir :
  forall w,
    P w -> P {| fs := remove_dir d (fs w); net := net w; out := out w |}.
Hypothesis P_file :
  forall c w,
    P w -> P {| fs := add_file pdf c (fs w); net := net w; out := out w |}.

Lemma preserves_ret {A} (a : A) : preserves P (ret a).
Proof. intros w H. exact H. Qed.

Lemma preserves_raise {A} (e : exn) : preserves P (@raise A e).
Proof. intros w H. exact H. Qed.

Lemma preserves_bind {A B} (m : M A) (k : A -> M B) :
  preserves P m -> (forall a, preserves P (k a)) -> preserves P (bind m k).
Proof.
  intros Hm Hk w H. unfold bind.
  specialize (Hm w H). destruct (m w) as [[a|e] w']; simpl in *.
  - now apply Hk.
  - exact Hm.
Qed.

Lemma preserves_mapM {A B} (f : A -> M B) (l : list A) :
  (forall a, preserves P (f a)) -> preserves P (mapM f l).
Proof.
  intros Hf. induction l as [|x l IH]; simpl.
  - apply preserves_ret.
  - apply preserves_bind; [apply Hf | intros y].
    apply preserves_bind; [exact IH | intros ys; apply preserves_ret].
Qed.

Lemma preserves_gather {A} (tasks : list (M A)) :
  Forall (preserves P) tasks -> preserves P (gather tasks).
Proof.
  intros Ht w H. unfold gather.
  assert (Hrun : P (snd (run_all tasks w))).
  { revert w H. induction Ht as [|t ts Ht _ IH]; intros w H; simpl; [exact H |].
    specialize (Ht w H). destruct (t w) as [r w1]. simpl in Ht.
    specialize (IH w1 Ht). destruct (run_all ts w1) as [rs w2]. exact IH. }
  destruct (run_all tasks w) as [rs w']. exact Hrun.
Qed.

Lemma preserves_requests_get (u : string) : preserves P (requests_get E u).
Proof.
  intros w H. unfold requests_get, bind, log_request.
  destruct (page_at E u); simpl; now apply P_request.
Qed.

Lemma preserves_download_image (u : string) (idx : nat) :
  preserves P (download_image E u idx d).
Proof.
  intros w H.
  unfold download_image, session_get_read, bind, log_request, write_entry.
  destruct (image_at E u) as [st body| |st]; simpl;
    try (now apply P_request).
  destruct (dirs (fs w) !! d); simpl.
  - apply (P_entry _ _ _ (P_request u w H)).
  - now apply P_request.
Qed.

Lemma preserves_fetch_images (self : WebtoonSaver)
  (chapter_id chapter_url : string) :
  preserves P (fetch_images E self chapter_id chapter_url d).
Proof.
  intros w H. rewrite fetch_images_never_reports. revert w H.
  apply preserves_bind; [apply preserves_requests_get | intros text].
  apply preserves_bind.
  { unfold get_database.
    destruct (database self); [apply preserves_ret | apply preserves_raise]. }
  intros rule.
  apply preserves_bind; [| intros l; apply preserves_ret].
  unfold download_images. apply preserves_gather.
  apply Forall_forall. intros t Ht.
  apply elem_of_lookup_imap in Ht as (i & u & -> & _).
  apply preserves_download_image.
Qed.

Lemma preserves_load_pages (d' : string) : preserves P (load_pages E d').
Proof.
  intros w H.
  assert (Hsame : snd (load_pages E d' w) = w); [| now rewrite Hsame].
  unfold load_pages, bind at 1, listdir.
  destruct (dirs (fs w) !! d') as [m|]; [| reflexivity].
  unfold bind at 1, lift.
  destruct (list_sort natural_keys (map fst (map_to_list m))) as [names|e];
    [| reflexivity].
  unfold bind at 1.
  assert (Hmap : forall l, snd (mapM (load_image E d') l w) = w).
  { induction l as [|x l IH]; [reflexivity |].
    simpl. unfold bind at 1.
    assert (Hx : snd (load_image E d' x w) = w).
    { unfold load_image, bind, read_entry.
      destruct (dirs (fs w) !! d') as [m0|]; [| reflexivity].
      destruct (m0 !! x) as [b|]; [| reflexivity].
      destruct (decode E b) as [img| |]; try reflexivity.
      destruct (500 <? img_height img); [| reflexivity].
      destruct (Stdlib.Strings.String.eqb (img_mode img) "RGBA");
        reflexivity. }
    destruct (load_image E d' x w) as [[y|e] wx]; simpl in Hx; subst;
      [| reflexivity].
    unfold bind at 1.
    destruct (mapM (load_image E d') l w) as [[ys|e] wl]; simpl in IH; subst;
      reflexivity. }
  specialize (Hmap (List.filter (Str.contains ".jpg") names)).
  destruct (mapM (load_image E d') _ w) as [[ys|e] wl]; simpl in Hmap; subst;
    reflexivity.
Qed.

Lemma preserves_prepare_scratch : preserves P (prepare_scratch d).
Proof.
  intros w H.
  unfold prepare_scratch, bind, isdir, when, rmtree, mkdir, update_fs, ret.
  destruct (dir_exists d (fs w)); simpl.
  - destruct (dirs (fs w) !! d); simpl; [| exact H].
    destruct (path_exists d (remove_dir d (fs w))); simpl.
    + now apply P_remove_dir.
    + apply (P_add_dir _ (P_remove_dir w H)).
  - destruct (path_exists d (fs w)); simpl; [exact H | now apply P_add_dir].
Qed.

Lemma preserves_process_chapter (self : WebtoonSaver)
  (chapter_id chapter_url save_path0 : string) :
  d = scratch_path save_path0 chapter_id ->
  pdf = pdf_path save_path0 chapter_id ->
  preserves P (process_chapter E self chapter_id chapter_url save_path0).
Proof.
  intros Hd Hp. unfold process_chapter. rewrite <- Hd, <- Hp.
  apply preserves_bind; [intros w H; exact H | intros done].
  destruct done; [apply preserves_ret |].
  apply preserves_bind; [apply preserves_prepare_scratch | intros _].
  apply preserves_bind; [apply preserves_fetch_images | intros _].
  apply preserves_bind; [apply preserves_load_pages | intros im_list].
  apply preserves_bind.
  - intros w H. destruct im_list; simpl; [exact H | now apply P_file].
  - intros _ w H. unfold rmtree.
    destruct (dirs (fs w) !! d); simpl; [now apply P_remove_dir | exact H].
Qed.

End Frame.

Lemma process_chapter_touched_only (E : env) (self : WebtoonSaver)
  (chapter_id chapter_url save_path0 : string) (w : world) :
  touched_only (pdf_path save_path0 chapter_id)
    (scratch_path save_path0 chapter_id) w
    (snd (process_chapter E self chapter_id chapter_url save_path0 w)).
Proof.
  set (pdf := pdf_path save_path0 chapter_id).
  set (d := scratch_path save_path0 chapter_id).
  apply (preserves_process_chapter E d pdf (touched_only pdf d w));
    try reflexivity.
  - intros u w1 (Ho & Hf & Hd & l & Hn). repeat split; auto.
    exists (u :: l). simpl. now rewrite Hn.
  - intros name b w1 (Ho & Hf & Hd & Hn). repeat split; auto.
    intros d' Hd'. simpl. rewrite lookup_alter_ne by congruence. now apply Hd.
  - intros w1 (Ho & Hf & Hd & Hn). repeat split; auto.
    intros d' Hd'. simpl. rewrite lookup_insert_ne by congruence. now apply Hd.
  - intros w1 (Ho & Hf & Hd & Hn). repeat split; auto.
    intros d' Hd'. simpl. rewrite lookup_delete_ne by congruence. now apply Hd.
  - intros c w1 (Ho & Hf & Hd & Hn). repeat split; auto.
    intros p Hp. simpl. rewrite lookup_insert_ne by congruence. now apply Hf.
  - repeat split; auto. now exists [].
Qed.

(** X5.  On every exit path, [process_chapter] changes nothing of the
    file system but the file of its document and its scratch directory,
    prints nothing (the line of lines 219-221 is never printed), and
    only adds to the log of requests. *)
Theorem process_chapter_isolation (E : env) (self : WebtoonSaver)
  (chapter_id chapter_url save_path0 : string) (w : world) :
  let w' := snd (process_chapter E self chapter_id chapter_url save_path0 w) in
  out w' = out w
  /\ (forall p, p <> pdf_path save_path0 chapter_id ->
                files (fs w') !! p = files (fs w) !! p)
  /\ (forall d', d' <> scratch_path save_path0 chapter_id ->
                 dirs (fs w') !! d' = dirs (fs w) !! d')
  /\ exists l, net w' = l ++ net w.
Proof. apply process_chapter_touched_only. Qed.

(** Chapter 2 of the sample comic, which fails: the document of
    chapter 1 is as it was and nothing was printed. *)
Lemma process_chapter_isolation_witness :
  let w' := snd (process_chapter sample_env sample_self "2"
                   (sample_chapter "2") "/c/abc/" sample_world_done) in
  out w' = []
  /\ files (fs w') !! "/c/abc/Chapter-1.pdf"
     = Some (Pdf [sample_image 600 "RGB" Byte.x01]).
Proof.
  intros w'.
  destruct (process_chapter_isolation sample_env sample_self "2"
              (sample_chapter "2") "/c/abc/" sample_world_done)
    as (Hout & Hfiles & _ & _).
  split; [exact Hout |].
  refine (eq_trans (Hfiles "/c/abc/Chapter-1.pdf" _) eq_refl).
  discriminate.
Defined.

Lemma append_cancel_l (c a b : string) : c +:+ a = c +:+ b -> a = b.
Proof.
  induction c as [|x c IH]; [trivial |].
  rewrite !append_cons. intros [= H]. now apply IH.
Qed.

Lemma append_cancel_r (c a b : string) : a +:+ c = b +:+ c -> a = b.
Proof.
  intros H. apply (f_equal Str.rev) in H. rewrite !rev_append in H.
  apply append_cancel_l in H. apply (f_equal Str.rev) in H.
  now rewrite !rev_involutive in H.
Qed.

Lemma pdf_path_inj (save_path0 a b : string) :
  pdf_path save_path0 a = pdf_path save_path0 b -> a = b.
Proof.
  unfold pdf_path. intros H.
  apply append_cancel_l, append_cancel_l, append_cancel_r in H. exact H.
Qed.

Lemma scratch_path_inj (save_path0 a b : string) :
  scratch_path save_path0 a = scratch_path save_path0 b -> a = b.
Proof.
  unfold scratch_path. intros H.
  apply append_cancel_l, append_cancel_l, append_cancel_r in H. exact H.
Qed.

(** X6.  Two chapters of a comic do not interfere: whatever happens to a
    chapter, the document and the scratch directory of another chapter
    are as they were. *)
Theorem chapters_do_not_interfere (E : env) (self : WebtoonSaver)
  (chapter_id chapter_url other save_path0 : string) (w : world) :
  other <> chapter_id ->
  let w' := snd (process_chapter E self chapter_id chapter_url save_path0 w) in
  files (fs w') !! pdf_path save_path0 other
  = files (fs w) !! pdf_path save_path0 other
  /\ dirs (fs w') !! scratch_path save_path0 other
     = dirs (fs w) !! scratch_path save_path0 other.
Proof.
  intros Hne w'.
  destruct (process_chapter_touched_only E self chapter_id chapter_url
              save_path0 w) as (_ & Hf & Hd & _).
  split.
  - apply Hf. intros H. apply Hne. now apply pdf_path_inj in H.
  - apply Hd. intros H. apply Hne. now apply scratch_path_inj in H.
Qed.

(** Chapter 2 of the sample comic fails; the document of chapter 1 is as
    it was. *)
Lemma chapters_do_not_interfere_witness :
  let w' := snd (process_chapter sample_env sample_self "2"
                   (sample_chapter "2") "/c/abc/" sample_world_done) in
  files (fs w') !! "/c/abc/Chapter-1.pdf"
  = Some (Pdf [sample_image 600 "RGB" Byte.x01]).
Proof.
  intros w'.
  refine (eq_trans
            (proj1 (chapters_do_not_interfere sample_env sample_self "2"
                      (sample_chapter "2") "1" "/c/abc/" sample_world_done _))
            eq_refl).
  discriminate.
Defined.

(** ** Splitting a URL from the right *)

Lemma rsplit_go_acc (sep : ascii) (rs : string) :
  forall n cur acc,
    rsplit_go sep n cur rs acc = rsplit_go sep n cur rs [] ++ acc.
Proof.
  induction rs as [|c rs IH]; intros n cur acc; simpl; [reflexivity |].
  destruct (Ascii.eqb c sep).
  - destruct n as [|n]; [reflexivity |].
    rewrite (IH n "" (cur :: acc)), (IH n "" [cur]).
    now rewrite <- app_assoc.
  - apply IH.
Qed.

Lemma rsplit_go_0 (sep : ascii) (rs : string) :
  forall cur acc, rsplit_go sep 0 cur rs acc = Str.rev_acc rs cur :: acc.
Proof.
  induction rs as [|c rs IH]; intros cur acc; simpl; [reflexivity |].
  destruct (Ascii.eqb c sep); [reflexivity | apply IH].
Qed.

Lemma rsplit_0 (sep : ascii) (s : string) : rsplit sep 0 s = [s].
Proof.
  unfold rsplit. rewrite rsplit_go_0.
  now rewrite rev_acc_append, append_empty_r, rev_involutive.
Qed.

Lemma rsplit_go_scan (sep : ascii) (t : string) :
  forall n cur rest acc,
    no_char sep t = true ->
    rsplit_go sep n cur (t +:+ rest) acc
    = rsplit_go sep n (Str.rev_acc t cur) rest acc.
Proof.
  induction t as [|c t IH]; intros n cur rest acc H; [reflexivity |].
  simpl in H. apply andb_true_iff in H as [Hc Ht].
  apply negb_true_iff in Hc.
  rewrite append_cons. simpl. rewrite Hc. now apply IH.
Qed.

Lemma no_char_append (c : ascii) (a b : string) :
  no_char c (a +:+ b) = no_char c a && no_char c b.
Proof.
  induction a as [|x a IH]; [reflexivity |].
  rewrite append_cons. simpl. now rewrite IH, andb_assoc.
Qed.

Lemma no_char_rev (c : ascii) (s : string) :
  no_char c (Str.rev s) = no_char c s.
Proof.
  induction s as [|x s IH]; [reflexivity |].
  rewrite rev_cons, no_char_append, IH. simpl.
  rewrite andb_true_r. apply andb_comm.
Qed.

(** The last piece of a right split is what follows the last
    separator. *)
Lemma rsplit_snoc (sep : ascii) (n : nat) (a seg : string) :
  no_char sep seg = true ->
  rsplit sep (S n) (a +:+ String sep seg) = rsplit sep n a ++ [seg].
Proof.
  intros Hseg. unfold rsplit.
  rewrite rev_append, rev_cons, append_assoc.
  rewrite rsplit_go_scan by now rewrite no_char_rev.
  rewrite append_cons, append_nil_l. simpl. rewrite Ascii.eqb_refl.
  rewrite rsplit_go_acc.
  now rewrite rev_acc_append, append_empty_r, rev_involutive.
Qed.

Lemma rsplit_2 (base seg last : string) :
  no_char "/" seg = true -> no_char "/" last = true ->
  rsplit "/" 2 (base +:+ "/" +:+ seg +:+ "/" +:+ last) = [base; seg; last].
Proof.
  intros Hseg Hlast.
  replace (base +:+ "/" +:+ seg +:+ "/" +:+ last)
    with ((base +:+ String "/" seg) +:+ String "/" last)
    by (rewrite append_assoc; reflexivity).
  rewrite (rsplit_snoc "/" 1 _ last Hlast).
  rewrite (rsplit_snoc "/" 0 base seg Hseg), rsplit_0. reflexivity.
Qed.

Lemma rsplit_no_sep (sep : ascii) (n : nat) (s : string) :
  no_char sep s = true -> rsplit sep n s = [s].
Proof.
  intros H. unfold rsplit.
  rewrite <- (append_empty_r (Str.rev s)).
  rewrite rsplit_go_scan by now rewrite no_char_rev.
  simpl. now rewrite rev_acc_append, append_empty_r, rev_involutive.
Qed.

(** ** What the constructor sets *)

(** A completed construction, read backwards. *)
Lemma init_Ok_inv (E : env) (url0 : string) (name save_path0 : option string)
  (num_chapters : option Z)
  (chapter_range : option (gmap string (option Z)))
  (w w' : world) (obj : WebtoonSaver) :
  init E url0 name save_path0 num_chapters chapter_range w = (Ok obj, w') ->
  exists name1 dict start stop,
    match name with
    | Some n => n = name1
    | None => index (rsplit "/" 2 (site_url url0)) 1 = Ok name1
    end
    /\ chapter_range = Some dict
    /\ dict !! "start" = Some start
    /\ dict !! "end" = Some stop
    /\ (Stdlib.Strings.String.eqb
          (snd (head_tail (comic_save_path E save_path0 (slugify E name1))))
          "." = false ->
        dir_exists (comic_save_path E save_path0 (slugify E name1)) (fs w')
        = true)
    /\ w' = world_with_dir (comic_save_path E save_path0 (slugify E name1)) w
    /\ obj = {| url := site_url url0;
                database := head (matching_rules url0);
                comic_name := slugify E name1;
                save_path := comic_save_path E save_path0 (slugify E name1);
                chapter_start := match num_chapters with
                                 | Some _ => Some 1
                                 | None => start
                                 end;
                chapter_end := match num_chapters with
                               | Some n => Some n
                               | None => stop
                               end;
                chapter_urls := [] |}.
Proof.
  destruct (init_run E url0 name save_path0 num_chapters chapter_range w)
    as [(e & _ & _ & ->) | (name1 & r1 & Hname & _ & _ & Hmade & ->)];
    [discriminate |].
  destruct r1 as [[]|e]; [| discriminate].
  destruct chapter_range as [dict|]; [| discriminate].
  destruct (dict !! "start") as [start|] eqn:Hs; [| discriminate].
  destruct (dict !! "end") as [stop|] eqn:He; [| discriminate].
  intros [= <- <-].
  exists name1, dict, start, stop. repeat split; auto.
Qed.

(** X7.  Without a name, the comic is named after the piece of the URL
    between its last two slashes; for the second site, whose URL gets a
    slash added, after the piece that follows the last slash.  So the
    URL of the first site has to end in a slash to name the comic after
    its last segment, and a URL of the second site that ends in a slash
    gives the empty name. *)
Theorem comic_name_from_url (E : env) (base seg last : string)
  (save_path0 : option string) (num_chapters : option Z)
  (chapter_range : option (gmap string (option Z)))
  (w w' : world) (obj : WebtoonSaver) :
  no_char "/" seg = true ->
  no_char "/" last = true ->
  let url0 := base +:+ "/" +:+ seg +:+ "/" +:+ last in
  init E url0 None save_path0 num_chapters chapter_range w = (Ok obj, w') ->
  comic_name obj
  = slugify E (if Str.contains "webtoonscan.com" url0 then seg
               else if Str.contains "manhwa18.cc" url0 then last
               else seg).
Proof.
  intros Hseg Hlast url0 Hinit.
  destruct (init_Ok_inv _ _ _ _ _ _ _ _ _ Hinit)
    as (name1 & dict & start & stop & Hname & _ & _ & _ & _ & _ & ->).
  simpl. f_equal. unfold site_url in Hname.
  assert (H2 : rsplit "/" 2 url0 = [base; seg; last])
    by (apply rsplit_2; assumption).
  assert (H3 : rsplit "/" 2 (url0 +:+ "/") = [base +:+ "/" +:+ seg; last; ""]).
  { replace (url0 +:+ "/")
      with ((base +:+ "/" +:+ seg) +:+ "/" +:+ last +:+ "/" +:+ "")
      by (unfold url0; rewrite !append_assoc; reflexivity).
    apply rsplit_2; [exact Hlast | reflexivity]. }
  destruct (Str.contains "webtoonscan.com" url0).
  - rewrite H2 in Hname. now inversion Hname.
  - destruct (Str.contains "manhwa18.cc" url0).
    + rewrite H3 in Hname. now inversion Hname.
    + rewrite H2 in Hname. now inversion Hname.
Qed.

(** The sample comic is named [abc]; the same URL without its last
    slash names it [manhwa]. *)
Lemma comic_name_from_url_witness :
  let make := fun u =>
    init sample_env u None (Some "/c/") None default_chapter_range
      sample_world in
  (exists obj w', make "https://webtoonscan.com/manhwa/abc/" = (Ok obj, w')
                  /\ comic_name obj = "abc")
  /\ (exists obj w', make "https://webtoonscan.com/manhwa/abc" = (Ok obj, w')
                     /\ comic_name obj = "manhwa").
Proof.
  intros make. split.
  - destruct (make "https://webtoonscan.com/manhwa/abc/") as [[obj|e] w']
      eqn:H; [| vm_compute in H; discriminate].
    exists obj, w'. split; [reflexivity |].
    exact (comic_name_from_url sample_env "https://webtoonscan.com/manhwa"
             "abc" "" (Some "/c/") None default_chapter_range sample_world w'
             obj eq_refl eq_refl H).
  - destruct (make "https://webtoonscan.com/manhwa/abc") as [[obj|e] w']
      eqn:H; [| vm_compute in H; discriminate].
    exists obj, w'. split; [reflexivity |].
    exact (comic_name_from_url sample_env "https://webtoonscan.com"
             "manhwa" "abc" (Some "/c/") None default_chapter_range
             sample_world w' obj eq_refl eq_refl H).
Defined.

(** A path above [name] is there afterwards when the paths between the
    two were missing, unless its last component is [.]. *)
Lemma fs_makedirs_ancestor (n : nat) :
  forall (name : string) (f : filesystem) (i : nat) (a : string),
    ancestors_from n name !! i = Some a ->
    (forall j b, (j < i)%nat -> ancestors_from n name !! j = Some b ->
                 path_exists b f = false) ->
    Stdlib.Strings.String.eqb (snd (head_tail a)) "." = false ->
    path_exists a (fs_makedirs n name f) = true.
Proof.
  induction n as [|n IH]; intros name f i a Hi Hmiss Hdot; [discriminate |].
  cbn [ancestors_from fs_makedirs] in *.
  destruct (head_tail name) as [head tail].
  destruct (Path.nonempty head && Path.nonempty tail); [| discriminate].
  cbn [andb].
  assert (Hup : path_exists a (fs_makedirs n head f) = true ->
                path_exists a (if Stdlib.Strings.String.eqb tail "."
                               then fs_makedirs n head f
                               else fs_mkdir name (fs_makedirs n head f))
                = true).
  { intros H. destruct (Stdlib.Strings.String.eqb tail ".");
      [exact H | now apply path_exists_fs_mkdir]. }
  destruct i as [|i].
  - injection Hi as ->.
    destruct (path_exists a f) eqn:He; cbn [negb];
      [now apply path_exists_fs_mkdir |].
    apply Hup. now apply fs_makedirs_self.
  - rewrite (Hmiss 0%nat head) by (reflexivity || lia). cbn [negb].
    apply Hup. apply (IH head f i a Hi); [| exact Hdot].
    intros j b Hj Hb. apply (Hmiss (S j) b); [lia | exact Hb].
Qed.

(** X8.  A completed construction has seen to the directory of the
    comic.  When the directory was there, the world is as it was.  When
    it was not, [os.makedirs] has made it together with the directories
    above it that were missing, and nothing else has changed: the
    files, the directories that were there with what they hold, the
    requests and the printed lines are as before, and a new directory is
    empty and is the directory of the comic or a path above it.
    Afterwards the directory is there, and so is a path above it when
    the paths between the two were missing (a path that ends in the
    component [.] aside, which [os.makedirs] does not make).  The
    directory is the given root, or [~/Desktop/Comics/] expanded,
    followed by the slugified name and a slash. *)
Theorem init_makes_directory (E : env) (url0 : string)
  (name save_path0 : option string) (num_chapters : option Z)
  (chapter_range : option (gmap string (option Z)))
  (w w' : world) (obj : WebtoonSaver) :
  init E url0 name save_path0 num_chapters chapter_range w = (Ok obj, w') ->
  let path := save_path obj in
  path = match save_path0 with
         | Some p => p +:+ comic_name obj +:+ "/"
         | None => expanduser E ("~/Desktop/Comics/" +:+ comic_name obj +:+ "/")
         end
  /\ (forall n, name = Some n -> comic_name obj = slugify E n)
  /\ w' = world_with_dir path w
  /\ (dir_exists path (fs w) = true -> w' = w)
  /\ files (fs w') = files (fs w)
  /\ net w' = net w
  /\ out w' = out w
  /\ (forall d m, dirs (fs w) !! d = Some m -> dirs (fs w') !! d = Some m)
  /\ (forall d m,
        dirs (fs w) !! d = None -> dirs (fs w') !! d = Some m ->
        m = ∅ /\ (d = path \/ d ∈ ancestors path))
  /\ (snd (head_tail path) <> "."%string -> dir_exists path (fs w') = true)
  /\ (forall i a,
        dir_exists path (fs w) = false ->
        ancestors path !! i = Some a ->
        (forall j b, (j < i)%nat -> ancestors path !! j = Some b ->
                     path_exists b (fs w) = false) ->
        snd (head_tail a) <> "."%string ->
        path_exists a (fs w') = true).
Proof.
  intros Hinit.
  destruct (init_Ok_inv _ _ _ _ _ _ _ _ _ Hinit)
    as (name1 & dict & start & stop & Hname & _ & _ & _ & Hmade & -> & ->).
  cbn [save_path comic_name]. cbv zeta.
  set (path := comic_save_path E save_path0 (slugify E name1)) in *.
  split; [reflexivity |].
  split; [intros n ->; now subst |].
  split; [reflexivity |].
  split; [intros Hd; unfold world_with_dir; now rewrite Hd |].
  split; [apply world_with_dir_files |].
  split; [apply world_with_dir_quiet |].
  split; [apply world_with_dir_quiet |].
  unfold world_with_dir in *.
  destruct (dir_exists path (fs w)) eqn:Hd.
  - split; [auto |]. split; [congruence |].
    split; [auto | discriminate].
  - cbn [fs with_fs] in *.
    split; [intros d m; apply fs_makedirs_keeps |]. split.
    { intros d m Hnone Hsome.
      destruct (fs_makedirs_new _ _ _ _ _ Hnone Hsome) as (-> & Hin & _).
      auto. }
    split.
    { intros Hdot. apply Hmade.
      now apply Stdlib.Strings.String.eqb_neq. }
    intros i a _ Hi Hmiss Hdot.
    apply (fs_makedirs_ancestor _ path (fs w) i a Hi Hmiss).
    now apply Stdlib.Strings.String.eqb_neq.
Qed.

(** The first run for a comic: the directory of the comics and the
    directory of the comic are made; the home directory stays as it
    was. *)
Lemma init_makes_directory_witness :
  exists obj w',
    init sample_env "https://webtoonscan.com/manhwa/xyz/" (Some "xyz")
      (Some "/home/Comics/") None default_chapter_range
      sample_world_first_run = (Ok obj, w')
    /\ save_path obj = "/home/Comics/xyz/"%string
    /\ path_exists "/home/Comics" (fs sample_world_first_run) = false
    /\ dirs (fs w') !! "/home/Comics/xyz/" = Some ∅
    /\ path_exists "/home/Comics" (fs w') = true
    /\ dirs (fs w') !! "/home" = Some {["notes.txt" := []]}.
Proof.
  destruct (init sample_env "https://webtoonscan.com/manhwa/xyz/"
              (Some "xyz") (Some "/home/Comics/") None default_chapter_range
              sample_world_first_run) as [[obj|e] w'] eqn:H;
    [| vm_compute in H; discriminate].
  exists obj, w'. split; [reflexivity |].
  destruct (init_makes_directory sample_env _ _ _ _ _ _ _ _ H)
    as (Hpath & Hname & _ & _ & _ & _ & _ & Hkeep & Hnew & Hthere & Habove).
  assert (Hp : save_path obj = "/home/Comics/xyz/"%string).
  { rewrite Hpath, (Hname "xyz" eq_refl). reflexivity. }
  rewrite Hp in *.
  split; [reflexivity |]. split; [reflexivity |].
  assert (Hdir : dir_exists "/home/Comics/xyz/" (fs w') = true)
    by (apply Hthere; discriminate).
  apply dir_exists_lookup in Hdir as [m Hm].
  split; [| split].
  - rewrite Hm. f_equal. now apply (Hnew "/home/Comics/xyz/"%string m).
  - apply (Habove 0%nat "/home/Comics"%string); try reflexivity.
    + intros j b Hj. lia.
    + discriminate.
  - apply Hkeep. reflexivity.
Defined.

(** X9.  A [chapter_range] that is [None] or lacks a key makes the
    constructor raise, [TypeError] or [KeyError], also when
    [num_chapters] is given, and only after the directory of the comic
    has been made. *)
Theorem init_range_errors (E : env) (url0 n : string)
  (save_path0 : option string) (num_chapters : option Z)
  (chapter_range : option (gmap string (option Z))) (w : world) :
  let path := comic_save_path E save_path0 (slugify E n) in
  file_exists path (fs w) = false ->
  (chapter_range = None ->
   init E url0 (Some n) save_path0 num_chapters chapter_range w
   = (Raise TypeError, world_with_dir path w))
  /\ (forall dict,
        chapter_range = Some dict ->
        dict !! "start" = None \/ dict !! "end" = None ->
        init E url0 (Some n) save_path0 num_chapters chapter_range w
        = (Raise KeyError, world_with_dir path w)).
Proof.
  intros path Hf.
  destruct (init_run E url0 (Some n) save_path0 num_chapters chapter_range w)
    as [(e & Hn & _) | (name1 & r & <- & _ & Hok & _ & Hrun)];
    [discriminate |].
  rewrite Hrun, (Hok Hf). fold path. split.
  - intros ->. reflexivity.
  - intros dict -> [Hs | He].
    + now rewrite Hs.
    + rewrite He. destruct (dict !! "start"); reflexivity.
Qed.

Lemma init_range_errors_witness :
  fst (init sample_env sample_index (Some "abc") (Some "/c/") (Some 3) None
         sample_world) = Raise TypeError
  /\ fst (init sample_env sample_index (Some "abc") (Some "/c/") (Some 3)
            (Some {["start" := Some 1]}) sample_world) = Raise KeyError.
Proof.
  split.
  - rewrite (proj1 (init_range_errors sample_env sample_index "abc"
                      (Some "/c/") (Some 3) None sample_world eq_refl)
               eq_refl).
    reflexivity.
  - rewrite (proj2 (init_range_errors sample_env sample_index "abc"
                      (Some "/c/") (Some 3) (Some {["start" := Some 1]})
                      sample_world eq_refl)
               {["start" := Some 1]} eq_refl ltac:(right; reflexivity)).
    reflexivity.
Defined.

(** X10.  Without a name, a URL of the first site or of an unknown site
    that has no slash makes the constructor raise [IndexError], before
    anything is made. *)
Theorem init_url_without_slash (E : env) (url0 : string)
  (save_path0 : option string) (num_chapters : option Z)
  (chapter_range : option (gmap string (option Z))) (w : world) :
  no_char "/" url0 = true ->
  site_url url0 = url0 ->
  init E url0 None save_path0 num_chapters chapter_range w
  = (Raise IndexError, w).
Proof.
  intros Hno Hsite. rewrite init_unfold. unfold bind at 1, lift.
  rewrite Hsite, (rsplit_no_sep "/" 2 url0 Hno). reflexivity.
Qed.

Lemma init_url_without_slash_witness :
  init sample_env "webtoonscan.com" None None None default_chapter_range
    sample_world = (Raise IndexError, sample_world).
Proof.
  apply init_url_without_slash; reflexivity.
Defined.

(** ** The chapter index *)

Lemma digit_runs_isdigit (s : string) :
  forall (cur : string) (in_digits : bool),
    (if in_digits then Str.isdigit (Str.rev cur) = true else cur = ""%string) ->
    Forall (fun r => Str.isdigit r = true) (Str.digit_runs cur in_digits s).
Proof.
  induction s as [|c s IH]; intros cur b Hcur.
  - simpl. destruct b; [| constructor].
    constructor; [exact Hcur | constructor].
  - simpl. destruct (Str.is_digit c) eqn:Hc.
    + apply IH. rewrite rev_cons. destruct b.
      * apply isdigit_snoc; [now apply isdigit_all_digits | exact Hc].
      * subst. apply isdigit_snoc; [reflexivity | exact Hc].
    + destruct b.
      * constructor; [exact Hcur | now apply IH].
      * now apply IH.
Qed.

Lemma digit_runs_no_digit (s : string) :
  no_digit s = true -> Str.digit_runs "" false s = [].
Proof.
  induction s as [|c s IH]; [reflexivity |].
  simpl. intros H. apply andb_true_iff in H as [Hc Hs].
  apply negb_true_iff in Hc. rewrite Hc. now apply IH.
Qed.

Lemma add_chapter_inv (self : WebtoonSaver) (d : ordered_dict)
  (href : string) (w : world) :
  snd (add_chapter self d href w) = w
  /\ (no_digit href = true -> fst (add_chapter self d href w) = Raise IndexError)
  /\ (forall e, fst (add_chapter self d href w) = Raise e -> e = IndexError)
  /\ (forall d', fst (add_chapter self d href w) = Ok d' ->
                 d' = d
                 \/ exists k v, Str.isdigit k = true /\ d' = od_set k v d).
Proof.
  unfold add_chapter, bind, lift, ret, index, Str.re_findall_digits.
  pose proof (digit_runs_isdigit href "" false eq_refl) as Hruns.
  pose proof (digit_runs_no_digit href) as Hnone.
  destruct (Str.digit_runs "" false href) as [|k runs]; simpl.
  - split; [reflexivity |]. split; [reflexivity |].
    split; [intros e [= <-]; reflexivity | discriminate].
  - apply Forall_cons in Hruns as [Hk _].
    assert (Hno : no_digit href = true -> False)
      by (intros H; specialize (Hnone H); discriminate).
    destruct (Str.contains "webtoonscan.com" (url self)); simpl.
    { split; [reflexivity |]. split; [intros H; now destruct (Hno H) |].
      split; [discriminate |]. intros d' [= <-]. right. eauto. }
    destruct (Str.contains "manhwa18.cc" (url self)); simpl.
    { destruct (rsplit "/" 3 (url self) !! 0%nat) as [base|]; simpl.
      - split; [reflexivity |]. split; [intros H; now destruct (Hno H) |].
        split; [discriminate |]. intros d' [= <-]. right. eauto.
      - split; [reflexivity |]. split; [reflexivity |].
        split; [intros e [= <-]; reflexivity | discriminate]. }
    split; [reflexivity |]. split; [intros H; now destruct (Hno H) |].
    split; [discriminate |]. intros d' [= <-]. now left.
Qed.

Lemma od_set_keys (k v : string) (d : ordered_dict) :
  od_keys (od_set k v d)
  = if bool_decide (k ∈ od_keys d) then od_keys d else od_keys d ++ [k].
Proof.
  induction d as [|[k' v'] d IH]; [reflexivity |].
  simpl. destruct (Stdlib.Strings.String.eqb_spec k k') as [-> | Hne].
  - simpl. rewrite bool_decide_eq_true_2 by apply list_elem_of_here.
    reflexivity.
  - simpl. rewrite IH.
    destruct (bool_decide (k ∈ od_keys d)) eqn:Hin.
    + apply bool_decide_eq_true in Hin.
      rewrite bool_decide_eq_true_2 by (now apply list_elem_of_further).
      reflexivity.
    + apply bool_decide_eq_false in Hin.
      rewrite bool_decide_eq_false_2; [reflexivity |].
      intros H. apply elem_of_cons in H as [H | H]; [congruence | auto].
Qed.

(** Setting a key of an ordered dictionary keeps every key once. *)
Lemma od_set_NoDup (k v : string) (d : ordered_dict) :
  NoDup (od_keys d) -> NoDup (od_keys (od_set k v d)).
Proof.
  intros H. rewrite od_set_keys.
  destruct (bool_decide (k ∈ od_keys d)) eqn:Hin; [exact H |].
  apply bool_decide_eq_false in Hin.
  apply NoDup_app. split; [exact H |]. split.
  - intros x Hx Hx'. apply list_elem_of_singleton in Hx'. now subst.
  - apply NoDup_singleton.
Qed.

Lemma od_set_isdigit (k v : string) (d : ordered_dict) :
  Str.isdigit k = true ->
  Forall (fun x => Str.isdigit x = true) (od_keys d) ->
  Forall (fun x => Str.isdigit x = true) (od_keys (od_set k v d)).
Proof.
  intros Hk H. rewrite od_set_keys.
  destruct (bool_decide (k ∈ od_keys d)); [exact H |].
  apply Forall_app. split; [exact H | now constructor].
Qed.

Lemma add_chapters_inv (self : WebtoonSaver) (links : list string) :
  forall (d : ordered_dict) (w : world),
    snd (add_chapters self d links w) = w
    /\ (Exists (fun href => no_digit href = true) links ->
        fst (add_chapters self d links w) = Raise IndexError)
    /\ (forall d', fst (add_chapters self d links w) = Ok d' ->
                   NoDup (od_keys d) ->
                   Forall (fun x => Str.isdigit x = true) (od_keys d) ->
                   NoDup (od_keys d')
                   /\ Forall (fun x => Str.isdigit x = true) (od_keys d')).
Proof.
  induction links as [|href links IH]; intros d w.
  - simpl. split; [reflexivity |]. split.
    + intros H. inversion H.
    + intros d' [= <-]. auto.
  - simpl. unfold bind.
    destruct (add_chapter_inv self d href w) as (Hw & Hno & Herr & Hok).
    destruct (add_chapter self d href w) as [[d1|e] w1]; simpl in *; subst.
    + destruct (IH d1 w) as (Hw' & Hex & Hinv).
      split; [exact Hw' |]. split.
      * intros H. apply Exists_cons in H as [H | H];
          [specialize (Hno H); discriminate | now apply Hex].
      * intros d' Hd' Hnd Hdig.
        destruct (Hok d1 eq_refl) as [-> | (k & v & Hk & ->)].
        -- now apply Hinv.
        -- apply Hinv; [exact Hd' | now apply od_set_NoDup
                        | now apply od_set_isdigit].
    + split; [reflexivity |]. split.
      * intros _. f_equal. now apply Herr.
      * discriminate.
Qed.

Lemma filter_keys_sublist (f : string * string -> bool) (d : ordered_dict) :
  sublist (od_keys (List.filter f d)) (od_keys d).
Proof.
  induction d as [|kv d IH]; simpl; [constructor |].
  destruct (f kv); simpl; [now apply sublist_skip | now apply sublist_cons].
Qed.

Lemma filter_start_In (start : option Z) (d : ordered_dict)
  (kv : string * string) :
  In kv (filter_start start d) ->
  In kv d /\ forall s, start = Some s -> s <> 0 -> s <= Str.int (fst kv).
Proof.
  unfold filter_start. destruct start as [s|]; [| intros H; split; [exact H |]; discriminate].
  destruct (Z.eqb_spec s 0) as [-> | Hs].
  - intros H. split; [exact H |]. intros ? [= <-] Hne. congruence.
  - rewrite filter_In, Z.leb_le. intros [H1 H2]. split; [exact H1 |].
    intros ? [= <-] _. exact H2.
Qed.

Lemma filter_end_In (stop : option Z) (d : ordered_dict)
  (kv : string * string) :
  In kv (filter_end stop d) ->
  In kv d /\ forall e, stop = Some e -> e <> 0 -> Str.int (fst kv) <= e.
Proof.
  unfold filter_end. destruct stop as [e|]; [| intros H; split; [exact H |]; discriminate].
  destruct (Z.eqb_spec e 0) as [-> | He].
  - intros H. split; [exact H |]. intros ? [= <-] Hne. congruence.
  - rewrite filter_In, Z.leb_le. intros [H1 H2]. split; [exact H1 |].
    intros ? [= <-] _. exact H2.
Qed.

Lemma filter_start_sublist (start : option Z) (d : ordered_dict) :
  sublist (od_keys (filter_start start d)) (od_keys d).
Proof.
  unfold filter_start. destruct start as [s|]; [| reflexivity].
  destruct (s =? 0); [reflexivity | apply filter_keys_sublist].
Qed.

Lemma filter_end_sublist (stop : option Z) (d : ordered_dict) :
  sublist (od_keys (filter_end stop d)) (od_keys d).
Proof.
  unfold filter_end. destruct stop as [e|]; [| reflexivity].
  destruct (e =? 0); [reflexivity | apply filter_keys_sublist].
Qed.

Lemma report_missing_world (self : WebtoonSaver) (d : ordered_dict)
  (w : world) :
  fs (snd (report_missing self d w)) = fs w
  /\ net (snd (report_missing self d w)) = net w.
Proof.
  unfold report_missing, bind, lift, when, print, ret.
  destruct (rbind (index (od_keys d) 0) _) as [a|e]; [| auto].
  destruct (rbind (index_last (od_keys d)) _) as [b|e]; [| auto].
  destruct (0 <? a - Z.of_nat (length (od_keys d))); auto.
Qed.

Lemma getChapterURLs_Ok_inv (E : env) (self obj : WebtoonSaver)
  (w w' : world) :
  getChapterURLs E self w = (Ok obj, w') ->
  NoDup (od_keys (chapter_urls obj))
  /\ Forall (fun k => Str.isdigit k = true) (od_keys (chapter_urls obj))
  /\ (forall kv, In kv (chapter_urls obj) ->
        (forall s, chapter_start self = Some s -> s <> 0 ->
                   s <= Str.int (fst kv))
        /\ (forall e, chapter_end self = Some e -> e <> 0 ->
                      Str.int (fst kv) <= e))
  /\ (url obj, database obj, comic_name obj, save_path obj,
      chapter_start obj, chapter_end obj)
     = (url self, database self, comic_name self, save_path self,
        chapter_start self, chapter_end self)
  /\ fs w' = fs w
  /\ net w' = url self :: net w.
Proof.
  unfold getChapterURLs, bind at 1, requests_get, bind at 1, log_request.
  destruct (page_at E (url self)) as [text|]; [| discriminate].
  unfold ret at 1. unfold bind at 1, get_database.
  destruct (database self) as [rule|] eqn:Hdb; [| discriminate].
  unfold ret at 1. unfold bind at 1.
  set (w1 := {| fs := fs w; net := url self :: net w; out := out w |}).
  destruct (add_chapters_inv self
              (find_chapter_links E (chapter_class rule) text) [] w1)
    as (Hw1 & _ & Hinv).
  destruct (add_chapters self [] _ w1) as [[d|e] w2]; [| discriminate].
  simpl in Hw1. subst w2.
  destruct (Hinv d eq_refl (NoDup_nil_2) (Forall_nil_2 _)) as [Hnd Hdig].
  unfold bind at 1.
  destruct (report_missing_world self d w1) as [Hfs Hnet].
  destruct (report_missing self d w1) as [[[]|e] w3]; [| discriminate].
  unfold ret. intros H. inversion H; subst; clear H. simpl in *.
  split; [| split; [| split; [| split; [reflexivity | auto]]]].
  - eapply sublist_NoDup; [exact Hnd |].
    etransitivity; [apply filter_end_sublist | apply filter_start_sublist].
  - apply Forall_forall. intros k Hk.
    rewrite Forall_forall in Hdig. apply Hdig.
    eapply elem_of_sublist; [exact Hk |].
    etransitivity; [apply filter_end_sublist | apply filter_start_sublist].
  - intros kv Hkv. apply filter_end_In in Hkv as [Hkv He].
    apply filter_start_In in Hkv as [_ Hs]. auto.
Qed.


(** X11.  The index [getChapterURLs] returns holds every identifier
    once; every identifier is a non-empty run of digits; the
    identifiers are within the bounds that are given and not 0; the
    other attributes are those of the instance; the index page has been
    requested once and the file system is as it was. *)
Theorem chapter_index_invariant (E : env) (self obj : WebtoonSaver)
  (w w' : world) :
  getChapterURLs E self w = (Ok obj, w') ->
  NoDup (od_keys (chapter_urls obj))
  /\ Forall (fun k => Str.isdigit k = true) (od_keys (chapter_urls obj))
  /\ (forall kv, In kv (chapter_urls obj) ->
        (forall s, chapter_start self = Some s -> s <> 0 ->
                   s <= Str.int (fst kv))
        /\ (forall e, chapter_end self = Some e -> e <> 0 ->
                      Str.int (fst kv) <= e))
  /\ (url obj, database obj, comic_name obj, save_path obj,
      chapter_start obj, chapter_end obj)
     = (url self, database self, comic_name self, save_path self,
        chapter_start self, chapter_end self)
  /\ fs w' = fs w
  /\ net w' = url self :: net w.
Proof. apply getChapterURLs_Ok_inv. Qed.

(** The index of the sample comic from chapter 2 on. *)
Lemma chapter_index_invariant_witness :
  let self := {| url := sample_index; database := Some webtoonscan_rule;
                 comic_name := "abc"; save_path := "/c/abc/";
                 chapter_start := Some 2; chapter_end := None;
                 chapter_urls := [] |} in
  exists obj w',
    getChapterURLs sample_env self sample_world = (Ok obj, w')
    /\ od_keys (chapter_urls obj) = ["3"; "2"]
    /\ NoDup (od_keys (chapter_urls obj))
    /\ net w' = [sample_index].
Proof.
  intros self.
  destruct (getChapterURLs sample_env self sample_world) as [[obj|e] w']
    eqn:H; [| vm_compute in H; discriminate].
  exists obj, w'. split; [reflexivity |].
  destruct (chapter_index_invariant sample_env self obj sample_world w' H)
    as (Hnd & _ & _ & _ & _ & Hnet).
  split; [| split; [exact Hnd | exact Hnet]].
  vm_compute in H. injection H as <- _. reflexivity.
Defined.

(** X12.  A chapter link whose URL has no digit makes [getChapterURLs]
    raise [IndexError] (line 96), once the index page has been
    requested; no index is built. *)
Theorem link_without_digit_raises (E : env) (self : WebtoonSaver)
  (w : world) (text : string) (rule : site_rule) :
  page_at E (url self) = Some text ->
  database self = Some rule ->
  Exists (fun href => no_digit href = true)
    (find_chapter_links E (chapter_class rule) text) ->
  getChapterURLs E self w
  = (Raise IndexError, world_with_request (url self) w).
Proof.
  intros Hpage Hdb Hex.
  unfold getChapterURLs, bind at 1, requests_get, bind at 1, log_request.
  rewrite Hpage. unfold ret at 1. unfold bind at 1, get_database.
  rewrite Hdb. unfold ret at 1. unfold bind at 1.
  set (w1 := {| fs := fs w; net := url self :: net w; out := out w |}).
  destruct (add_chapters_inv self
              (find_chapter_links E (chapter_class rule) text) [] w1)
    as (Hw1 & Hraise & _).
  specialize (Hraise Hex).
  destruct (add_chapters self [] _ w1) as [r w2]. simpl in *. now subst.
Qed.

Lemma link_without_digit_raises_witness :
  getChapterURLs
    (sample_env_with_links [sample_chapter "2"; "https://x.org/prologue/"])
    sample_self sample_world
  = (Raise IndexError, world_with_request sample_index sample_world).
Proof.
  apply (link_without_digit_raises _ sample_self sample_world "index"
           webtoonscan_rule); [reflexivity | reflexivity |].
  apply Exists_cons_tl, Exists_cons_hd. reflexivity.
Defined.

(** ** The whole run *)

Lemma run_all_skips {A} (tasks : list (M A)) (a : A) (w : world) :
  Forall (fun t => t w = (Ok a, w)) tasks ->
  run_all tasks w = (map (fun _ => Ok a) tasks, w).
Proof.
  induction 1 as [|t ts Ht _ IH]; [reflexivity |].
  simpl. now rewrite Ht, IH.
Qed.

Lemma run_webtoonsaver_unfold (E : env) (url0 : string)
  (num_chapters : option Z)
  (chapter_range : option (gmap string (option Z))) (n_workers : Z)
  (w w1 w2 : world) (obj obj1 : WebtoonSaver) :
  init E url0 None None num_chapters chapter_range w = (Ok obj, w1) ->
  getChapterURLs E obj w1 = (Ok obj1, w2) ->
  run_webtoonsaver E url0 num_chapters chapter_range n_workers w
  = if effective_workers E n_workers <? 1 then (Raise ValueError, w2)
    else (gather
            (map (fun kv => run_process_chapter E obj1 (fst kv) (snd kv)
                              (save_path obj1))
               (chapter_urls obj1)) ;; ret tt) w2.
Proof.
  intros Hinit Hget. unfold run_webtoonsaver, bind at 1. rewrite Hinit.
  unfold bind at 1. rewrite Hget. fold (effective_workers E n_workers).
  destruct (effective_workers E n_workers <? 1); reflexivity.
Qed.

(** X13.  When every chapter of the index already has its document,
    [run_webtoonsaver] requests the index page and nothing else: the
    world it leaves is the one [getChapterURLs] left. *)
Theorem rerun_requests_only_index (E : env) (url0 : string)
  (num_chapters : option Z)
  (chapter_range : option (gmap string (option Z))) (n_workers : Z)
  (w w1 w2 : world) (obj obj1 : WebtoonSaver) :
  init E url0 None None num_chapters chapter_range w = (Ok obj, w1) ->
  getChapterURLs E obj w1 = (Ok obj1, w2) ->
  Forall (fun kv => file_exists (pdf_path (save_path obj1) (fst kv)) (fs w2)
                    = true) (chapter_urls obj1) ->
  1 <= effective_workers E n_workers ->
  run_webtoonsaver E url0 num_chapters chapter_range n_workers w = (Ok tt, w2)
  /\ net w2 = url obj :: net w.
Proof.
  intros Hinit Hget Hdone Hworkers. split.
  - rewrite (run_webtoonsaver_unfold _ _ _ _ _ _ _ _ _ _ Hinit Hget).
    destruct (Z.ltb_spec (effective_workers E n_workers) 1); [lia |].
    unfold bind, gather.
    rewrite (run_all_skips _ tt w2).
    + assert (Hc : forall l : list (M unit),
                 collect (map (fun _ => @Ok unit tt) l)
                 = Ok (map (fun _ => tt) l)).
      { induction l as [|x l IH]; [reflexivity |]. simpl. now rewrite IH. }
      rewrite Hc. reflexivity.
    + apply Forall_forall. intros t Ht.
      apply list_elem_of_fmap in Ht as (kv & -> & Hkv).
      rewrite Forall_forall in Hdone. specialize (Hdone kv Hkv).
      unfold run_process_chapter, process_chapter, bind, isfile.
      now rewrite Hdone.
  - destruct (init_quiet _ _ _ _ _ _ _ _ _ Hinit) as [Hnet _].
    destruct (getChapterURLs_Ok_inv _ _ _ _ _ Hget)
      as (_ & _ & _ & _ & _ & Hn).
    now rewrite Hn, Hnet.
Qed.

Lemma rerun_requests_only_index_witness :
  run_webtoonsaver sample_env sample_index None default_chapter_range (-1)
    sample_world_all_done
  = (Ok tt, world_with_request sample_index sample_world_all_done).
Proof.
  destruct (init sample_env sample_index None None None
              default_chapter_range sample_world_all_done)
    as [[obj|e] w1] eqn:Hinit; [| vm_compute in Hinit; discriminate].
  destruct (getChapterURLs sample_env obj w1) as [[obj1|e] w2] eqn:Hget.
  - destruct (rerun_requests_only_index sample_env sample_index None
                default_chapter_range (-1) sample_world_all_done w1 w2
                obj obj1 Hinit Hget) as [Hrun _].
    + vm_compute in Hinit. injection Hinit as <- <-.
      vm_compute in Hget. injection Hget as <- <-.
      repeat constructor.
    + vm_compute. discriminate.
    + rewrite Hrun. f_equal.
      vm_compute in Hinit. injection Hinit as <- <-.
      vm_compute in Hget. injection Hget as _ <-. reflexivity.
  - vm_compute in Hinit. injection Hinit as <- <-.
    vm_compute in Hget. discriminate.
Defined.

(** X14.  A number of workers below 1 (other than -1), or no CPU, makes
    [run_webtoonsaver] raise [ValueError] when the pool is made: the
    comic has been constructed and the index page requested, and no
    chapter is processed.  A number above the CPU count counts as the
    CPU count. *)
Theorem no_worker_raises (E : env) (url0 : string)
  (num_chapters : option Z)
  (chapter_range : option (gmap string (option Z))) (n_workers : Z)
  (w w1 w2 : world) (obj obj1 : WebtoonSaver) :
  init E url0 None None num_chapters chapter_range w = (Ok obj, w1) ->
  getChapterURLs E obj w1 = (Ok obj1, w2) ->
  (effective_workers E n_workers < 1 ->
   run_webtoonsaver E url0 num_chapters chapter_range n_workers w
   = (Raise ValueError, w2))
  /\ (cpu_count E < n_workers ->
      run_webtoonsaver E url0 num_chapters chapter_range n_workers w
      = run_webtoonsaver E url0 num_chapters chapter_range (cpu_count E) w).
Proof.
  intros Hinit Hget. split.
  - intros Hlt.
    rewrite (run_webtoonsaver_unfold _ _ _ _ _ _ _ _ _ _ Hinit Hget).
    destruct (Z.ltb_spec (effective_workers E n_workers) 1); [reflexivity | lia].
  - intros Hlt.
    rewrite !(run_webtoonsaver_unfold _ _ _ _ _ _ _ _ _ _ Hinit Hget).
    assert (He : effective_workers E n_workers
                 = effective_workers E (cpu_count E)).
    { unfold effective_workers.
      destruct (Z.eqb_spec n_workers (-1)), (Z.eqb_spec (cpu_count E) (-1)),
        (Z.ltb_spec (cpu_count E) n_workers),
        (Z.ltb_spec (cpu_count E) (cpu_count E)); lia. }
    now rewrite He.
Qed.

Lemma no_worker_raises_witness :
  fst (run_webtoonsaver sample_env sample_index None default_chapter_range 0
         sample_world_all_done) = Raise ValueError.
Proof.
  destruct (init sample_env sample_index None None None
              default_chapter_range sample_world_all_done)
    as [[obj|e] w1] eqn:Hinit; [| vm_compute in Hinit; discriminate].
  destruct (getChapterURLs sample_env obj w1) as [[obj1|e] w2] eqn:Hget.
  - rewrite (proj1 (no_worker_raises sample_env sample_index None
                      default_chapter_range 0 sample_world_all_done w1 w2
                      obj obj1 Hinit Hget)); [reflexivity |].
    vm_compute. reflexivity.
  - vm_compute in Hinit. injection Hinit as <- <-.
    vm_compute in Hget. discriminate.
Defined.

(** ** The report on missing chapters *)

(** X15.  In the report on missing chapters the count and the list
    disagree unless the oldest chapter is chapter 1: for an index that
    holds every identifier once, all of them between the last and the
    first key, the printed count exceeds the number of listed
    identifiers by the last key minus 1. *)
Theorem missing_count_and_list (keys : list string) (k0 kn : string) :
  head keys = Some k0 ->
  last keys = Some kn ->
  NoDup (map Str.int keys) ->
  Forall (fun k => Str.int kn <= Str.int k <= Str.int k0) keys ->
  (Str.int k0 - Z.of_nat (length keys))
  - Z.of_nat (size (missing_ids (Str.int kn) (Str.int k0) keys))
  = Str.int kn - 1.
Proof.
  intros Hhead Hlast Hnd Hin. unfold missing_ids.
  assert (Hle : Str.int kn <= Str.int k0).
  { destruct keys as [|k keys]; [discriminate |].
    injection Hhead as ->. apply Forall_cons in Hin as [H _]. lia. }
  rewrite size_difference.
  - rewrite !size_list_to_set by (auto using NoDup_seqZ).
    rewrite length_seqZ, length_map.
    assert (Hlen : (length keys <= Z.to_nat (Str.int k0 + 1 - Str.int kn))%nat).
    { rewrite <- (length_map Str.int keys), <- (length_seqZ (Str.int kn)).
      apply submseteq_length, NoDup_submseteq; [exact Hnd |].
      intros x Hx. apply list_elem_of_fmap in Hx as (k & -> & Hk).
      rewrite Forall_forall in Hin. specialize (Hin k Hk).
      apply elem_of_seqZ. lia. }
    lia.
  - intros x Hx. apply elem_of_list_to_set in Hx.
    apply list_elem_of_fmap in Hx as (k & -> & Hk).
    rewrite Forall_forall in Hin. specialize (Hin k Hk).
    apply elem_of_list_to_set, elem_of_seqZ. lia.
Qed.

(** An index that lists chapters 12, 11 and 10: the count is 9, the
    list is empty. *)
Lemma missing_count_and_list_witness :
  let keys := ["12"; "11"; "10"] in
  12 - Z.of_nat (length keys) = 9
  /\ size (missing_ids 10 12 keys) = 0%nat.
Proof.
  intros keys. split; [reflexivity |].
  pose proof (missing_count_and_list keys "12" "10" eq_refl eq_refl) as H.
  assert (Hnd : NoDup (map Str.int keys)).
  { change (NoDup [12; 11; 10]). apply (bool_decide_unpack _). vm_compute. exact I. }
  assert (Hin : Forall (fun k => Str.int "10" <= Str.int k <= Str.int "12")
                  keys).
  { repeat constructor; vm_compute; discriminate. }
  specialize (H Hnd Hin).
  change (Str.int "12") with 12 in H. change (Str.int "10") with 10 in H.
  change (Z.of_nat (length keys)) with 3 in H. lia.
Defined.

(** ** Two links with one identifier *)

(** Setting a key of the index: a key already there keeps its
    place and takes the new URL, a new key goes to the end; the other
    items are as before, and every key is still there once. *)
Lemma od_set_spec (k v : string) (d : ordered_dict) :
  NoDup (od_keys d) ->
  od_keys (od_set k v d)
  = (if bool_decide (k ∈ od_keys d) then od_keys d else od_keys d ++ [k])
  /\ NoDup (od_keys (od_set k v d))
  /\ (forall v', In (k, v') (od_set k v d) <-> v' = v)
  /\ (forall k' v', k' <> k ->
                    (In (k', v') (od_set k v d) <-> In (k', v') d)).
Proof.
  intros Hnd. split; [apply od_set_keys |].
  split; [now apply od_set_NoDup |].
  induction d as [|[k1 v1] d IH].
  - simpl. split.
    + intros v'. split; [intros [[= <-] | []]; reflexivity | intros ->; auto].
    + intros k' v' Hne. split; [intros [[= -> _] | []]; congruence | intros []].
  - apply NoDup_cons in Hnd as [Hk1 Hnd]. specialize (IH Hnd).
    destruct IH as [IHk IHo]. simpl.
    destruct (Stdlib.Strings.String.eqb_spec k k1) as [-> | Hne].
    + split.
      * intros v'. split.
        -- intros [[= <-] | Hin]; [reflexivity |].
           exfalso. apply Hk1. apply list_elem_of_In.
           apply (in_map fst) in Hin. exact Hin.
        -- intros ->. now left.
      * intros k' v' Hne'. simpl. split.
        -- intros [[= -> _] | Hin]; [congruence | now right].
        -- intros [[= -> _] | Hin]; [congruence | now right].
    + split.
      * intros v'. simpl. rewrite IHk. split.
        -- intros [[= -> _] | H]; [congruence | exact H].
        -- intros H. now right.
      * intros k' v' Hne'. simpl. rewrite (IHo k' v' Hne'). reflexivity.
Qed.

(** The index 3, 2, 1 with chapter 2 linked a second time. *)
Lemma od_set_spec_witness :
  od_set "2" "new" [("3", "c"); ("2", "b"); ("1", "a")]
  = [("3", "c"); ("2", "new"); ("1", "a")]
  /\ NoDup (od_keys (od_set "2" "new" [("3", "c"); ("2", "b"); ("1", "a")])).
Proof.
  split; [reflexivity |].
  apply (od_set_spec "2" "new" [("3", "c"); ("2", "b"); ("1", "a")]).
  change (NoDup ["3"; "2"; "1"]).
  apply (bool_decide_unpack _). vm_compute. exact I.
Defined.

(** ** A download that fails *)

(** X16.  When the request for one image is not answered,
    [process_chapter] raises, whatever the other requests do: no
    document is written, nothing is printed, and the scratch directory
    is left behind. *)
Theorem failed_download_aborts (E : env) (self : WebtoonSaver)
  (chapter_id chapter_url save_path0 text : string) (rule : site_rule)
  (i : nat) (u : string) (w : world) :
  let pdf := pdf_path save_path0 chapter_id in
  let d := scratch_path save_path0 chapter_id in
  let urls := map Str.strip_spaces (find_images E (image_class rule) text) in
  file_exists pdf (fs w) = false ->
  file_exists d (fs w) = false ->
  page_at E chapter_url = Some text ->
  database self = Some rule ->
  urls !! i = Some u ->
  (forall st body, image_at E u <> Response st body) ->
  exists e w',
    process_chapter E self chapter_id chapter_url save_path0 w = (Raise e, w')
    /\ files (fs w') = files (fs w)
    /\ dir_exists d (fs w') = true
    /\ out w' = out w.
Proof.
  intros pdf d urls Hpdf Hscratch Hpage Hdb Hi Hu.
  unfold process_chapter. fold pdf. fold d.
  unfold bind at 1, isfile. rewrite Hpdf.
  unfold bind at 1. rewrite (prepare_scratch_fresh d w Hscratch).
  unfold bind at 1.
  set (w1 := world_with_scratch d w).
  set (P := fun w' : world =>
              files (fs w') = files (fs w)
              /\ dir_exists d (fs w') = true /\ out w' = out w).
  assert (HP1 : P w1).
  { unfold P, w1, world_with_scratch. simpl. split; [reflexivity |].
    split; [| reflexivity].
    apply dir_exists_lookup. simpl. rewrite lookup_insert_eq. eauto. }
  assert (HP2 : P (snd (fetch_images E self chapter_id chapter_url d w1))).
  { apply (preserves_fetch_images E d P); [| | exact HP1].
    - intros u0 w0 H0. exact H0.
    - intros name b w0 (H1 & H2 & H3). unfold P. simpl.
      rewrite dir_exists_add_entry. auto. }
  assert (Hraise : exists e,
             fst (fetch_images E self chapter_id chapter_url d w1) = Raise e).
  { rewrite fetch_images_never_reports.
    unfold bind at 1, requests_get, bind at 1, log_request. rewrite Hpage.
    unfold ret at 1. unfold bind at 1, get_database. rewrite Hdb.
    unfold ret at 1. fold urls. unfold bind at 1.
    destruct (download_images_raises E urls d i u
                {| fs := fs w1; net := chapter_url :: net w1; out := out w1 |}
                Hi Hu) as [e He].
    destruct (download_images E urls d _) as [r w2]. simpl in He. subst r.
    exists e. reflexivity. }
  destruct Hraise as [e He].
  destruct (fetch_images E self chapter_id chapter_url d w1) as [r w2].
  simpl in He, HP2. subst r. exists e, w2. split; [reflexivity | exact HP2].
Qed.

Lemma failed_download_aborts_witness :
  exists e w',
    process_chapter sample_env sample_self "2" (sample_chapter "2") "/c/abc/"
      sample_world = (Raise e, w')
    /\ files (fs w') = ∅
    /\ dir_exists "/c/abc/Chapter2_Images/" (fs w') = true.
Proof.
  destruct (failed_download_aborts sample_env sample_self "2"
              (sample_chapter "2") "/c/abc/" "ch2" webtoonscan_rule 1 "gone1"
              sample_world)
    as (e & w' & H1 & H2 & H3 & _); try reflexivity.
  - intros st body. discriminate.
  - exists e, w'. split; [exact H1 |]. split; [exact H2 | exact H3].
Defined.

(** ** The order of the names *)

Lemma string_compare_ltb (s t : string) :
  Stdlib.Strings.String.ltb s t = false ->
  Stdlib.Strings.String.ltb t s = false -> s = t.
Proof.
  intros H1 H2. apply string_ltb_leb in H1, H2.
  now apply Stdlib.Strings.String.leb_antisym.
Qed.

Lemma keys_lt_neither (a : list key_elem) :
  forall (ph : bool) (b : list key_elem),
    alternates ph a = true -> alternates ph b = true ->
    keys_lt a b = Ok false -> keys_lt b a = Ok false -> a = b.
Proof.
  induction a as [|x a IH]; intros ph [|y b] Ha Hb H1 H2;
    try reflexivity; try discriminate.
  simpl in H1, H2. rewrite (elem_eqb_sym y x) in H2.
  destruct x as [m|s], y as [n|t], ph; simpl in *; try discriminate.
  - destruct (Z.eqb_spec m n) as [-> | Hne].
    + f_equal. eapply IH; eauto.
    + injection H1 as H1. injection H2 as H2. lia.
  - destruct (Stdlib.Strings.String.eqb_spec s t) as [-> | Hne].
    + f_equal. eapply IH; eauto.
    + injection H1 as H1. injection H2 as H2.
      destruct Hne. now apply string_compare_ltb.
Qed.

(** X17.  The natural order is a strict total order on the keys: of two
    names either one is before the other, and not the other way round,
    or the two have the same key; comparing never raises.  A zero in
    front of a number does not change the key, so [images01.jpg] and
    [images1.jpg] have the same key. *)
Theorem natural_order_total (x y : string) :
  ((keys_lt (natural_keys x) (natural_keys y) = Ok true
    /\ keys_lt (natural_keys y) (natural_keys x) = Ok false)
   \/ (keys_lt (natural_keys x) (natural_keys y) = Ok false
       /\ keys_lt (natural_keys y) (natural_keys x) = Ok true)
   \/ (keys_lt (natural_keys x) (natural_keys y) = Ok false
       /\ keys_lt (natural_keys y) (natural_keys x) = Ok false
       /\ natural_keys x = natural_keys y))
  /\ (forall t ds t',
        no_digit t = true -> Str.isdigit ds = true -> no_digit t' = true ->
        natural_keys (t +:+ String "0" ds +:+ t')
        = natural_keys (t +:+ ds +:+ t')).
Proof.
  split.
  - destruct (natural_keys_comparable x y) as [[] Hxy].
    + left. split; [exact Hxy | now apply keys_lt_asym].
    + destruct (natural_keys_comparable y x) as [[] Hyx].
      * right. left. auto.
      * right. right. split; [exact Hxy |]. split; [exact Hyx |].
        apply (keys_lt_neither _ true); auto using natural_keys_alternates.
  - intros t ds t' Ht Hds Ht'.
    rewrite (natural_keys_one_number t (String "0" ds) t' Ht), 
      (natural_keys_one_number t ds t' Ht Hds Ht'); [reflexivity | | exact Ht'].
    simpl. now apply isdigit_all_digits.
Qed.

Lemma natural_order_total_witness :
  natural_keys "images01.jpg" = natural_keys "images1.jpg".
Proof.
  exact (proj2 (natural_order_total "" "") "images" "1" ".jpg"
           eq_refl eq_refl eq_refl).
Defined.

(** ** Links that share their first number *)

Lemma add_chapters_same_id (self : WebtoonSaver) (k : string)
  (links : list string) :
  Str.contains "webtoonscan.com" (url self) = true ->
  Forall (fun href => head (Str.re_findall_digits href) = Some k) links ->
  forall (d : ordered_dict) (w : world),
    (d = [] \/ exists v, d = [(k, v)]) ->
    add_chapters self d links w
    = (Ok match last links with
          | Some href => [(k, href)]
          | None => d
          end, w).
Proof.
  intros Hsite Hall. induction Hall as [|href links Hk _ IH]; intros d w Hd.
  - reflexivity.
  - simpl. unfold bind at 1, add_chapter, bind, lift, index.
    rewrite <- head_lookup, Hk. simpl. rewrite Hsite. unfold ret.
    assert (Hset : od_set k href d = [(k, href)]).
    { destruct Hd as [-> | [v ->]]; [reflexivity |].
      simpl. now rewrite Stdlib.Strings.String.eqb_refl. }
    rewrite Hset, (IH [(k, href)] w) by eauto.
    rewrite last_cons. destruct (last links); reflexivity.
Qed.

(** X18.  The identifier of a chapter is the first run of digits of its
    link, wherever it stands.  When the links of a comic of the first
    site all start with the same number (a number in the name of the
    comic, say), the index has one entry, with the last link. *)
Theorem links_sharing_first_number (E : env) (self : WebtoonSaver)
  (w : world) (text k : string) (rule : site_rule) :
  let links := find_chapter_links E (chapter_class rule) text in
  page_at E (url self) = Some text ->
  database self = Some rule ->
  Str.contains "webtoonscan.com" (url self) = true ->
  links <> [] ->
  Forall (fun href => head (Str.re_findall_digits href) = Some k) links ->
  exists obj w' href,
    getChapterURLs E self w = (Ok obj, w')
    /\ last links = Some href
    /\ chapter_urls obj
       = filter_end (chapter_end self)
           (filter_start (chapter_start self) [(k, href)]).
Proof.
  intros links Hpage Hdb Hsite Hne Hall.
  destruct (last links) as [href|] eqn:Hlast;
    [| apply last_None in Hlast; contradiction].
  unfold getChapterURLs, bind at 1, requests_get, bind at 1, log_request.
  rewrite Hpage. unfold ret at 1. unfold bind at 1, get_database.
  rewrite Hdb. unfold ret at 1. unfold bind at 1. fold links.
  rewrite (add_chapters_same_id self k links Hsite Hall [] _ (or_introl eq_refl)).
  rewrite Hlast. unfold bind at 1.
  destruct (report_missing self [(k, href)] _) as [[[]|e] w3] eqn:Hrep.
  - eexists _, w3, href. split; [reflexivity |]. split; reflexivity.
  - unfold report_missing, bind, lift, when, print, ret in Hrep. simpl in Hrep.
    destruct (0 <? _); discriminate.
Qed.

Lemma links_sharing_first_number_witness :
  let E := sample_env_with_links
             ["https://webtoonscan.com/manhwa/level-99/chapter-2/";
              "https://webtoonscan.com/manhwa/level-99/chapter-1/"] in
  exists obj w',
    getChapterURLs E sample_self sample_world = (Ok obj, w')
    /\ chapter_urls obj
       = [("99", "https://webtoonscan.com/manhwa/level-99/chapter-1/")].
Proof.
  intros E.
  destruct (links_sharing_first_number E sample_self sample_world "index"
              "99" webtoonscan_rule)
    as (obj & w' & href & Hrun & Hlast & Hidx); try reflexivity.
  - discriminate.
  - repeat constructor.
  - exists obj, w'. split; [exact Hrun |].
    rewrite Hidx. injection Hlast as <-. reflexivity.
Defined.

(** ** A page that cannot be read *)

(** X19.  When the page of a chapter cannot be fetched, or when the
    instance has no rule (an unknown site), [process_chapter] raises,
    [RequestException] or [AttributeError], once it has made the
    scratch directory and requested the page: no image is requested and
    the empty scratch directory is left behind. *)
Theorem page_failure_aborts (E : env) (self : WebtoonSaver)
  (chapter_id chapter_url save_path0 : string) (w : world) :
  let d := scratch_path save_path0 chapter_id in
  file_exists (pdf_path save_path0 chapter_id) (fs w) = false ->
  file_exists d (fs w) = false ->
  page_at E chapter_url = None \/ database self = None ->
  process_chapter E self chapter_id chapter_url save_path0 w
  = (Raise (match page_at E chapter_url with
            | None => RequestException
            | Some _ => AttributeError
            end),
     world_with_request chapter_url (world_with_scratch d w))
  /\ dirs (fs (world_with_request chapter_url (world_with_scratch d w))) !! d
     = Some ∅.
Proof.
  intros d Hpdf Hscratch Hfail. split.
  - unfold process_chapter. fold d.
    unfold bind at 1, isfile. rewrite Hpdf.
    unfold bind at 1. rewrite (prepare_scratch_fresh d w Hscratch).
    unfold bind at 1, fetch_images, bind at 1, requests_get, bind at 1,
      log_request.
    destruct (page_at E chapter_url) as [text|]; [| reflexivity].
    destruct Hfail as [Hp | Hdb]; [discriminate |].
    unfold ret at 1. unfold bind at 1, get_database. rewrite Hdb. reflexivity.
  - simpl. apply lookup_insert_eq.
Qed.

Lemma page_failure_aborts_witness :
  process_chapter sample_env sample_self "3" (sample_chapter "3") "/c/abc/"
    sample_world
  = (Raise RequestException,
     world_with_request (sample_chapter "3")
       (world_with_scratch "/c/abc/Chapter3_Images/" sample_world)).
Proof.
  apply (page_failure_aborts sample_env sample_self "3" (sample_chapter "3")
           "/c/abc/" sample_world); [reflexivity | reflexivity |].
  left. reflexivity.
Defined.
